(** * resolve-lock test case of tipocket: a shallow embedding

    The Go file [testcase/resolve-lock/resolve_lock.go] drives a TiKV cluster:
    it writes locks, triggers GC (resolve-lock) at a safe point and scans the
    locks that are left.  Everything the client calls outside of the file (PD,
    the region cache, the TiKV RPC layer, the lock resolver, the HTTP status
    port of TiDB, contexts and tickers) is an oracle acting on an abstract
    world [W]; the client itself is explicit state passing over the fields of
    [resolveLockClient].  Loops that have no bound in the source ([for { }])
    take fuel.  Logging and [time.Sleep] have no effect on the state and are
    left out.  [SetUp] and [TearDown], which open and close the connections,
    come after the test itself, with collaborators of their own. *)

From Stdlib Require Import ZArith List String Bool Lia.
From Stdlib Require Import Strings.Byte.
Import ListNotations.
Open Scope string_scope.
Open Scope list_scope.
Open Scope Z_scope.

(** ** Go data *)

Definition uint64_modulus : Z := 2 ^ 64.

(** [^uint64(0)] *)
Definition uint64_not (x : Z) : Z := Z.land (Z.lnot x) (Z.ones 64).

(** [atomic.AddUint64(&x, delta)]: the new value, wrapped to 64 bits. *)
Definition atomic_AddUint64 (x delta : Z) : Z := (x + delta) mod uint64_modulus.

(** [[]byte] *)
Definition Key : Type := list byte.

(** [len(key)] as a Go int. *)
Definition len {A : Type} (l : list A) : Z := Z.of_nat (List.length l).

(** Go errors.  [errors.Trace] keeps both the text and the cause of an error,
    so it is the identity here; [errors.Annotatef] wraps a cause. *)
Inductive error : Type :=
| io_EOF
| context_Canceled
| errors_New (msg : string)
| errors_Annotate (msg : string) (cause : error).

Definition errors_Trace (e : error) : error := e.

Fixpoint errors_Cause (e : error) : error :=
  match e with
  | errors_Annotate _ c => errors_Cause c
  | _ => e
  end.

(** [err.Error()] *)
Fixpoint Error (e : error) : string :=
  match e with
  | io_EOF => "EOF"
  | context_Canceled => "context canceled"
  | errors_New m => m
  | errors_Annotate m c => String.append m (String.append ": " (Error c))
  end.

(** [strings.Contains(s, substr)] *)
Fixpoint strings_Contains (s substr : string) : bool :=
  String.prefix substr s ||
  match s with
  | EmptyString => false
  | String _ s' => strings_Contains s' substr
  end.

(** The three contexts of the file: the one [Start] is called with, the
    [context.Background()] that shadows it inside the loop, and the child of the
    latter that [asyncGenerateLocksDuringGC] makes with [context.WithTimeout]. *)
Inductive Context : Type := ctx_Start | ctx_Background | ctx_Race.

Inductive backoffType : Type := BoPDRPC | BoRegionMiss | BoTxnLock.

Definition RegionVerID : Type := Z.

(** [tikv.KeyLocation] *)
Record KeyLocation : Type := mkLoc {
  Region : RegionVerID;
  StartKey : Key;
  EndKey : Key
}.

(** [kvrpcpb.Mutation]; the operation is always [Op_Put]. *)
Record Mutation : Type := mkMutation {
  mut_Key : Key;
  mut_Value : list byte
}.

Record PrewriteRequest : Type := mkPrewrite {
  Mutations : list Mutation;
  PrimaryLock : Key;
  StartVersion : Z;
  LockTtl : Z
}.

Record PrewriteResponse : Type := mkPrewriteResp {
  pw_RegionError : option string;
  pw_Errors : list string
}.

Record ScanLockRequest : Type := mkScanLock {
  sl_Limit : Z;
  sl_MaxVersion : Z;
  sl_StartKey : Key
}.

(** [kvrpcpb.LockInfo] *)
Record LockInfo : Type := mkLockInfo {
  li_PrimaryLock : Key;
  li_LockVersion : Z;
  li_Key : Key;
  li_LockTtl : Z
}.

Record ScanLockResponse : Type := mkScanLockResp {
  sl_RegionError : option string;
  sl_Error : option string;
  sl_Locks : list LockInfo
}.

(** [tikv.Lock] and [tikv.NewLock], which copies the fields of the info. *)
Record Lock : Type := mkLock {
  lk_Key : Key;
  lk_Primary : Key;
  TxnID : Z;
  TTL : Z
}.

Definition NewLock (l : LockInfo) : Lock :=
  mkLock (li_Key l) (li_PrimaryLock l) (li_LockVersion l) (li_LockTtl l).

(** [tikvrpc.Response]: [Resp] is nil or the body of the expected type. *)
Record Response (B : Type) : Type := mkResponse { Resp : option B }.
Arguments mkResponse {B} _.
Arguments Resp {B} _.

(** [resp.GetRegionError()]: a nil body has no region error; a body of a
    protocol type reports its field and never fails. *)
Definition GetRegionError {B : Type} (region_error : B -> option string)
  (resp : Response B) : option string * option error :=
  match Resp resp with
  | None => (None, None)
  | Some b => (region_error b, None)
  end.

(** ** The client *)

Record Config : Type := mkConfig {
  EnableGreenGC : bool;
  RegionCount : Z;
  LockPerRegion : Z;
  Worker : Z;
  LocalMode : bool
}.

Definition Normalize (c : Config) : Config :=
  let c := if RegionCount c =? 0
           then mkConfig (EnableGreenGC c) 200 (LockPerRegion c) (Worker c) (LocalMode c) else c in
  let c := if LockPerRegion c =? 0
           then mkConfig (EnableGreenGC c) (RegionCount c) 10 (Worker c) (LocalMode c) else c in
  let c := if Worker c =? 0
           then mkConfig (EnableGreenGC c) (RegionCount c) (LockPerRegion c) 10 (LocalMode c) else c in
  c.

Record resolveLockClient : Type := mkClient {
  cfg : Config;
  tableIDs : list Z;
  handleID : Z;
  safePoint : Z;
  safeLockTs : Z;
  mockLockTs : Z
}.

Definition set_handleID (v : Z) (c : resolveLockClient) : resolveLockClient :=
  mkClient (cfg c) (tableIDs c) v (safePoint c) (safeLockTs c) (mockLockTs c).
Definition set_safePoint (v : Z) (c : resolveLockClient) : resolveLockClient :=
  mkClient (cfg c) (tableIDs c) (handleID c) v (safeLockTs c) (mockLockTs c).
Definition set_safeLockTs (v : Z) (c : resolveLockClient) : resolveLockClient :=
  mkClient (cfg c) (tableIDs c) (handleID c) (safePoint c) v (mockLockTs c).
Definition set_mockLockTs (v : Z) (c : resolveLockClient) : resolveLockClient :=
  mkClient (cfg c) (tableIDs c) (handleID c) (safePoint c) (safeLockTs c) v.

(** The task type local to [generateLocks]. *)
Record task : Type := mkTask {
  t_tableID : Z;
  t_handleID : Z;
  t_limit : Z
}.

(** ** The collaborators

    Pure library functions and the calls that reach the cluster.  A call takes
    the world and gives the next world with its answer. *)
Record Env (W : Type) : Type := mkEnv {
  (* tablecodec.EncodeRowKeyWithHandle *)
  EncodeRowKeyWithHandle : Z -> Z -> Key;
  (* oracle.ComposeTS *)
  ComposeTS : Z -> Z -> Z;
  (* loc.Contains(key), of tikv.KeyLocation *)
  Contains : KeyLocation -> Key -> bool;
  (* c.pd.GetTS(ctx) *)
  pd_GetTS : Context -> W -> W * (Z * Z * option error);
  (* ctx.Err() != nil, for a context that can be cancelled *)
  ctx_Err : Context -> W -> bool;
  (* bo.Backoff(typ, err); the backoffer and its budget live in the world *)
  Backoff : backoffType -> error -> W -> W * option error;
  (* c.kv.GetRegionCache().LocateKey(bo, key) *)
  LocateKey : Key -> W -> W * (KeyLocation + error);
  (* c.kv.SendReq(bo, req, region, timeout), by command *)
  SendReq_Prewrite : PrewriteRequest -> RegionVerID -> W -> W * (Response PrewriteResponse + error);
  SendReq_ScanLock : ScanLockRequest -> RegionVerID -> W -> W * (Response ScanLockResponse + error);
  (* c.kv.GetLockResolver().BatchResolveLocks(bo, locks, region) *)
  BatchResolveLocks : list Lock -> RegionVerID -> W -> W * (bool * option error);
  (* GET /test/gc/resolvelock?safepoint=..&physical=..: the transport error, or
     the outcome of decoding the body, (physicalUsed, error of json.Unmarshal) *)
  http_resolvelock : Z -> bool -> W -> W * ((bool * option error) + error);
  (* the select at the top of the loop of Start: is ctx.Done() ready? *)
  Start_ctx_Done : W -> W * bool;
  (* the select of the dispatch loop under a cancellable context: true when the
     case <-ctx.Done() is the one taken, false when <-ticker.C is *)
  select_ctx_Done : W -> W * bool;
  (* which of the n workers blocked on taskCh receives the next task *)
  recv_task : nat -> W -> W * nat
}.

Arguments EncodeRowKeyWithHandle {W} _ _ _.
Arguments ComposeTS {W} _ _ _.
Arguments Contains {W} _ _ _.
Arguments pd_GetTS {W} _ _ _.
Arguments ctx_Err {W} _ _ _.
Arguments Backoff {W} _ _ _ _.
Arguments LocateKey {W} _ _ _.
Arguments SendReq_Prewrite {W} _ _ _ _.
Arguments SendReq_ScanLock {W} _ _ _ _.
Arguments BatchResolveLocks {W} _ _ _ _.
Arguments http_resolvelock {W} _ _ _ _.
Arguments Start_ctx_Done {W} _ _.
Arguments select_ctx_Done {W} _ _.
Arguments recv_task {W} _ _ _.

(** What the client did, newest first.  A request is kept with the location
    that [LocateKey] gave for it, a call of the lock resolver with the page of
    the scan it was made for, a new cursor with the page and location it was
    computed from. *)
Inductive Event : Type :=
| EvMockTs (ts : Z)
| EvCtxDone
| EvEnqueue (t : task)
| EvPrewrite (req : PrewriteRequest) (loc : KeyLocation)
| EvPrewriteReply (resp : Response PrewriteResponse)
| EvScanLock (req : ScanLockRequest) (loc : KeyLocation)
| EvBatchResolve (loc : KeyLocation) (locksInfo : list LockInfo) (safeLocks : list Lock)
| EvCursor (loc : KeyLocation) (locksInfo : list LockInfo) (key : Key)
| EvGC (safepoint : Z) (physical : bool).

(** ** State and results *)

Record State (W : Type) : Type := mkState {
  client : resolveLockClient;
  world : W;
  log : list Event
}.
Arguments mkState {W} _ _ _.
Arguments client {W} _.
Arguments world {W} _.
Arguments log {W} _.

Inductive Res (W A : Type) : Type :=
| Ok (a : A) (s : State W)
| OutOfFuel (s : State W)
| Panic (s : State W).
Arguments Ok {W A} _ _.
Arguments OutOfFuel {W A} _.
Arguments Panic {W A} _.

Definition M (W A : Type) : Type := State W -> Res W A.

Definition ret {W A} (a : A) : M W A := fun s => Ok a s.

Definition bind {W A B} (m : M W A) (k : A -> M W B) : M W B :=
  fun s =>
    match m s with
    | Ok a s' => k a s'
    | OutOfFuel s' => OutOfFuel s'
    | Panic s' => Panic s'
    end.

Declare Scope go_scope.
Delimit Scope go_scope with go.
Notation "x <- m ;; k" := (bind m (fun x => k))
  (at level 100, m at next level, right associativity) : go_scope.
Notation "' p <- m ;; k" := (bind m (fun x => match x with p => k end))
  (at level 100, p pattern, m at next level, right associativity) : go_scope.
Notation "m ;; k" := (bind m (fun _ => k))
  (at level 100, right associativity) : go_scope.
Open Scope go_scope.

Definition res_state {W A} (r : Res W A) : State W :=
  match r with
  | Ok _ s => s
  | OutOfFuel s => s
  | Panic s => s
  end.

Definition out_of_fuel {W A} : M W A := fun s => OutOfFuel s.
Definition panic {W A} : M W A := fun s => Panic s.

Definition call {W A} (f : W -> W * A) : M W A :=
  fun s => let (w, a) := f (world s) in Ok a (mkState (client s) w (log s)).

Definition ask {W A} (f : W -> A) : M W A := fun s => Ok (f (world s)) s.

Definition emit {W} (e : Event) : M W unit :=
  fun s => Ok tt (mkState (client s) (world s) (e :: log s)).

Definition getc {W} : M W resolveLockClient := fun s => Ok (client s) s.

Definition modc {W} (f : resolveLockClient -> resolveLockClient) : M W unit :=
  fun s => Ok tt (mkState (f (client s)) (world s) (log s)).

Section Client.
Context {W : Type} (E : Env W).

(** ** Timestamp source *)

Fixpoint getTs (fuel : nat) (ctx : Context) : M W (Z * option error) :=
  match fuel with
  | O => out_of_fuel
  | S fuel' =>
      '(physical, logical, err) <- call (pd_GetTS E ctx) ;;
      match option_map errors_Cause err with
      | None => ret (ComposeTS E physical logical, None)
      | Some io_EOF | Some context_Canceled =>
          cancelled <- match ctx with
                       | ctx_Background => ret false
                       | _ => ask (ctx_Err E ctx)
                       end ;;
          if (cancelled : bool) then ret (0, None)
          else
            berr <- call (Backoff E BoPDRPC
                            (match err with Some e => e | None => io_EOF end)) ;;
            match berr with
            | Some _ => ret (0, None)
            | None => getTs fuel' ctx
            end
      | Some _ => ret (0, err)
      end
  end.

Definition getLockTs (fuel : nat) (ctx : Context) : M W (Z * option error) :=
  c <- getc ;;
  if mockLockTs c =? 0 then getTs fuel ctx
  else
    let v := atomic_AddUint64 (mockLockTs c) (uint64_not 0) in
    modc (set_mockLockTs v) ;;
    emit (EvMockTs v) ;;
    ret (v, None).

(** ** Lock writer *)

Definition maxBatchSize : Z := 1024 * 1024.

(** The loop over [keys] of [lockBatch] that fills [mutations]; [batchSize] is
    the size so far. *)
Fixpoint lockBatch_mutations (loc : KeyLocation) (keys : list Key) (batchSize : Z)
  : list Mutation :=
  match keys with
  | [] => []
  | key :: keys' =>
      if negb (Contains E loc key) then []
      else
        let value := [x76] in
        let m := mkMutation key value in
        let batchSize := batchSize + len key + len value in
        if batchSize >=? maxBatchSize then [m]
        else m :: lockBatch_mutations loc keys' batchSize
  end.

Fixpoint lockBatch_loop (fuel : nat) (ctx : Context) (keys : list Key)
  : M W (Z * option error) :=
  match fuel with
  | O => out_of_fuel
  | S fuel' =>
      let primary := hd [] keys in
      r <- call (LocateKey E primary) ;;
      match r with
      | inr err => ret (0, Some (errors_Trace err))
      | inl loc =>
          '(startTs, err) <- getLockTs fuel ctx ;;
          match err with
          | Some e => ret (0, Some (errors_Trace e))
          | None =>
              if startTs =? 0 then ret (0, None)
              else
                let mutations := lockBatch_mutations loc keys 0 in
                let lockedKeys := len mutations in
                if lockedKeys =? 0 then ret (0, None)
                else
                  let req := mkPrewrite mutations primary startTs 30000 in
                  emit (EvPrewrite req loc) ;;
                  r <- call (SendReq_Prewrite E req (Region loc)) ;;
                  match r with
                  | inr err =>
                      ret (0, Some (errors_Annotate "send request failed" err))
                  | inl resp =>
                      emit (EvPrewriteReply resp) ;;
                      let '(regionErr, err) := GetRegionError pw_RegionError resp in
                      match err with
                      | Some e => ret (0, Some (errors_Trace e))
                      | None =>
                          match regionErr with
                          | Some re =>
                              berr <- call (Backoff E BoRegionMiss (errors_New re)) ;;
                              match berr with
                              | Some e => ret (0, Some (errors_Trace e))
                              | None => lockBatch_loop fuel' ctx keys
                              end
                          | None =>
                              match Resp resp with
                              | None => ret (0, Some (errors_New "response body missing"))
                              | Some prewriteResp =>
                                  let keyErrors := pw_Errors prewriteResp in
                                  let lockedKeys :=
                                    if negb (len keyErrors =? 0) then 0 else lockedKeys in
                                  ret (lockedKeys, None)
                              end
                          end
                      end
                  end
          end
      end
  end.

Definition lockBatch (fuel : nat) (ctx : Context) (keys : list Key)
  : M W (Z * option error) :=
  if len keys =? 0 then ret (0, None) else lockBatch_loop fuel ctx keys.

Definition txnSize : Z := 5.

(** The loop of [lock]: [n] iterations are left, [i] is the loop variable. *)
Fixpoint lock_loop (fuel : nat) (ctx : Context) (tableID handleID limit : Z)
  (n : nat) (i : Z) (keys : list Key) (locked : Z) : M W (Z * option error) :=
  match n with
  | O => ret (locked, None)
  | S n' =>
      let keys := keys ++ [EncodeRowKeyWithHandle E tableID (handleID + i)] in
      if (len keys >=? txnSize) || (i =? limit - 1) then
        '(cnt, err) <- lockBatch fuel ctx keys ;;
        match err with
        | Some e => ret (0, Some (errors_Trace e))
        | None => lock_loop fuel ctx tableID handleID limit n' (i + 1) [] (locked + cnt)
        end
      else lock_loop fuel ctx tableID handleID limit n' (i + 1) keys locked
  end.

Definition lock (fuel : nat) (ctx : Context) (tableID handleID limit : Z)
  : M W (Z * option error) :=
  lock_loop fuel ctx tableID handleID limit (Z.to_nat limit) 0 [] 0.

(** ** Lock generator

    The goroutines of [generateLocks] are put in sequence: the dispatch loop
    fills [taskCh] (its buffer holds one task per table, so a send never
    blocks), then the tasks are received in the order of the channel, each by
    the worker that [recv_task] picks among those still running.  A worker that
    gets an error sends [res{0, err}] and leaves; the others send their count
    once the channel is closed and empty. *)

(** The dispatch loop.  [break] inside [select] leaves the [select] statement,
    and the [for] goes on with the next table.  [context.Background()] is never
    done, so under it only the ticker can fire. *)
Fixpoint generateLocks_dispatch (ctx : Context) (tableIDs : list Z) : M W (list task) :=
  match tableIDs with
  | [] => ret []
  | tableID :: rest =>
      done <- match ctx with
              | ctx_Background => ret false
              | _ => call (select_ctx_Done E)
              end ;;
      if (done : bool) then
        emit EvCtxDone ;;
        generateLocks_dispatch ctx rest
      else
        c <- getc ;;
        let t := mkTask tableID (handleID c) (LockPerRegion (cfg c)) in
        emit (EvEnqueue t) ;;
        queued <- generateLocks_dispatch ctx rest ;;
        ret (t :: queued)
  end.

Fixpoint remove_nth {A : Type} (i : nat) (l : list A) {struct l} : list A :=
  match l, i with
  | [], _ => []
  | _ :: l', O => l'
  | x :: l', S i' => x :: remove_nth i' l'
  end.

Fixpoint add_nth (i : nat) (d : Z) (l : list Z) {struct l} : list Z :=
  match l, i with
  | [], _ => []
  | x :: l', O => (x + d) :: l'
  | x :: l', S i' => x :: add_nth i' d l'
  end.

(** The workers: [running] holds the [locked] counter of every worker that is
    still in its loop, [first] the first error sent to [resCh]. *)
Fixpoint generateLocks_workers (fuel : nat) (ctx : Context) (tasks : list task)
  (running : list Z) (first : option error) : M W (list Z * option error) :=
  match tasks with
  | [] => ret (running, first)
  | t :: tasks' =>
      match running with
      | [] => ret (running, first)
      | _ :: _ =>
          i <- call (recv_task E (List.length running)) ;;
          let i := Nat.modulo i (List.length running) in
          '(cnt, err) <- lock fuel ctx (t_tableID t) (t_handleID t) (t_limit t) ;;
          match err with
          | Some e =>
              generateLocks_workers fuel ctx tasks' (remove_nth i running)
                (match first with None => Some e | Some _ => first end)
          | None =>
              generateLocks_workers fuel ctx tasks' (add_nth i cnt running) first
          end
      end
  end.

(** [make(chan res, workers)] panics for a negative size. *)
Definition generateLocks (fuel : nat) (ctx : Context) : M W (Z * option error) :=
  c <- getc ;;
  let workers := Worker (cfg c) in
  if workers <? 0 then panic
  else
    tasks <- generateLocks_dispatch ctx (tableIDs c) ;;
    '(running, err) <- generateLocks_workers fuel ctx tasks
                         (repeat 0 (Z.to_nat workers)) None ;;
    ret (fold_right Z.add 0 running, err).

(** The part of [asyncGenerateLocksDuringGC] that runs before the goroutine is
    started. *)
Definition asyncGenerateLocksDuringGC (safeLockTs : Z) : M W unit :=
  c <- getc ;;
  modc (set_handleID (LockPerRegion (cfg c))) ;;
  modc (set_safeLockTs safeLockTs) ;;
  modc (set_mockLockTs safeLockTs).

(** Its goroutine; the result is only logged. *)
Definition asyncGenerateLocksDuringGC_go (fuel : nat) : M W unit :=
  generateLocks fuel ctx_Race ;;
  ret tt.

(** ** GC driver *)

Definition resolveLocks : M W (bool * option error) :=
  c <- getc ;;
  emit (EvGC (safePoint c) (EnableGreenGC (cfg c))) ;;
  r <- call (http_resolvelock E (safePoint c) (EnableGreenGC (cfg c))) ;;
  match r with
  | inr err => ret (false, Some (errors_Trace err))
  | inl (_, Some err) => ret (false, Some (errors_Trace err))
  | inl (physicalUsed, None) => ret (physicalUsed, None)
  end.

(** ** Consistency checker *)

Definition scanLockLimit : Z := 100.

(** The loop of [CheckData] over [locksInfo]. *)
Fixpoint CheckData_classify (safeLockTs : Z) (locksInfo : list LockInfo)
  (safeLocks unsafeLocks : list Lock) : list Lock * list Lock :=
  match locksInfo with
  | [] => (safeLocks, unsafeLocks)
  | info :: rest =>
      let lock := NewLock info in
      if TxnID lock <? safeLockTs
      then CheckData_classify safeLockTs rest (safeLocks ++ [lock]) unsafeLocks
      else CheckData_classify safeLockTs rest safeLocks (unsafeLocks ++ [lock])
  end.

(** [locksInfo[len(locksInfo)-1].GetKey()] *)
Definition last_lock_key (locksInfo : list LockInfo) : Key :=
  li_Key (nth (Z.to_nat (len locksInfo - 1)) locksInfo (mkLockInfo [] 0 [] 0)).

(** The cursor after a page that was resolved. *)
Definition CheckData_next_key (loc : KeyLocation) (locksInfo : list LockInfo) : Key :=
  if len locksInfo <? scanLockLimit then EndKey loc else last_lock_key locksInfo.

Definition with_StartKey (req : ScanLockRequest) (key : Key) : ScanLockRequest :=
  mkScanLock (sl_Limit req) (sl_MaxVersion req) key.

Fixpoint CheckData_loop (fuel : nat) (req : ScanLockRequest) (key : Key)
  (unsafeLocks : list Lock) : M W (list Lock * option error) :=
  match fuel with
  | O => out_of_fuel
  | S fuel' =>
      let req := with_StartKey req key in
      r <- call (LocateKey E key) ;;
      match r with
      | inr err => ret (unsafeLocks, Some (errors_Trace err))
      | inl loc =>
          emit (EvScanLock req loc) ;;
          r <- call (SendReq_ScanLock E req (Region loc)) ;;
          match r with
          | inr err => ret (unsafeLocks, Some (errors_Trace err))
          | inl resp =>
              let '(regionErr, err) := GetRegionError sl_RegionError resp in
              match err with
              | Some e => ret (unsafeLocks, Some (errors_Trace e))
              | None =>
                  match regionErr with
                  | Some re =>
                      berr <- call (Backoff E BoRegionMiss (errors_New re)) ;;
                      match berr with
                      | Some e => ret (unsafeLocks, Some (errors_Trace e))
                      | None => CheckData_loop fuel' req key unsafeLocks
                      end
                  | None =>
                      match Resp resp with
                      | None => ret (unsafeLocks, Some (errors_New "missing response body"))
                      | Some scanLockResp =>
                          match sl_Error scanLockResp with
                          | Some _ =>
                              ret (unsafeLocks, Some (errors_New "unexpected scanlock error: %s"))
                          | None =>
                              let locksInfo := sl_Locks scanLockResp in
                              c <- getc ;;
                              let '(safeLocks, unsafeLocks) :=
                                CheckData_classify (safeLockTs c) locksInfo [] unsafeLocks in
                              emit (EvBatchResolve loc locksInfo safeLocks) ;;
                              '(ok, err) <- call (BatchResolveLocks E safeLocks (Region loc)) ;;
                              match err with
                              | Some e => ret (unsafeLocks, Some (errors_Trace e))
                              | None =>
                                  if negb ok then
                                    berr <- call (Backoff E BoTxnLock
                                                    (errors_New "remain locks: %d")) ;;
                                    match berr with
                                    | Some e => ret (unsafeLocks, Some (errors_Trace e))
                                    | None => CheckData_loop fuel' req key unsafeLocks
                                    end
                                  else
                                    let key := CheckData_next_key loc locksInfo in
                                    emit (EvCursor loc locksInfo key) ;;
                                    if len key =? 0 then ret (unsafeLocks, None)
                                    else CheckData_loop fuel' req key unsafeLocks
                              end
                          end
                      end
                  end
              end
          end
      end
  end.

Definition CheckData (fuel : nat) : M W (list Lock * option error) :=
  c <- getc ;;
  let req := mkScanLock 10 (safePoint c) [] in
  CheckData_loop fuel req [] [].

Definition reset : M W unit :=
  modc (set_handleID 0) ;;
  modc (set_safePoint 0) ;;
  modc (set_safeLockTs 0) ;;
  modc (set_mockLockTs 0).

(** ** Round controller *)

(** The test of [Start] on an error of [resolveLocks]: true when the round
    gives up at once. *)
Definition gc_error_is_fatal (err : error) : bool :=
  negb (strings_Contains (Error err) "region unavailable"
        || strings_Contains (Error err) "Region is unavailable")
  && negb (strings_Contains (Error err) "unexpected scanlock error: error:<locked").

(** The loop [for i := 0; i < 5; i++] of [Start], with [n] iterations left:
    [inr] is the [return] inside it, [inl] the values of [greenGCUsed] and
    [err] after it. *)
Fixpoint Start_gc_loop (n : nat) (greenGCUsed : bool) (err : option error)
  : M W ((bool * option error) + error) :=
  match n with
  | O => ret (inl (greenGCUsed, err))
  | S n' =>
      '(greenGCUsed, err) <- resolveLocks ;;
      match err with
      | None => ret (inl (greenGCUsed, None))
      | Some e =>
          if gc_error_is_fatal e then ret (inr (errors_Trace e))
          else Start_gc_loop n' greenGCUsed (Some e)
      end
  end.

Definition err_green_gc : error := errors_New "green gc failed to run for over 50 times".
Definition err_check_data : error := errors_New "green GC check data failed".

(** What one turn of the loop of [Start] ends with: a [return], or the next
    turn with the new [lastGreenGC]. *)
Inductive RoundResult : Type :=
| Return (err : option error)
| NextRound (lastGreenGC : Z).

(** The end of a round, from the values that [CheckData] returned. *)
Definition Start_after_check (lastGreenGC : Z) (r : list Lock * option error)
  : M W RoundResult :=
  let '(unsafeLocks, err) := r in
  if negb (len unsafeLocks =? 0) then ret (Return (Some err_check_data))
  else
    match err with
    | Some e => ret (Return (Some (errors_Trace e)))
    | None =>
        reset ;;
        ret (NextRound lastGreenGC)
    end.

(** A round up to the point where [CheckData] is called: [inl] is a [return],
    [inr] the value of [lastGreenGC] to go on with.  The goroutine of
    [asyncGenerateLocksDuringGC] is run at [wg.Wait()]: between its start and
    the join the controller only assigns [safePoint], which the goroutine does
    not read, and the answers of the collaborators do not depend on the order
    in the model. *)
Definition Start_before_check (fuel : nat) (loopNum lastGreenGC : Z)
  : M W (option error + Z) :=
  done <- call (Start_ctx_Done E) ;;
  if (done : bool) then ret (inl None)
  else
    '(ts, err) <- getTs fuel ctx_Background ;;
    match err with
    | Some e => ret (inl (Some (errors_Trace e)))
    | None =>
        if ts =? 0 then ret (inl None)
        else
          '(_, err) <- generateLocks fuel ctx_Background ;;
          match err with
          | Some e => ret (inl (Some (errors_Trace e)))
          | None =>
              asyncGenerateLocksDuringGC ts ;;
              '(sp, err) <- getTs fuel ctx_Background ;;
              modc (set_safePoint sp) ;;
              match err with
              | Some e => ret (inl (Some (errors_Trace e)))
              | None =>
                  if ts =? 0 then ret (inl None)
                  else
                    r <- Start_gc_loop 5 false None ;;
                    match r with
                    | inr e => ret (inl (Some e))
                    | inl (_, Some e) => ret (inl (Some (errors_Trace e)))
                    | inl (greenGCUsed, None) =>
                        let lastGreenGC := if greenGCUsed then loopNum else lastGreenGC in
                        c <- getc ;;
                        if EnableGreenGC (cfg c) && (loopNum - lastGreenGC >? 50)
                        then ret (inl (Some err_green_gc))
                        else
                          asyncGenerateLocksDuringGC_go fuel ;;
                          ret (inr lastGreenGC)
                    end
              end
          end
    end.

Definition Start_round (fuel : nat) (loopNum lastGreenGC : Z) : M W RoundResult :=
  r <- Start_before_check fuel loopNum lastGreenGC ;;
  match r with
  | inl e => ret (Return e)
  | inr lastGreenGC =>
      r <- CheckData fuel ;;
      Start_after_check lastGreenGC r
  end.

(** The loop of [Start]: [n] bounds the number of rounds; the result is the
    value of [loopNum] at the [return] and the error returned. *)
Fixpoint Start_loop (fuel n : nat) (loopNum lastGreenGC : Z) : M W (Z * option error) :=
  match n with
  | O => out_of_fuel
  | S n' =>
      r <- Start_round fuel loopNum lastGreenGC ;;
      match r with
      | Return e => ret (loopNum, e)
      | NextRound lastGreenGC => Start_loop fuel n' (loopNum + 1) lastGreenGC
      end
  end.

Definition Start (fuel : nat) : M W (option error) :=
  r <- Start_loop fuel fuel 0 (-1) ;;
  ret (snd r).

(** ** Calls in a row

    [n] calls of [getLockTs] one after the other, as the batches of the lock
    tasks make them (the atomic add puts the calls of the workers in an
    order); each answer is kept with the value that [mockLockTs] had when the
    call was made. *)
Fixpoint getLockTs_calls (fuel : nat) (ctx : Context) (n : nat) : M W (list (Z * Z)) :=
  match n with
  | O => ret []
  | S n' =>
      c <- getc ;;
      '(ts, _) <- getLockTs fuel ctx ;;
      rest <- getLockTs_calls fuel ctx n' ;;
      ret ((mockLockTs c, ts) :: rest)
  end.

End Client.

(** * A small cluster to run the client on

    One PD clock, a list of regions, a list of locks; scripts give the answers
    that are not the usual ones. *)
Module Sim.

Definition byte_of_Z (z : Z) : byte :=
  match Byte.of_N (Z.to_N (z mod 256)) with
  | Some b => b
  | None => x00
  end.

(** The 8 bytes of a 64-bit word, high byte first. *)
Definition be64 (z : Z) : list byte :=
  map (fun i => byte_of_Z (Z.shiftr z (8 * i))) [7; 6; 5; 4; 3; 2; 1; 0].

(** Row keys as tablecodec makes them: the letter t, the table, the letters _r,
    the handle; integers with the sign bit flipped so that they sort. *)
Definition encode_row_key (tableID handle : Z) : Key :=
  [x74] ++ be64 ((tableID + 2 ^ 63) mod 2 ^ 64) ++ [x5f; x72]
        ++ be64 ((handle + 2 ^ 63) mod 2 ^ 64).

Definition compose_ts (physical logical : Z) : Z :=
  (Z.shiftl physical 18 + logical) mod 2 ^ 64.

(** [bytes.Compare] *)
Fixpoint bytes_compare (a b : list byte) : comparison :=
  match a, b with
  | [], [] => Eq
  | [], _ :: _ => Lt
  | _ :: _, [] => Gt
  | x :: a', y :: b' =>
      match N.compare (Byte.to_N x) (Byte.to_N y) with
      | Eq => bytes_compare a' b'
      | c => c
      end
  end.

Definition leb_key (a b : Key) : bool :=
  match bytes_compare a b with Gt => false | _ => true end.

Definition ltb_key (a b : Key) : bool :=
  match bytes_compare a b with Lt => true | _ => false end.

Definition eqb_key (a b : Key) : bool :=
  match bytes_compare a b with Eq => true | _ => false end.

(** The key range of a region; an empty end key is the end of the key space. *)
Definition contains (loc : KeyLocation) (key : Key) : bool :=
  leb_key (StartKey loc) key && (ltb_key key (EndKey loc) || (len (EndKey loc) =? 0)).

Record World : Type := mkWorld {
  clock : Z;
  ts_script : list (Z * Z * option error);
  backoff_left : nat;
  regions : list KeyLocation;
  locks : list LockInfo;
  prewrite_script : list (Response PrewriteResponse + error);
  gc_script : list ((bool * option error) + error);
  gc_resolves : bool;
  gc_physical : bool;
  select_script : list bool;
  rounds : nat
}.

Definition get_ts (ctx : Context) (w : World) : World * (Z * Z * option error) :=
  match ts_script w with
  | a :: rest =>
      (mkWorld (clock w) rest (backoff_left w) (regions w) (locks w) (prewrite_script w)
               (gc_script w) (gc_resolves w) (gc_physical w) (select_script w) (rounds w), a)
  | [] =>
      (mkWorld (clock w + 1) [] (backoff_left w) (regions w) (locks w) (prewrite_script w)
               (gc_script w) (gc_resolves w) (gc_physical w) (select_script w) (rounds w),
       (clock w + 1, 0, None))
  end.

Definition backoff (typ : backoffType) (err : error) (w : World) : World * option error :=
  match backoff_left w with
  | O => (w, Some err)
  | S n =>
      (mkWorld (clock w) (ts_script w) n (regions w) (locks w) (prewrite_script w)
               (gc_script w) (gc_resolves w) (gc_physical w) (select_script w) (rounds w), None)
  end.

Definition locate_key (key : Key) (w : World) : World * (KeyLocation + error) :=
  match find (fun loc => contains loc key) (regions w) with
  | Some loc => (w, inl loc)
  | None => (w, inr (errors_New "region unavailable"))
  end.

Definition set_locks (l : list LockInfo) (w : World) : World :=
  mkWorld (clock w) (ts_script w) (backoff_left w) (regions w) l (prewrite_script w)
          (gc_script w) (gc_resolves w) (gc_physical w) (select_script w) (rounds w).

Definition prewrite (req : PrewriteRequest) (region : RegionVerID) (w : World)
  : World * (Response PrewriteResponse + error) :=
  match prewrite_script w with
  | a :: rest =>
      (mkWorld (clock w) (ts_script w) (backoff_left w) (regions w) (locks w) rest
               (gc_script w) (gc_resolves w) (gc_physical w) (select_script w) (rounds w), a)
  | [] =>
      (set_locks (locks w ++ map (fun m => mkLockInfo (PrimaryLock req) (StartVersion req)
                                            (mut_Key m) (LockTtl req)) (Mutations req)) w,
       inl (mkResponse (Some (mkPrewriteResp None []))))
  end.

Definition scan_lock (req : ScanLockRequest) (region : RegionVerID) (w : World)
  : World * (Response ScanLockResponse + error) :=
  let inside (l : LockInfo) :=
    existsb (fun loc => (Region loc =? region) && contains loc (li_Key l)) (regions w) in
  let found :=
    filter (fun l => (li_LockVersion l <=? sl_MaxVersion req)
                     && leb_key (sl_StartKey req) (li_Key l) && inside l) (locks w) in
  (w, inl (mkResponse (Some (mkScanLockResp None None
                               (firstn (Z.to_nat (sl_Limit req)) found))))).

Definition batch_resolve (ls : list Lock) (region : RegionVerID) (w : World)
  : World * (bool * option error) :=
  (set_locks (filter (fun l => negb (existsb (fun r => eqb_key (lk_Key r) (li_Key l)) ls))
                (locks w)) w,
   (true, None)).

Definition gc (safepoint : Z) (physical : bool) (w : World)
  : World * ((bool * option error) + error) :=
  match gc_script w with
  | a :: rest =>
      (mkWorld (clock w) (ts_script w) (backoff_left w) (regions w) (locks w)
               (prewrite_script w) rest (gc_resolves w) (gc_physical w) (select_script w)
               (rounds w), a)
  | [] =>
      (if gc_resolves w
       then set_locks (filter (fun l => safepoint <? li_LockVersion l) (locks w)) w
       else w,
       inl (physical && gc_physical w, None))
  end.

Definition start_done (w : World) : World * bool :=
  match rounds w with
  | O => (w, true)
  | S n =>
      (mkWorld (clock w) (ts_script w) (backoff_left w) (regions w) (locks w)
               (prewrite_script w) (gc_script w) (gc_resolves w) (gc_physical w)
               (select_script w) n, false)
  end.

Definition select_done (w : World) : World * bool :=
  match select_script w with
  | a :: rest =>
      (mkWorld (clock w) (ts_script w) (backoff_left w) (regions w) (locks w)
               (prewrite_script w) (gc_script w) (gc_resolves w) (gc_physical w) rest
               (rounds w), a)
  | [] => (w, false)
  end.

Definition env : Env World :=
  mkEnv World encode_row_key compose_ts contains get_ts (fun _ _ => false) backoff
        locate_key prewrite scan_lock batch_resolve gc start_done select_done
        (fun _ w => (w, Z.to_nat (clock w))).

(** One region for the whole key space, an empty store, a GC that works. *)
Definition world0 : World :=
  mkWorld 100 [] 0 [mkLoc 1 [] []] [] [] [] true true [] 1.

Definition client0 (green : bool) (tables : list Z) (perRegion workers : Z)
  : resolveLockClient :=
  mkClient (mkConfig green (len tables) perRegion workers true) tables 0 0 0 0.

Definition state0 (c : resolveLockClient) (w : World) : State World := mkState c w [].

End Sim.

(** * A cluster that always answers the same

    No state at all: PD gives the same timestamp, the key space is one empty
    region, the store accepts every write and has no lock to show, GC never
    takes the physical path. *)
Module Stub.

Definition env : Env unit :=
  mkEnv unit Sim.encode_row_key Sim.compose_ts Sim.contains
        (fun _ w => (w, (1, 0, None)))
        (fun _ _ => false)
        (fun _ _ w => (w, None))
        (fun _ w => (w, inl (mkLoc 1 [] [])))
        (fun _ _ w => (w, inl (mkResponse (Some (mkPrewriteResp None [])))))
        (fun _ _ w => (w, inl (mkResponse (Some (mkScanLockResp None None [])))))
        (fun _ _ w => (w, (true, None)))
        (fun _ _ w => (w, inl (false, None)))
        (fun w => (w, false))
        (fun w => (w, false))
        (fun _ w => (w, O)).

Definition state0 (c : resolveLockClient) : State unit := mkState c tt [].

End Stub.

(** * Scenarios

    The states that the theorems are tried on. *)

(** A store with one old lock and one lock that GC should have removed. *)
Definition key_a : Key := Sim.encode_row_key 1 0.

Definition key_b : Key := Sim.encode_row_key 1 1.

Definition world_two_locks : Sim.World :=
  Sim.mkWorld 100 [] 0 [mkLoc 1 [] []]
    [mkLockInfo key_a 5 key_a 30000; mkLockInfo key_b 15 key_b 30000]
    [] [] false true [] 1.

Definition state_two_locks : State Sim.World :=
  mkState (mkClient (mkConfig true 1 1 1 true) [1] 1 20 10 0) world_two_locks [].

(** A round on a cluster whose GC leaves the locks where they are. *)
Definition world_gc_off : Sim.World :=
  Sim.mkWorld 100 [] 0 [mkLoc 1 [] []] [] [] [] false true [] 1.

Definition state_gc_off : State Sim.World :=
  Sim.state0 (Sim.client0 true [1] 1 1) world_gc_off.

(** A store that answers the prewrite with a key error. *)
Definition world_conflict : Sim.World :=
  Sim.mkWorld 100 [] 0 [mkLoc 1 [] []] []
    [inl (mkResponse (Some (mkPrewriteResp None ["WriteConflict"])))]
    [] true true [] 1.

Definition state_conflict : State Sim.World :=
  Sim.state0 (Sim.client0 true [1] 1 1) world_conflict.

Definition run_conflict : Res Sim.World (Z * option error) :=
  lockBatch Sim.env 1 ctx_Background [key_a; key_b] state_conflict.

Definition client_5_3_2 : resolveLockClient :=
  mkClient (mkConfig true 5 3 2 false) [41; 42; 43; 44; 45] 0 0 0 0.

(** PD answers two requests and is gone at the third; the GC endpoint fails. *)
Definition world_pd_lost : Sim.World :=
  Sim.mkWorld 100 [(100, 0, None); (101, 0, None); (0, 0, Some io_EOF)] 0
    [mkLoc 1 [] []] [] [] [inr (errors_New "pd is unavailable")] true true [] 1.

(** The select of the dispatch loop takes the done case, then the ticker. *)
Definition world_done_then_tick : Sim.World :=
  Sim.mkWorld 100 [] 0 [mkLoc 1 [] []] [] [] [] true true [true; false] 1.

(** A key of 1 MiB. *)
Definition big_key : Key := repeat x00 (Z.to_nat maxBatchSize).

(** The small cluster with a resolver that leaves the locks where they are as
    long as the backoffer has budget. *)
Definition env_slow_resolver : Env Sim.World :=
  mkEnv Sim.World Sim.encode_row_key Sim.compose_ts Sim.contains Sim.get_ts
        (fun _ _ => false) Sim.backoff Sim.locate_key Sim.prewrite Sim.scan_lock
        (fun ls region w =>
           match Sim.backoff_left w with
           | O => Sim.batch_resolve ls region w
           | S _ => (w, (false, None))
           end)
        Sim.gc Sim.start_done Sim.select_done
        (fun _ w => (w, Z.to_nat (Sim.clock w))).

Definition world_slow_resolver : Sim.World :=
  Sim.mkWorld 100 [] 1 [mkLoc 1 [] []]
    [mkLockInfo key_a 5 key_a 30000; mkLockInfo key_b 15 key_b 30000]
    [] [] false true [] 1.

Definition state_slow_resolver : State Sim.World :=
  mkState (mkClient (mkConfig true 1 1 1 true) [1] 1 20 10 0) world_slow_resolver [].

(** The stub with the key space cut in two inside table 41: the row with
    handle 0 is in the first region, the rows from handle 1 on and all the
    tables after it are in the second. *)
Definition split_key : Key := Sim.encode_row_key 41 1.

Definition env_split_table : Env unit :=
  mkEnv unit Sim.encode_row_key Sim.compose_ts Sim.contains
        (fun _ w => (w, (1, 0, None)))
        (fun _ _ => false)
        (fun _ _ w => (w, None))
        (fun key w =>
           (w, inl (if Sim.ltb_key key split_key
                    then mkLoc 1 [] split_key
                    else mkLoc 2 split_key [])))
        (fun _ _ w => (w, inl (mkResponse (Some (mkPrewriteResp None [])))))
        (fun _ _ w => (w, inl (mkResponse (Some (mkScanLockResp None None [])))))
        (fun _ _ w => (w, (true, None)))
        (fun _ _ w => (w, inl (false, None)))
        (fun w => (w, false))
        (fun w => (w, false))
        (fun _ w => (w, O)).

(** * The vocabulary of the properties *)

Section Vocabulary.
Context {W : Type} (E : Env W).

(** A relation between the state before and the state a run stops in,
    whatever way it stops. *)
Definition stable (R : State W -> State W -> Prop) {A} (m : M W A) : Prop :=
  forall s, R s (res_state (m s)).

(** The client and the log are as before; only the world moved. *)
Definition quiet (s s' : State W) : Prop :=
  client s' = client s /\ log s' = log s.

(** The log grew by events that all satisfy [P]. *)
Definition logs (P : Event -> Prop) (s s' : State W) : Prop :=
  exists added, log s' = added ++ log s /\ Forall P added.

(** Two calls of [getLockTs], each given as the counter before the call and
    the timestamp returned: if both were made with the counter not at zero,
    the later one, [q], returned less. *)
Definition in_window_decreasing (p q : Z * Z) : Prop :=
  fst p <> 0 -> fst q <> 0 -> snd q < snd p.

(** The bytes of a batch as [lockBatch] counts them. *)
Definition batch_bytes (ms : list Mutation) : Z :=
  fold_right (fun m acc => len (mut_Key m) + len (mut_Value m) + acc) 0 ms.

(** The mutation that [lockBatch] makes for a key. *)
Definition put (key : Key) : Mutation := mkMutation key [x76].

(** What a prewrite request of [lockBatch keys] is: puts for the first [n]
    keys, all in the location of the primary key, and below the budget as long
    as the last one is left out. *)
Definition prewrite_covers (keys : list Key) (e : Event) : Prop :=
  match e with
  | EvPrewrite req loc =>
      exists n,
        (0 < n <= List.length keys)%nat /\
        Mutations req = map put (firstn n keys) /\
        PrimaryLock req = hd [] keys /\
        Forall (fun k => Contains E loc k = true) (firstn n keys) /\
        batch_bytes (removelast (Mutations req)) < maxBatchSize
  | _ => True
  end.

(** The same with the whole batch below the budget. *)
Definition prewrite_under_budget (keys : list Key) (e : Event) : Prop :=
  match e with
  | EvPrewrite req loc =>
      exists n,
        (0 < n <= List.length keys)%nat /\
        Mutations req = map put (firstn n keys) /\
        PrimaryLock req = hd [] keys /\
        Forall (fun k => Contains E loc k = true) (firstn n keys) /\
        batch_bytes (Mutations req) < maxBatchSize
  | _ => True
  end.

(** A reply of the store that carries key errors and no region error. *)
Definition reply_with_key_errors (resp : Response PrewriteResponse) : Prop :=
  exists body,
    Resp resp = Some body /\ pw_RegionError body = None /\ pw_Errors body <> [].

(** The test of [CheckData] on a lock. *)
Definition is_safe (safeLockTs : Z) (info : LockInfo) : bool :=
  li_LockVersion info <? safeLockTs.

(** The unsafe locks of a page, as the resolver call made for it shows them. *)
Definition unsafe_of (ts : Z) (e : Event) : list Lock :=
  match e with
  | EvBatchResolve _ page _ => map NewLock (filter (fun i => negb (is_safe ts i)) page)
  | _ => []
  end.

(** What the events of [CheckData] are like. *)
Definition CheckData_event (limit maxVersion ts : Z) (e : Event) : Prop :=
  match e with
  | EvScanLock req _ => sl_Limit req = limit /\ sl_MaxVersion req = maxVersion
  | EvBatchResolve _ page safeLocks => safeLocks = map NewLock (filter (is_safe ts) page)
  | EvCursor loc page key => key = CheckData_next_key loc page
  | _ => True
  end.

(** The event is not a cursor set to the empty key. *)
Definition moves_on (e : Event) : Prop :=
  match e with
  | EvCursor _ _ key => key <> []
  | _ => True
  end.

(** A run of the loop from [s] with [ul] in [unsafeLocks], stopped in any way:
    the client is as before, the new events are those of the checker, the
    cursor was set to the empty key only as the very last step of a run that
    returned a nil error, and the list returned is [ul] followed by the unsafe
    locks of all pages in the order they came. *)
Definition CheckData_post (limit maxVersion : Z) (ul : list Lock) (s : State W)
  (r : Res W (list Lock * option error)) : Prop :=
  exists added,
    log (res_state r) = added ++ log s /\
    client (res_state r) = client s /\
    Forall (CheckData_event limit maxVersion (safeLockTs (client s))) added /\
    match r with
    | Ok (ul', err) _ =>
        ul' = ul ++ flat_map (unsafe_of (safeLockTs (client s))) (rev added) /\
        match err with
        | None => exists loc page rest,
                    added = EvCursor loc page [] :: rest /\ Forall moves_on rest
        | Some _ => Forall moves_on added
        end
    | _ => Forall moves_on added
    end.

Definition no_lock : LockInfo := mkLockInfo [] 0 [] 0.

Definition scan_limits (safePoint : Z) (e : Event) : Prop :=
  match e with
  | EvScanLock req _ => sl_Limit req = 10 /\ sl_MaxVersion req = safePoint
  | EvCursor loc page key =>
      (len page <= 10 -> key = EndKey loc) /\
      (len page < 100 -> key = EndKey loc) /\
      (100 <= len page -> key = li_Key (last page no_lock))
  | _ => True
  end.

(** PD gives a timestamp on every request, never below [low]. *)
Definition pd_up (low : Z) : Prop :=
  forall ctx w, exists w' p l,
    pd_GetTS E ctx w = (w', (p, l, None)) /\ low <= ComposeTS E p l.

(** The region cache locates every key. *)
Definition regions_up : Prop :=
  forall key w, exists w' loc, LocateKey E key w = (w', inl loc).

(** Every prewrite gets a reply with a body and no region error. *)
Definition prewrite_answered : Prop :=
  forall req region w, exists w' body,
    SendReq_Prewrite E req region w = (w', inl (mkResponse (Some body))) /\
    pw_RegionError body = None.

(** The store accepts what it is sent: no reply carries key errors. *)
Definition prewrite_accepted : Prop :=
  forall req region w w' body,
    SendReq_Prewrite E req region w = (w', inl (mkResponse (Some body))) ->
    pw_Errors body = [].

(** The rows of a table are in one region. *)
Definition rows_in_one_region : Prop :=
  forall tableID h w w' loc,
    LocateKey E (EncodeRowKeyWithHandle E tableID h) w = (w', inl loc) ->
    forall h', Contains E loc (EncodeRowKeyWithHandle E tableID h') = true.

(** Row keys are short (tablecodec makes them 19 bytes long). *)
Definition short_row_keys : Prop :=
  forall tableID h, len (EncodeRowKeyWithHandle E tableID h) < 1024.

(** The store accepts every lock write. *)
Definition accepting : Prop :=
  prewrite_accepted /\ rows_in_one_region /\ short_row_keys.

(** The mock counter, if it is in use, can hand out [k] more timestamps
    without reaching zero. *)
Definition ts_left (k : Z) (c : resolveLockClient) : Prop :=
  mockLockTs c = 0 \/ k < mockLockTs c < uint64_modulus.

(** Only [mockLockTs] moved. *)
Definition same_but_mock (c c' : resolveLockClient) : Prop :=
  c' = set_mockLockTs (mockLockTs c') c.

(** Keys of one table. *)
Definition row_keys (tableID : Z) (hs : list Z) : list Key :=
  map (EncodeRowKeyWithHandle E tableID) hs.

(** The sum of the counts of the workers. *)
Definition total (running : list Z) : Z := fold_right Z.add 0 running.

(** No cancellation is seen by the dispatch loop. *)
Definition no_cancel (ctx : Context) : Prop :=
  ctx = ctx_Background \/ forall w, snd (select_ctx_Done E w) = false.

(** The context that [Start] is given is never cancelled. *)
Definition never_cancelled : Prop :=
  forall w, snd (Start_ctx_Done E w) = false.

(** The GC endpoint answers, and says that the physical path was not used. *)
Definition gc_never_physical : Prop :=
  forall safepoint physical w,
    snd (http_resolvelock E safepoint physical w) = inl (false, None).

(** The key space is one region. *)
Definition one_region : Prop :=
  forall key w w' loc, LocateKey E key w = (w', inl loc) -> EndKey loc = [].

(** A scan gives a short page, and the locks on it are older than [low]. *)
Definition scan_finds_old_locks (low : Z) : Prop :=
  forall req region w, exists w' page,
    SendReq_ScanLock E req region w
    = (w', inl (mkResponse (Some (mkScanLockResp None None page)))) /\
    len page < scanLockLimit /\
    Forall (fun l => li_LockVersion l < low) page.

(** The resolver resolves. *)
Definition resolver_up : Prop :=
  forall ls region w, snd (BatchResolveLocks E ls region w) = (true, None).

(** The locks of the pages that the checker got, and the locks it gave to the
    resolver, in a piece of the log. *)
Definition scanned_in (added : list Event) (l : LockInfo) : Prop :=
  exists loc page safe, In (EvBatchResolve loc page safe) added /\ In l page.

Definition resolved_in (added : list Event) (k : Lock) : Prop :=
  exists loc page safe, In (EvBatchResolve loc page safe) added /\ In k safe.

(** In a trace, oldest event first: a task is queued after the context was seen done. *)
Definition enqueued_after_done (tr : list Event) : Prop :=
  exists before t after, tr = before ++ EvCtxDone :: after /\ In (EvEnqueue t) after.

(** Is the event a prewrite of a batch that reaches the budget? *)
Definition over_budget (e : Event) : bool :=
  match e with
  | EvPrewrite req _ => maxBatchSize <=? batch_bytes (Mutations req)
  | _ => false
  end.

End Vocabulary.

(** * More vocabulary *)

Section FurtherVocabulary.
Context {W : Type} (E : Env W).

(** The configuration and the tables of the client are as before. *)
Definition same_setup (s s' : State W) : Prop :=
  cfg (client s') = cfg (client s) /\ tableIDs (client s') = tableIDs (client s).

(** The task that the dispatch loop makes for a table. *)
Definition task_of (c : resolveLockClient) (tableID : Z) : task :=
  mkTask tableID (handleID c) (LockPerRegion (cfg c)).

(** The dispatch loop over [tableIDs], told by what its select took at each
    table ([true] for the done case): the events, oldest first, and the queue. *)
Definition dispatch_trace (c : resolveLockClient) (taken : list bool) (tableIDs : list Z)
  : list Event :=
  map (fun dt => if fst dt : bool then EvCtxDone else EvEnqueue (task_of c (snd dt)))
      (combine taken tableIDs).

Definition dispatch_queue (c : resolveLockClient) (taken : list bool) (tableIDs : list Z)
  : list task :=
  flat_map (fun dt => if fst dt : bool then [] else [task_of c (snd dt)])
           (combine taken tableIDs).

(** The most that a list of tasks can lock. *)
Definition tasks_limit (tasks : list task) : Z :=
  fold_right (fun t acc => Z.max (t_limit t) 0 + acc) 0 tasks.

(** A put of [lock] for a row of [tableID] with a handle from [handleID] up to
    [handleID + limit], in the location [loc]. *)
Definition row_put (tableID handleID limit : Z) (loc : KeyLocation) (m : Mutation) : Prop :=
  mut_Value m = [x76] /\ Contains E loc (mut_Key m) = true /\
  exists h, handleID <= h < handleID + limit /\
            mut_Key m = EncodeRowKeyWithHandle E tableID h.

(** The events of [lockBatch keys]: timestamps of the mock counter, replies,
    and prewrites that cover a prefix of [keys], with a start version that is
    not zero and a TTL of 30000. *)
Definition lockBatch_event (keys : list Key) (e : Event) : Prop :=
  match e with
  | EvPrewrite req loc =>
      prewrite_covers E keys e /\ StartVersion req <> 0 /\ LockTtl req = 30000
  | EvMockTs _ | EvPrewriteReply _ => True
  | _ => False
  end.

(** The events of [lock tableID handleID limit]: its prewrites carry from one
    to [txnSize] puts for rows of the table in the range of handles, the first
    of which is the primary. *)
Definition lock_event (tableID handleID limit : Z) (e : Event) : Prop :=
  match e with
  | EvPrewrite req loc =>
      StartVersion req <> 0 /\ LockTtl req = 30000 /\
      0 < len (Mutations req) <= txnSize /\
      PrimaryLock req = mut_Key (hd (put []) (Mutations req)) /\
      Forall (row_put tableID handleID limit loc) (Mutations req)
  | EvMockTs _ | EvPrewriteReply _ => True
  | _ => False
  end.

(** The events of [generateLocks] for the client [c]: tasks of its tables, and
    the events of [lock] for those tasks; no scan, no resolver call, no GC. *)
Definition generateLocks_event (c : resolveLockClient) (e : Event) : Prop :=
  match e with
  | EvEnqueue t => exists tableID, In tableID (tableIDs c) /\ t = task_of c tableID
  | EvCtxDone => True
  | _ => exists tableID,
           In tableID (tableIDs c) /\
           lock_event tableID (handleID c) (LockPerRegion (cfg c)) e
  end.

(** A prewrite of the race window: its start version is below [bound] and
    not zero. *)
Definition in_window (bound : Z) (e : Event) : Prop :=
  match e with
  | EvPrewrite req _ => 0 < StartVersion req < bound
  | _ => True
  end.

(** From [s] to [st] the mock counter did not grow, and if it is still above
    zero in [st], every prewrite in between was one of the window. *)
Definition window_post (bound : Z) (s st : State W) : Prop :=
  0 <= mockLockTs (client st) <= mockLockTs (client s) /\
  exists added,
    log st = added ++ log s /\
    (0 < mockLockTs (client st) -> Forall (in_window bound) added).

Definition window (bound : Z) (s st : State W) : Prop :=
  0 <= mockLockTs (client s) <= bound -> window_post bound s st.

(** The log grew, and a mock counter at zero stayed there. *)
Definition zero_stays (s st : State W) : Prop :=
  (exists added, log st = added ++ log s) /\
  (mockLockTs (client s) = 0 -> mockLockTs (client st) = 0).

End FurtherVocabulary.

(** * Set-up and tear-down

    [SetUp], [TearDown] and what they call work on the fields of the client
    that the test itself never reads: the name of the database, the status
    address, and the handles of the database, PD and the store.  These are
    kept in the world of the run, beside the cluster outside and the calls
    made so far; [Config] and [tableIDs] are in the client as before. *)

From Stdlib Require DecimalString.

(** [strconv.Itoa], and the verb [%d] of [fmt.Sprintf]. *)
Definition Itoa (i : Z) : string :=
  DecimalString.NilZero.string_of_int (Z.to_int i).

(** The pieces of a formatted string, put together. *)
Definition Sprintf (pieces : list string) : string :=
  fold_right String.append EmptyString pieces.

(** The double quote. *)
Definition dquote : string := String (Ascii.ascii_of_nat 34) EmptyString.

(** [cluster.Node] and [cluster.ClientNode], with the fields that are read. *)
Record Node : Type := mkNode {
  node_ClusterName : string;
  node_Namespace : string
}.

Record ClientNode : Type := mkClientNode {
  cn_ClusterName : string;
  cn_Namespace : string;
  cn_IP : string;
  cn_Port : Z
}.

(** Handles of [*sql.DB], [pd.Client] and [tikv.Storage]. *)
Definition sql_DB : Type := Z.
Definition pd_Client : Type := Z.
Definition tikv_Storage : Type := Z.

(** The other fields of [resolveLockClient]; a nil handle is [None]. *)
Record Conn : Type := mkConn {
  dbName : string;
  dbStatusAddr : string;
  db : option sql_DB;
  pd : option pd_Client;
  kv : option tikv_Storage
}.

Definition set_dbStatusAddr (v : string) (c : Conn) : Conn :=
  mkConn (dbName c) v (db c) (pd c) (kv c).
Definition set_db (v : option sql_DB) (c : Conn) : Conn :=
  mkConn (dbName c) (dbStatusAddr c) v (pd c) (kv c).
Definition set_pd (v : option pd_Client) (c : Conn) : Conn :=
  mkConn (dbName c) (dbStatusAddr c) (db c) v (kv c).
Definition set_kv (v : option tikv_Storage) (c : Conn) : Conn :=
  mkConn (dbName c) (dbStatusAddr c) (db c) (pd c) v.

Definition set_tableIDs (v : list Z) (c : resolveLockClient) : resolveLockClient :=
  mkClient (cfg c) v (handleID c) (safePoint c) (safeLockTs c) (mockLockTs c).

(** A call that leaves the process, with its arguments. *)
Inductive Call : Type :=
| CallNewClient (pdAddrs : list string)
| CallDriverOpen (path : string)
| CallOpenDB (dsn : string) (maxIdleConns : Z)
| CallExec (db : sql_DB) (query : string)
| CallClose (db : sql_DB)
| CallGet (url : string).

(** What a run of the set-up works on; [calls] has the newest call first. *)
Record Rig (X : Type) : Type := mkRig {
  conn : Conn;
  outside : X;
  calls : list Call
}.
Arguments mkRig {X} _ _ _.
Arguments conn {X} _.
Arguments outside {X} _.
Arguments calls {X} _.

(** The collaborators of the set-up.  A constructor gives a handle or an
    error, never both. *)
Record SetupEnv (X : Type) : Type := mkSetupEnv {
  (* pd.NewClient(addrs, pd.SecurityOption{}) *)
  pd_NewClient : list string -> X -> X * (pd_Client + error);
  (* tikv.Driver{}.Open(path) *)
  driver_Open : string -> X -> X * (tikv_Storage + error);
  (* util.OpenDB(dsn, maxIdleConns) *)
  util_OpenDB : string -> Z -> X -> X * (sql_DB + error);
  (* db.ExecContext(ctx, query): the error *)
  db_ExecContext : sql_DB -> Context -> string -> X -> X * option error;
  (* db.Close() *)
  db_Close : sql_DB -> X -> X * option error;
  (* httputil.NewHTTPClient(http.DefaultClient).Get(url) *)
  http_Get : string -> X -> X * (list byte + error);
  (* json.Unmarshal(resp, &body) for a body with the one field id: the value
     of body.ID afterwards, and the error *)
  json_Unmarshal_id : list byte -> Z * option error
}.

Arguments pd_NewClient {X} _ _ _.
Arguments driver_Open {X} _ _ _.
Arguments util_OpenDB {X} _ _ _ _.
Arguments db_ExecContext {X} _ _ _ _ _.
Arguments db_Close {X} _ _ _.
Arguments http_Get {X} _ _ _.
Arguments json_Unmarshal_id {X} _ _.

(** [CaseCreator.Create], for a [Cfg] that is not nil: the client it makes,
    and the rest of its fields. *)
Definition Create (Cfg : Config) : resolveLockClient * Conn :=
  (mkClient (Normalize Cfg) [] 0 0 0 0,
   mkConn "resolve_lock" EmptyString None None None).

Section SetUpModel.
Context {X : Type} (D : SetupEnv X).

(** A call of a collaborator, noted in [calls]. *)
Definition outcall {A : Type} (c : Call) (f : X -> X * A) : M (Rig X) A :=
  call (fun r : Rig X =>
          let (x, a) := f (outside r) in (mkRig (conn r) x (c :: calls r), a)).

Definition get_conn : M (Rig X) Conn := ask conn.

Definition mod_conn (f : Conn -> Conn) : M (Rig X) unit :=
  call (fun r : Rig X => (mkRig (f (conn r)) (outside r) (calls r), tt)).

Definition drop_database (name : string) : string :=
  Sprintf ["DROP DATABASE IF EXISTS `"; name; "`"].

Definition create_database (name : string) : string :=
  Sprintf ["CREATE DATABASE IF NOT EXISTS `"; name; "`"].

Definition openDB (ctx : Context) (ip : string) (port : Z) : M (Rig X) (option error) :=
  let dsn := Sprintf ["root@tcp("; ip; ":"; Itoa port; ")/"] in
  r <- outcall (CallOpenDB dsn 1) (util_OpenDB D dsn 1) ;;
  match r with
  | inr err => ret (Some (errors_Trace err))
  | inl db =>
      c <- get_conn ;;
      err <- outcall (CallExec db (drop_database (dbName c)))
                     (db_ExecContext D db ctx (drop_database (dbName c))) ;;
      match err with
      | Some e => ret (Some (errors_Trace e))
      | None =>
          err <- outcall (CallExec db (create_database (dbName c)))
                         (db_ExecContext D db ctx (create_database (dbName c))) ;;
          match err with
          | Some e => ret (Some (errors_Trace e))
          | None =>
              outcall (CallClose db) (db_Close D db) ;;
              r <- outcall (CallOpenDB (String.append dsn (dbName c)) 100)
                           (util_OpenDB D (String.append dsn (dbName c)) 100) ;;
              match r with
              | inl db' => mod_conn (set_db (Some db')) ;; ret None
              | inr err => mod_conn (set_db None) ;; ret (Some (errors_Trace err))
              end
          end
      end
  end.

Definition table_name (i : Z) : string := String.append "t" (Itoa i).

Definition create_table (table : string) : string :=
  Sprintf ["create table if not exists "; table; "(id int primary key, v varchar(128))"].

Definition schema_url (c : Conn) (table : string) : string :=
  Sprintf [dbStatusAddr c; "/schema/"; dbName c; "/"; table].

(** A method call through the nil [c.db] panics. *)
Definition CreateTable (ctx : Context) (i : Z) : M (Rig X) (Z * option error) :=
  let table := table_name i in
  c <- get_conn ;;
  match db c with
  | None => panic
  | Some d =>
      err <- outcall (CallExec d (create_table table))
                     (db_ExecContext D d ctx (create_table table)) ;;
      match err with
      | Some e => ret (0, Some (errors_Trace e))
      | None =>
          let url := schema_url c table in
          r <- outcall (CallGet url) (http_Get D url) ;;
          match r with
          | inr err => ret (0, Some (errors_Trace err))
          | inl resp =>
              let '(id, err) := json_Unmarshal_id D resp in
              match err with
              | Some e => ret (0, Some (errors_Trace e))
              | None => ret (id, None)
              end
          end
      end
  end.

(** The loop of [SetUp] over the tables, with [n] iterations left. *)
Fixpoint SetUp_tables (ctx : Context) (n : nat) (i : Z) : M (Rig X) (option error) :=
  match n with
  | O => ret None
  | S n' =>
      '(id, err) <- CreateTable ctx i ;;
      match err with
      | Some e => ret (Some (errors_Trace e))
      | None =>
          modc (fun c => set_tableIDs (tableIDs c ++ [id]) c) ;;
          SetUp_tables ctx n' (i + 1)
      end
  end.

Definition disable_gc : string :=
  Sprintf ["update mysql.tidb set VARIABLE_VALUE = "; dquote; "10000h"; dquote;
           " where VARIABLE_NAME in ("; dquote; "tikv_gc_run_interval"; dquote; ", ";
           dquote; "tikv_gc_life_time"; dquote; ")"].

(** [nodes[0]] and [clientNodes[idx]] panic on an index out of range.  The
    store that the TiKV driver opens is a [tikv.Storage], so the type
    assertion on it goes through. *)
Definition SetUp (ctx : Context) (nodes : list Node) (clientNodes : list ClientNode)
  (idx : Z) : M (Rig X) (option error) :=
  if negb (idx =? 0) then ret None
  else
    c <- getc ;;
    pdAddr <- (if LocalMode (cfg c) then ret "127.0.0.1:2379"
               else match nodes with
                    | [] => panic
                    | pdNode :: _ =>
                        ret (Sprintf [node_ClusterName pdNode; "-pd.";
                                      node_Namespace pdNode; ".svc:2379"])
                    end) ;;
    r <- outcall (CallNewClient [pdAddr]) (pd_NewClient D [pdAddr]) ;;
    match r with
    | inr err => ret (Some (errors_Trace err))
    | inl pdClient =>
        mod_conn (set_pd (Some pdClient)) ;;
        let path := Sprintf ["tikv://"; pdAddr; "?disableGC=true"] in
        r <- outcall (CallDriverOpen path) (driver_Open D path) ;;
        match r with
        | inr err => ret (Some (errors_Trace err))
        | inl store =>
            mod_conn (set_kv (Some store)) ;;
            dbNode <- (if LocalMode (cfg c) then
                         let dbNode := mkClientNode EmptyString EmptyString "127.0.0.1" 4000 in
                         mod_conn (set_dbStatusAddr
                                     (Sprintf ["http://"; cn_IP dbNode; ":10080"])) ;;
                         ret dbNode
                       else match nth_error clientNodes (Z.to_nat idx) with
                            | None => panic
                            | Some dbNode =>
                                mod_conn (set_dbStatusAddr
                                            (Sprintf ["http://"; cn_ClusterName dbNode;
                                                      "-tidb."; cn_Namespace dbNode;
                                                      ".svc:10080"])) ;;
                                ret dbNode
                            end) ;;
            err <- openDB ctx (cn_IP dbNode) (cn_Port dbNode) ;;
            match err with
            | Some e => ret (Some (errors_Trace e))
            | None =>
                k <- get_conn ;;
                match db k with
                | None => panic
                | Some d =>
                    err <- outcall (CallExec d disable_gc)
                                   (db_ExecContext D d ctx disable_gc) ;;
                    match err with
                    | Some e => ret (Some (errors_Trace e))
                    | None => SetUp_tables ctx (Z.to_nat (RegionCount (cfg c))) 0
                    end
                end
            end
        end
    end.

(** The error of the first statement is dropped. *)
Definition TearDown (ctx : Context) : M (Rig X) (option error) :=
  c <- get_conn ;;
  match db c with
  | None => panic
  | Some d =>
      outcall (CallExec d (drop_database (dbName c)))
              (db_ExecContext D d ctx (drop_database (dbName c))) ;;
      outcall (CallClose d) (db_Close D d)
  end.

End SetUpModel.

(** ** A laboratory for the set-up

    Every call succeeds but the GETs after the first [gets_left]; handles and
    table identifiers are numbered as they are given out. *)
Module Lab.

Record World : Type := mkWorld {
  next : Z;
  gets_left : nat
}.

Definition fresh {A : Type} (w : World) : World * (Z + A) :=
  (mkWorld (next w + 1) (gets_left w), inl (next w)).

Definition get (url : string) (w : World) : World * (list byte + error) :=
  match gets_left w with
  | O => (w, inr (errors_New "connection refused"))
  | S n => (mkWorld (next w + 1) n, inl (Sim.be64 (next w)))
  end.

(** The eight bytes of the body, read as a number. *)
Definition unmarshal (resp : list byte) : Z * option error :=
  if len resp =? 8
  then (fold_left (fun acc b => acc * 256 + Z.of_N (Byte.to_N b)) resp 0, None)
  else (0, Some (errors_New "unexpected end of JSON input")).

Definition env : SetupEnv World :=
  mkSetupEnv World
    (fun _ => fresh) (fun _ => fresh) (fun _ _ => fresh)
    (fun _ _ _ w => (w, None)) (fun _ w => (w, None))
    get unmarshal.

(** The client that [Create] makes, in a laboratory where [gets] GETs succeed. *)
Definition state0 (Cfg : Config) (gets : nat) : State (Rig World) :=
  mkState (fst (Create Cfg)) (mkRig (snd (Create Cfg)) (mkWorld 1 gets) []) [].

End Lab.

(** ** The vocabulary of the set-up *)

(** The address of PD, the node of TiDB and the status address that [SetUp]
    works out from the mode and the nodes. *)
Definition SetUp_pdAddr (local : bool) (nodes : list Node) : string :=
  if local then "127.0.0.1:2379"
  else match nodes with
       | pdNode :: _ =>
           Sprintf [node_ClusterName pdNode; "-pd."; node_Namespace pdNode; ".svc:2379"]
       | [] => EmptyString
       end.

Definition SetUp_dbNode (local : bool) (clientNodes : list ClientNode) : ClientNode :=
  if local then mkClientNode EmptyString EmptyString "127.0.0.1" 4000
  else hd (mkClientNode EmptyString EmptyString EmptyString 0) clientNodes.

Definition SetUp_statusAddr (local : bool) (clientNodes : list ClientNode) : string :=
  if local then "http://127.0.0.1:10080"
  else Sprintf ["http://"; cn_ClusterName (SetUp_dbNode local clientNodes); "-tidb.";
                cn_Namespace (SetUp_dbNode local clientNodes); ".svc:10080"].

Definition SetUp_dsn (local : bool) (clientNodes : list ClientNode) : string :=
  Sprintf ["root@tcp("; cn_IP (SetUp_dbNode local clientNodes); ":";
           Itoa (cn_Port (SetUp_dbNode local clientNodes)); ")/"].

(** The calls that make the tables [i], [i + 1], ... ([n] of them), oldest
    first: for each table the statement, then the GET for its identifier. *)
Fixpoint tables_calls (k : Conn) (d : sql_DB) (n : nat) (i : Z) : list Call :=
  match n with
  | O => []
  | S n' =>
      CallExec d (create_table (table_name i))
      :: CallGet (schema_url k (table_name i))
      :: tables_calls k d n' (i + 1)
  end.

(** The calls of a set-up that goes through, oldest first. *)
Definition SetUp_calls (k : Conn) (pdAddr dsn : string) (d0 d1 : sql_DB) (n : nat)
  : list Call :=
  [CallNewClient [pdAddr];
   CallDriverOpen (Sprintf ["tikv://"; pdAddr; "?disableGC=true"]);
   CallOpenDB dsn 1;
   CallExec d0 (drop_database (dbName k));
   CallExec d0 (create_database (dbName k));
   CallClose d0;
   CallOpenDB (String.append dsn (dbName k)) 100;
   CallExec d1 disable_gc]
  ++ tables_calls k d1 n 0.

(** An identifier that the decoder gave for some body. *)
Definition decoded {X : Type} (D : SetupEnv X) (id : Z) : Prop :=
  exists resp, json_Unmarshal_id D resp = (id, None).

(** * Reasoning about runs *)

Arguments bind : simpl never.
Arguments ret : simpl never.
Arguments call : simpl never.
Arguments ask : simpl never.
Arguments emit : simpl never.
Arguments getc : simpl never.
Arguments modc : simpl never.
Arguments out_of_fuel : simpl never.
Arguments panic : simpl never.

Section Runs.
Context {W : Type}.

Lemma bind_Ok {A B} (m : M W A) (k : A -> M W B) (s s' : State W) (b : B) :
  bind m k s = Ok b s' -> exists a s1, m s = Ok a s1 /\ k a s1 = Ok b s'.
Proof. unfold bind. destruct (m s) as [a s1| |]; try discriminate. eauto. Qed.

Lemma bind_eq {A B} (m : M W A) (k : A -> M W B) (s s1 : State W) (a : A) :
  m s = Ok a s1 -> bind m k s = k a s1.
Proof. unfold bind. now intros ->. Qed.

Lemma ret_Ok {A} (a b : A) (s s' : State W) : ret a s = Ok b s' -> b = a /\ s' = s.
Proof. unfold ret. intros H. now injection H as <- <-. Qed.

Lemma call_Ok {A} (f : W -> W * A) (s s' : State W) (a : A) :
  call f s = Ok a s' ->
  exists w, f (world s) = (w, a) /\ s' = mkState (client s) w (log s).
Proof.
  unfold call. destruct (f (world s)) as [w a0]. intros H. injection H as <- <-. eauto.
Qed.

Lemma call_eq {A} (f : W -> W * A) (s : State W) (w : W) (a : A) :
  f (world s) = (w, a) -> call f s = Ok a (mkState (client s) w (log s)).
Proof. unfold call. now intros ->. Qed.

Lemma ask_Ok {A} (f : W -> A) (s s' : State W) (a : A) :
  ask f s = Ok a s' -> a = f (world s) /\ s' = s.
Proof. unfold ask. intros H. now injection H as <- <-. Qed.

Lemma emit_Ok (e : Event) (s s' : State W) (u : unit) :
  emit e s = Ok u s' -> s' = mkState (client s) (world s) (e :: log s).
Proof. unfold emit. intros H. now injection H as _ <-. Qed.

Lemma getc_Ok (s s' : State W) (c : resolveLockClient) :
  getc s = Ok c s' -> c = client s /\ s' = s.
Proof. unfold getc. intros H. now injection H as <- <-. Qed.

Lemma modc_Ok (f : resolveLockClient -> resolveLockClient) (s s' : State W) (u : unit) :
  modc f s = Ok u s' -> s' = mkState (f (client s)) (world s) (log s).
Proof. unfold modc. intros H. now injection H as _ <-. Qed.

Lemma bind_ret {A B} (a : A) (k : A -> M W B) (s : State W) :
  bind (ret a) k s = k a s.
Proof. reflexivity. Qed.

Lemma bind_getc {B} (k : resolveLockClient -> M W B) (s : State W) :
  bind getc k s = k (client s) s.
Proof. reflexivity. Qed.

Lemma bind_modc {B} f (k : unit -> M W B) (s : State W) :
  bind (modc f) k s = k tt (mkState (f (client s)) (world s) (log s)).
Proof. reflexivity. Qed.

Lemma bind_emit {B} e (k : unit -> M W B) (s : State W) :
  bind (emit e) k s = k tt (mkState (client s) (world s) (e :: log s)).
Proof. reflexivity. Qed.

Lemma bind_ask {A B} (f : W -> A) (k : A -> M W B) (s : State W) :
  bind (ask f) k s = k (f (world s)) s.
Proof. reflexivity. Qed.

Lemma bind_call {A B} (f : W -> W * A) (k : A -> M W B) (s : State W) :
  bind (call f) k s =
  k (snd (f (world s))) (mkState (client s) (fst (f (world s))) (log s)).
Proof. unfold bind, call. now destruct (f (world s)). Qed.

Lemma bind_call_Ok {A B} (f : W -> W * A) (k : A -> M W B) (s s' : State W) (b : B) :
  bind (call f) k s = Ok b s' ->
  exists w a, f (world s) = (w, a) /\ k a (mkState (client s) w (log s)) = Ok b s'.
Proof.
  rewrite bind_call. destruct (f (world s)) as [w a]. cbn. eauto.
Qed.

Lemma bind_assoc {A B C} (m : M W A) (k : A -> M W B) (h : B -> M W C) (s : State W) :
  bind (bind m k) h s = bind m (fun a => bind (k a) h) s.
Proof. unfold bind. now destruct (m s). Qed.

Section Stable.
Variable R : State W -> State W -> Prop.
Hypothesis R_refl : forall s, R s s.
Hypothesis R_trans : forall a b c, R a b -> R b c -> R a c.

Lemma stable_ret {A} (a : A) : stable R (ret a).
Proof. intros s. apply R_refl. Qed.

Lemma stable_out_of_fuel {A} : stable R (@out_of_fuel W A).
Proof. intros s. apply R_refl. Qed.

Lemma stable_panic {A} : stable R (@panic W A).
Proof. intros s. apply R_refl. Qed.

Lemma stable_getc : stable R getc.
Proof. intros s. apply R_refl. Qed.

Lemma stable_ask {A} (f : W -> A) : stable R (ask f).
Proof. intros s. apply R_refl. Qed.

Lemma stable_bind {A B} (m : M W A) (k : A -> M W B) :
  stable R m -> (forall a, stable R (k a)) -> stable R (bind m k).
Proof.
  intros Hm Hk s. unfold bind. specialize (Hm s).
  destruct (m s) as [a s1| |]; cbn in *; try assumption.
  eapply R_trans; [exact Hm | apply Hk].
Qed.

End Stable.

Lemma stable_Ok (R : State W -> State W -> Prop) {A} (m : M W A) (s s' : State W) (a : A) :
  stable R m -> m s = Ok a s' -> R s s'.
Proof. intros H Hm. specialize (H s). now rewrite Hm in H. Qed.

Lemma quiet_refl (s : State W) : quiet s s.
Proof. now split. Qed.

Lemma quiet_trans (a b c : State W) : quiet a b -> quiet b c -> quiet a c.
Proof. unfold quiet. intros [-> ->] [-> ->]. now split. Qed.

Lemma quiet_call {A} (f : W -> W * A) : stable quiet (call f).
Proof. intros s. unfold call. destruct (f (world s)). now split. Qed.

Lemma logs_refl P (s : State W) : logs P s s.
Proof. exists []. now split. Qed.

Lemma logs_trans P (a b c : State W) : logs P a b -> logs P b c -> logs P a c.
Proof.
  intros (l1 & H1 & F1) (l2 & H2 & F2). exists (l2 ++ l1). split.
  - now rewrite H2, H1, app_assoc.
  - apply Forall_app. now split.
Qed.

Lemma logs_call P {A} (f : W -> W * A) : stable (logs P) (call f).
Proof. intros s. unfold call. destruct (f (world s)). exists []. now split. Qed.

Lemma logs_modc P f : stable (logs P) (modc f : M W unit).
Proof. intros s. exists []. now split. Qed.

Lemma logs_emit (P : Event -> Prop) e : P e -> stable (logs P) (emit e : M W unit).
Proof. intros H s. exists [e]. split; [reflexivity | now constructor]. Qed.

Lemma logs_quiet P {A} (m : M W A) : stable quiet m -> stable (logs P) m.
Proof. intros H s. destruct (H s) as [_ Hl]. exists []. now split. Qed.

Lemma logs_weaken (P Q : Event -> Prop) (s s' : State W) :
  (forall e, P e -> Q e) -> logs P s s' -> logs Q s s'.
Proof.
  intros HPQ (l & Hl & F). exists l. split; [exact Hl|].
  eapply Forall_impl; [|exact F]. exact HPQ.
Qed.

End Runs.

(** Takes a run that returned apart: [inv_run] does the steps that need no
    name, [inv_call] and [inv_bind] name what a call or a sub-run gave. *)
Ltac inv_run H :=
  cbv beta match in H;
  repeat first
    [ rewrite bind_assoc in H | rewrite bind_ret in H | rewrite bind_getc in H
    | rewrite bind_modc in H | rewrite bind_emit in H | rewrite bind_ask in H ];
  cbv beta match in H; cbn [client world log] in H;
  lazymatch type of H with
  | ret _ _ = Ok _ _ => apply ret_Ok in H; destruct H as [? ?]; subst
  | emit _ _ = Ok _ _ => apply emit_Ok in H; subst
  | getc _ = Ok _ _ => apply getc_Ok in H; destruct H as [? ?]; subst
  | modc _ _ = Ok _ _ => apply modc_Ok in H; subst
  | out_of_fuel _ = Ok _ _ => discriminate H
  | panic _ = Ok _ _ => discriminate H
  | _ => idtac
  end.

Tactic Notation "inv_call" hyp(H) "as" ident(w) ident(a) ident(Hc) :=
  apply bind_call_Ok in H; destruct H as (w & a & Hc & H);
  cbn [client world log] in Hc, H; inv_run H.

Tactic Notation "inv_bind" hyp(H) "as" ident(a) ident(s) ident(H1) :=
  apply bind_Ok in H; destruct H as (a & s & H1 & H);
  cbn [client world log] in H1, H; inv_run H.

(** Runs the steps at the head of a run that need no case analysis. *)
Ltac run_head :=
  repeat first
    [ rewrite bind_assoc | rewrite bind_ret | rewrite bind_getc | rewrite bind_modc
    | rewrite bind_emit | rewrite bind_ask ];
  cbv beta.

(** Runs a call at the head of the run in the goal, naming its answer. *)
Tactic Notation "run_call" "as" ident(w) simple_intropattern(a) ident(Hc) :=
  rewrite bind_call; cbn [client world log];
  match goal with
  | |- context [fst ?t] => destruct t as [w a] eqn:Hc
  end;
  cbn [fst snd]; run_head; cbn [client world log].

(** The same with the answer known. *)
Ltac run_call_with H :=
  rewrite bind_call; cbn [client world log]; rewrite H;
  cbn [fst snd]; run_head; cbn [client world log].

(** Splits the goal [stable R m] along [m]. *)
Ltac stable_split refl trans :=
  repeat lazymatch goal with
  | |- stable _ (bind _ _) => apply (stable_bind _ trans); [|intros ?]
  | |- stable _ (ret _) => apply (stable_ret _ refl)
  | |- stable _ out_of_fuel => apply (stable_out_of_fuel _ refl)
  | |- stable _ panic => apply (stable_panic _ refl)
  | |- stable _ getc => apply (stable_getc _ refl)
  | |- stable _ (ask _) => apply (stable_ask _ refl)
  | |- stable _ (match ?x with _ => _ end) => destruct x eqn:?
  | |- stable _ (let (_, _) := ?x in _) => destruct x eqn:?
  end.

(** * Properties *)

Section Timestamps.
Context {W : Type} (E : Env W).

Lemma uint64_not_0 : uint64_not 0 = uint64_modulus - 1.
Proof. reflexivity. Qed.

Lemma atomic_decrement (x : Z) :
  0 < x < uint64_modulus -> atomic_AddUint64 x (uint64_not 0) = x - 1.
Proof.
  intros Hx. unfold atomic_AddUint64. rewrite uint64_not_0.
  replace (x + (uint64_modulus - 1)) with (x - 1 + 1 * uint64_modulus) by ring.
  rewrite Z.mod_add by (unfold uint64_modulus; lia).
  apply Z.mod_small. lia.
Qed.

Lemma getTs_quiet (fuel : nat) (ctx : Context) : stable quiet (getTs E fuel ctx).
Proof.
  induction fuel as [|fuel IH]; cbn [getTs];
    stable_split (@quiet_refl W) (@quiet_trans W);
    try apply quiet_call; try exact IH.
Qed.

Lemma getTs_client (fuel : nat) (ctx : Context) (s s' : State W) r :
  getTs E fuel ctx s = Ok r s' -> client s' = client s /\ log s' = log s.
Proof. apply (stable_Ok quiet), getTs_quiet. Qed.

(** One call inside the window. *)
Lemma getLockTs_mock (fuel : nat) (ctx : Context) (s : State W) :
  0 < mockLockTs (client s) < uint64_modulus ->
  getLockTs E fuel ctx s =
    Ok (mockLockTs (client s) - 1, None)
       (mkState (set_mockLockTs (mockLockTs (client s) - 1) (client s)) (world s)
                (EvMockTs (mockLockTs (client s) - 1) :: log s)).
Proof.
  intros Hm. unfold getLockTs. run_head.
  destruct (Z.eqb_spec (mockLockTs (client s)) 0) as [H0|_]; [lia|].
  rewrite atomic_decrement by assumption. now run_head.
Qed.

(** Outside of it the counter stays at zero. *)
Lemma getLockTs_real (fuel : nat) (ctx : Context) (s s' : State W) r :
  mockLockTs (client s) = 0 ->
  getLockTs E fuel ctx s = Ok r s' -> client s' = client s /\ log s' = log s.
Proof.
  intros H0 H. unfold getLockTs in H. inv_run H. rewrite H0 in H. cbn in H.
  now apply getTs_client in H.
Qed.

Lemma getLockTs_calls_window (fuel : nat) (ctx : Context) (n : nat) :
  forall (s s' : State W) r,
    0 <= mockLockTs (client s) < uint64_modulus ->
    getLockTs_calls E fuel ctx n s = Ok r s' ->
    Forall (fun p => fst p <> 0 -> 0 <= snd p < mockLockTs (client s)) r /\
    ForallOrdPairs in_window_decreasing r.
Proof.
  induction n as [|n IH]; intros s s' r Hm H; cbn [getLockTs_calls] in H.
  - inv_run H. split; constructor.
  - inv_run H.
    destruct (Z.eq_dec (mockLockTs (client s)) 0) as [H0|Hn].
    + inv_bind H as a s0 Hg. destruct a as [ts e].
      inv_bind H as rest s1 Hr.
      apply getLockTs_real in Hg; [|assumption]. destruct Hg as [Hc _].
      apply IH in Hr; [|rewrite Hc; assumption]. destruct Hr as [Hall Hord].
      rewrite Hc in Hall. split.
      * constructor; [cbn; lia | exact Hall].
      * constructor; [|exact Hord].
        apply Forall_forall. intros q _ Hp. cbn in Hp. lia.
    + unfold bind at 1 in H. rewrite getLockTs_mock in H by lia.
      inv_bind H as rest s1 Hr.
      apply IH in Hr; cbn [client set_mockLockTs mockLockTs] in *; [|lia].
      destruct Hr as [Hall Hord]. split.
      * constructor; [cbn; lia|].
        eapply Forall_impl; [|exact Hall]. cbn. intros q Hq Hw. specialize (Hq Hw). lia.
      * constructor; [|exact Hord].
        eapply Forall_impl; [|exact Hall]. intros q Hq _ Hw. specialize (Hq Hw). cbn. lia.
Qed.

(** Inside the window every call answers, whatever the fuel. *)
Lemma getLockTs_calls_total (fuel : nat) (ctx : Context) (n : nat) :
  forall s : State W,
    Z.of_nat n <= mockLockTs (client s) < uint64_modulus ->
    exists r s', getLockTs_calls E fuel ctx n s = Ok r s' /\
                 List.length r = n /\ Forall (fun p => fst p <> 0) r.
Proof.
  induction n as [|n IH]; intros s Hm; cbn [getLockTs_calls].
  - exists [], s. repeat split; constructor.
  - rewrite bind_getc. unfold bind at 1. rewrite getLockTs_mock by lia.
    match goal with
    | |- context [bind (getLockTs_calls E fuel ctx n) _ ?s1] =>
        destruct (IH s1) as (r & s' & Hr & Hlen & Hall);
        [cbn [client set_mockLockTs mockLockTs]; lia|];
        rewrite (bind_eq _ _ _ _ _ Hr)
    end.
    eexists _, _. split; [reflexivity|]. split; [cbn; congruence|].
    constructor; [cbn; lia | exact Hall].
Qed.

(** C2: after [asyncGenerateLocksDuringGC] has seeded the mock counter with
    [safeLockTs], every call of [getLockTs] made while the counter is not zero
    returns a timestamp strictly below [safeLockTs], and of two such calls the
    later one returns the strictly smaller timestamp; the first [safeLockTs]
    calls are all of this kind and all of them return. *)
Theorem getLockTs_race_window (fuel : nat) (ctx : Context) (ts : Z) (s : State W) :
  0 < ts < uint64_modulus ->
  (forall n r s',
      (asyncGenerateLocksDuringGC ts ;; getLockTs_calls E fuel ctx n) s = Ok r s' ->
      Forall (fun p => fst p <> 0 -> snd p < ts) r /\
      ForallOrdPairs in_window_decreasing r) /\
  (forall n, Z.of_nat n <= ts ->
      exists r s',
        (asyncGenerateLocksDuringGC ts ;; getLockTs_calls E fuel ctx n) s = Ok r s' /\
        List.length r = n /\ Forall (fun p => fst p <> 0) r).
Proof.
  intros Hts. split.
  - intros n r s' H. unfold asyncGenerateLocksDuringGC in H. inv_run H.
    apply getLockTs_calls_window in H; cbn [client set_mockLockTs mockLockTs] in *; [|lia].
    destruct H as [Hall Hord]. split; [|exact Hord].
    eapply Forall_impl; [|exact Hall]. cbn. intros q Hq Hw. specialize (Hq Hw). lia.
  - intros n Hn. unfold asyncGenerateLocksDuringGC. run_head.
    apply getLockTs_calls_total. cbn [client set_mockLockTs mockLockTs]. lia.
Qed.

End Timestamps.

(** ** Lock writer *)

Section LockWriter.
Context {W : Type} (E : Env W).

Lemma batch_bytes_cons (m : Mutation) (ms : list Mutation) :
  batch_bytes (m :: ms) = len (mut_Key m) + len (mut_Value m) + batch_bytes ms.
Proof. reflexivity. Qed.

Lemma lockBatch_mutations_prefix (loc : KeyLocation) (keys : list Key) :
  forall b, exists n,
    (n <= List.length keys)%nat /\
    lockBatch_mutations E loc keys b = map put (firstn n keys) /\
    Forall (fun k => Contains E loc k = true) (firstn n keys) /\
    (b < maxBatchSize ->
     b + batch_bytes (removelast (lockBatch_mutations E loc keys b)) < maxBatchSize).
Proof.
  induction keys as [|key keys IH]; intros b; cbn [lockBatch_mutations].
  - exists 0%nat. cbn. split; [lia|]. split; [reflexivity|]. split; [constructor | lia].
  - destruct (Contains E loc key) eqn:Hc; cbn [negb].
    + destruct (Z.geb_spec (b + len key + len [x76]) maxBatchSize) as [Hge|Hlt].
      * exists 1%nat. cbn. split; [lia|]. split; [reflexivity|].
        split; [|lia]. constructor; [exact Hc | constructor].
      * destruct (IH (b + len key + len [x76])) as (n & Hn & Hm & Hin & Hb).
        exists (S n). cbn [firstn map List.length].
        split; [lia|]. split; [now rewrite Hm|]. split; [now constructor|].
        intros _. specialize (Hb Hlt).
        destruct (lockBatch_mutations E loc keys (b + len key + len [x76])) as [|m ms] eqn:Hms.
        -- cbn. unfold len in *. cbn in *. lia.
        -- change (removelast (mkMutation key [x76] :: m :: ms))
             with (mkMutation key [x76] :: removelast (m :: ms)).
           rewrite batch_bytes_cons. cbn [mut_Key mut_Value]. lia.
    + exists 0%nat. cbn. split; [lia|]. split; [reflexivity|]. split; [constructor | lia].
Qed.

Lemma getLockTs_logs (P : Event -> Prop) (fuel : nat) (ctx : Context) :
  (forall ts, P (EvMockTs ts)) -> stable (logs P) (getLockTs E fuel ctx).
Proof.
  intros HP. unfold getLockTs.
  stable_split (@logs_refl W P) (@logs_trans W P).
  - apply logs_quiet, getTs_quiet.
  - apply logs_modc.
  - apply logs_emit, HP.
Qed.

Lemma lockBatch_loop_prewrite (fuel : nat) (ctx : Context) (keys : list Key) :
  stable (logs (prewrite_covers E keys)) (lockBatch_loop E fuel ctx keys).
Proof.
  induction fuel as [|fuel IH]; cbn [lockBatch_loop];
    stable_split (@logs_refl W (prewrite_covers E keys)) (@logs_trans W (prewrite_covers E keys));
    try apply logs_call; try exact IH;
    try (apply logs_emit; exact I).
  - apply getLockTs_logs. intros ts. exact I.
  - apply logs_emit. cbn [prewrite_covers Mutations PrimaryLock].
    match goal with
    | H : (len (lockBatch_mutations E ?loc keys 0) =? 0) = false |- _ =>
        destruct (lockBatch_mutations_prefix loc keys 0) as (n & Hn & Hm & Hin & Hb);
        apply Z.eqb_neq in H; rewrite Hm in H
    end.
    exists n. split; [|split; [exact Hm|split; [reflexivity|split; [exact Hin|]]]].
    + destruct n; [cbn in *; unfold len in *; cbn in *; lia | lia].
    + specialize (Hb ltac:(unfold maxBatchSize; lia)). lia.
Qed.

(** C8, as the code has it: every prewrite request of [lockBatch] carries puts
    for a prefix of the keys, its primary is the first key, all keys of it are
    in the location found for the primary, and the bytes of the batch without
    its last mutation are below 1 MiB.  This holds for runs that return and for
    those that do not. *)
Theorem lockBatch_prewrite_prefix (fuel : nat) (ctx : Context) (keys : list Key) :
  stable (logs (prewrite_covers E keys)) (lockBatch E fuel ctx keys).
Proof.
  unfold lockBatch. destruct (len keys =? 0).
  - apply stable_ret, logs_refl.
  - apply lockBatch_loop_prewrite.
Qed.

Lemma getLockTs_log (fuel : nat) (ctx : Context) (s s' : State W) r :
  getLockTs E fuel ctx s = Ok r s' ->
  client s' = set_mockLockTs (mockLockTs (client s')) (client s) /\
  (log s' = log s \/ exists ts, log s' = EvMockTs ts :: log s).
Proof.
  unfold getLockTs. intros H. inv_run H.
  destruct (mockLockTs (client s) =? 0).
  - apply getTs_client in H. destruct H as [-> ->]. split; [|now left].
    now destruct (client s).
  - inv_run H. cbn. split; [reflexivity|]. right. eauto.
Qed.

(** How a run of the loop of [lockBatch] that returned ended: with nothing
    new in the log, or with a last event [e], and if that is a reply of the
    store that carries key errors then the result is zero locked keys and no
    error. *)
Lemma lockBatch_loop_last (fuel : nat) (ctx : Context) (keys : list Key) :
  forall (s s' : State W) r,
    lockBatch_loop E fuel ctx keys s = Ok r s' ->
    log s' = log s \/
    exists e rest,
      log s' = e :: rest /\ (List.length (log s) <= List.length rest)%nat /\
      (forall resp, e = EvPrewriteReply resp -> reply_with_key_errors resp -> r = (0, None)).
Proof.
  induction fuel as [|fuel IH]; intros s s' r H; cbn [lockBatch_loop] in H;
    [discriminate|].
  inv_call H as w1 r1 Hloc. destruct r1 as [loc|e0]; [|inv_run H; now left].
  inv_bind H as r2 s2 Hts. destruct r2 as [startTs oe].
  apply getLockTs_log in Hts. cbn [log client] in Hts. destruct Hts as [_ Hs2].
  assert (Hlen : (List.length (log s) <= List.length (log s2))%nat).
  { destruct Hs2 as [->|[ts ->]]; cbn; lia. }
  assert (Hearly : log s2 = log s \/
            exists e rest, log s2 = e :: rest /\
              (List.length (log s) <= List.length rest)%nat /\
              (forall resp, e = EvPrewriteReply resp ->
                            reply_with_key_errors resp -> r = (0, None))).
  { destruct Hs2 as [->|[ts ->]]; [now left|]. right. exists (EvMockTs ts), (log s).
    split; [reflexivity|]. split; [lia | discriminate]. }
  destruct oe as [e1|]; [inv_run H; exact Hearly|].
  destruct (startTs =? 0); [inv_run H; exact Hearly|].
  destruct (len (lockBatch_mutations E loc keys 0) =? 0); [inv_run H; exact Hearly|].
  clear Hearly Hs2. inv_run H.
  inv_call H as w3 r3 Hsend. cbn [client world log] in *.
  destruct r3 as [resp|e2].
  2:{ inv_run H. right. eexists _, _. cbn. split; [reflexivity|].
    split; [cbn [List.length]; lia | discriminate]. }
  inv_run H. unfold GetRegionError in H.
  destruct (Resp resp) as [body|] eqn:Hresp.
  - destruct (pw_RegionError body) as [re|] eqn:Hre.
    + inv_call H as w4 berr Hback. destruct berr as [e3|].
      * inv_run H. right. eexists _, _. cbn. split; [reflexivity|].
        split; [cbn [List.length]; lia|]. intros resp' Heq (b & Hb & Hnone & _).
        injection Heq as <-. congruence.
      * apply IH in H. cbn in H. destruct H as [H|(e & rest & H & Hl & Hgood)].
        -- right. eexists _, _. split; [exact H|]. cbn. split; [cbn [List.length]; lia|].
           intros resp' Heq (b & Hb & Hnone & _). injection Heq as <-. congruence.
        -- right. exists e, rest. split; [exact H|]. cbn [List.length] in Hl. split; [lia | exact Hgood].
    + inv_run H. right. eexists _, _. cbn. split; [reflexivity|]. split; [cbn [List.length]; lia|].
      intros resp' Heq (b & Hb & _ & Herrs). injection Heq as <-.
      rewrite Hresp in Hb. injection Hb as <-.
      destruct (pw_Errors body); [congruence | reflexivity].
  - inv_run H. right. eexists _, _. cbn. split; [reflexivity|]. split; [cbn [List.length]; lia|].
    intros resp' Heq (b & Hb & _). injection Heq as <-. congruence.
Qed.

Lemma lockBatch_last_reply (fuel : nat) (ctx : Context) (keys : list Key)
  (s s' : State W) (n : Z) (err : option error)
  (resp : Response PrewriteResponse) (body : PrewriteResponse) (added : list Event) :
  lockBatch E fuel ctx keys s = Ok (n, err) s' ->
  log s' = EvPrewriteReply resp :: added ++ log s ->
  Resp resp = Some body ->
  pw_RegionError body = None ->
  pw_Errors body <> [] ->
  n = 0 /\ err = None.
Proof.
  intros H Hlog Hbody Hre Herrs. unfold lockBatch in H.
  destruct (len keys =? 0).
  - inv_run H. exfalso. apply (f_equal (@List.length Event)) in Hlog.
    cbn in Hlog. rewrite length_app in Hlog. lia.
  - apply lockBatch_loop_last in H. destruct H as [H|(e & rest & H & Hl & Hgood)].
    + exfalso. rewrite H in Hlog. apply (f_equal (@List.length Event)) in Hlog.
      cbn in Hlog. rewrite length_app in Hlog. lia.
    + rewrite H in Hlog. injection Hlog as -> _.
      assert (Hr : (n, err) = (0, None)).
      { apply (Hgood resp eq_refl). exists body. auto. }
      now injection Hr as -> ->.
Qed.

Lemma lockBatch_mutations_primary (loc : KeyLocation) (keys : list Key) :
  keys <> [] -> Contains E loc (hd [] keys) = true ->
  (len (lockBatch_mutations E loc keys 0) =? 0) = false.
Proof.
  intros Hne Hin. destruct keys as [|k ks]; [contradiction|].
  cbn [hd] in Hin. cbn [lockBatch_mutations]. rewrite Hin. cbn [negb].
  destruct (_ >=? maxBatchSize); unfold len; cbn [List.length]; apply Z.eqb_neq; lia.
Qed.

(** C7: [lockBatch] is called with keys, the region cache locates the first
    of them, a timestamp that is not zero is got, and the store answers the
    prewrite with a body that has no region error and carries key errors.
    Then [lockBatch] returns, and what it returns is zero locked keys and a
    nil error; the reply is the last thing it looked at.  And whatever the
    number of tries before it, any call of [lockBatch] that returned right
    after such a reply returned zero locked keys and a nil error. *)
Theorem lockBatch_key_errors (fuel : nat) (ctx : Context) (keys : list Key)
  (s s2 : State W) (w1 w3 : W) (loc : KeyLocation) (ts : Z)
  (resp : Response PrewriteResponse) (body : PrewriteResponse) :
  keys <> [] ->
  LocateKey E (hd [] keys) (world s) = (w1, inl loc) ->
  Contains E loc (hd [] keys) = true ->
  getLockTs E (S fuel) ctx (mkState (client s) w1 (log s)) = Ok (ts, None) s2 ->
  ts <> 0 ->
  SendReq_Prewrite E
    (mkPrewrite (lockBatch_mutations E loc keys 0) (hd [] keys) ts 30000)
    (Region loc) (world s2) = (w3, inl resp) ->
  Resp resp = Some body ->
  pw_RegionError body = None ->
  pw_Errors body <> [] ->
  lockBatch E (S fuel) ctx keys s
  = Ok (0, None)
       (mkState (client s2) w3
          (EvPrewriteReply resp
           :: EvPrewrite
                (mkPrewrite (lockBatch_mutations E loc keys 0) (hd [] keys) ts 30000) loc
           :: log s2)) /\
  (forall fuel' s0 s' n err resp' body' added,
      lockBatch E fuel' ctx keys s0 = Ok (n, err) s' ->
      log s' = EvPrewriteReply resp' :: added ++ log s0 ->
      Resp resp' = Some body' ->
      pw_RegionError body' = None ->
      pw_Errors body' <> [] ->
      n = 0 /\ err = None).
Proof.
  intros Hne Hloc Hin Hts Hts0 Hsend Hbody Hre Herrs. split.
  - unfold lockBatch.
    assert (Hlen : (len keys =? 0) = false).
    { destruct keys; [contradiction|]. unfold len. cbn [List.length].
      apply Z.eqb_neq. lia. }
    rewrite Hlen. cbn [lockBatch_loop].
    run_call_with Hloc.
    rewrite (bind_eq _ _ _ _ _ Hts). cbv beta match.
    apply Z.eqb_neq in Hts0. rewrite Hts0.
    rewrite (lockBatch_mutations_primary loc keys Hne Hin).
    run_head. cbn [client world log].
    run_call_with Hsend.
    unfold GetRegionError. rewrite Hbody, Hre.
    destruct (pw_Errors body) as [|e es]; [contradiction|].
    reflexivity.
  - intros fuel' s0 s' n err resp' body' added. apply lockBatch_last_reply.
Qed.

End LockWriter.

(** ** Consistency checker *)

Section Checker.
Context {W : Type} (E : Env W).

Lemma CheckData_classify_split (ts : Z) (page : list LockInfo) :
  forall safe unsafe,
    CheckData_classify ts page safe unsafe =
    (safe ++ map NewLock (filter (is_safe ts) page),
     unsafe ++ map NewLock (filter (fun i => negb (is_safe ts i)) page)).
Proof.
  induction page as [|info page IH]; intros safe unsafe; cbn [CheckData_classify filter map].
  - now rewrite !app_nil_r.
  - change (TxnID (NewLock info) <? ts) with (is_safe ts info).
    destruct (is_safe ts info); cbn [negb map];
      rewrite IH, <- app_assoc; reflexivity.
Qed.

Lemma CheckData_post_step (limit maxVersion : Z) (ul ul1 : list Lock) (s s1 : State W)
  (new : list Event) r :
  CheckData_post limit maxVersion ul1 s1 r ->
  log s1 = new ++ log s ->
  client s1 = client s ->
  Forall (CheckData_event limit maxVersion (safeLockTs (client s))) new ->
  Forall moves_on new ->
  ul1 = ul ++ flat_map (unsafe_of (safeLockTs (client s))) (rev new) ->
  CheckData_post limit maxVersion ul s r.
Proof.
  intros (added & Hl & Hcl & Hall & Hr) Hlog Hc Hev Hmv Hul.
  exists (added ++ new). rewrite Hc in *.
  split; [now rewrite Hl, Hlog, app_assoc|].
  split; [exact Hcl|].
  split; [apply Forall_app; now split|].
  destruct r as [[ul' err] s'| |]; try (apply Forall_app; now split).
  destruct Hr as [Hul' Herr]. split.
  - rewrite Hul', Hul, rev_app_distr, flat_map_app, app_assoc. reflexivity.
  - destruct err as [e|]; [apply Forall_app; now split|].
    destruct Herr as (loc & page & rest & -> & Hrest).
    exists loc, page, (rest ++ new). split; [reflexivity|].
    apply Forall_app. now split.
Qed.

Lemma CheckData_post_error (limit maxVersion : Z) (ul : list Lock) (s s1 : State W)
  (new : list Event) (e : error) :
  log s1 = new ++ log s ->
  client s1 = client s ->
  Forall (CheckData_event limit maxVersion (safeLockTs (client s))) new ->
  Forall moves_on new ->
  CheckData_post limit maxVersion ul s
    (Ok (ul ++ flat_map (unsafe_of (safeLockTs (client s))) (rev new), Some e) s1).
Proof.
  intros Hlog Hc Hev Hmv. exists new. cbn [res_state]. auto.
Qed.

Lemma len_nil_iff {A} (l : list A) : (len l =? 0) = true <-> l = [].
Proof.
  unfold len. rewrite Z.eqb_eq. destruct l; cbn; split; intros H; try reflexivity;
    try discriminate; lia.
Qed.

Lemma CheckData_loop_post (fuel : nat) :
  forall (req : ScanLockRequest) (key : Key) (ul : list Lock) (s : State W),
    CheckData_post (sl_Limit req) (sl_MaxVersion req) ul s (CheckData_loop E fuel req key ul s).
Proof.
  induction fuel as [|fuel IH]; intros req key ul s.
  { exists []. unfold CheckData_loop, out_of_fuel. cbn [res_state app].
    split; [reflexivity|]. split; [reflexivity|]. split; constructor. }
  cbn [CheckData_loop].
  run_call as w1 [loc|e1] Hloc.
  2:{ rewrite <- (app_nil_r ul) at 2.
      now apply (CheckData_post_error (sl_Limit req) (sl_MaxVersion req) ul s _ []). }
  run_call as w2 [resp|e2] Hsend.
  2:{ rewrite <- (app_nil_r ul) at 2.
      apply (CheckData_post_error (sl_Limit req) (sl_MaxVersion req) ul s _ [EvScanLock (with_StartKey req key) loc]);
        try reflexivity; repeat constructor. }
  assert (Hscan : Forall (CheckData_event (sl_Limit req) (sl_MaxVersion req) (safeLockTs (client s)))
                    [EvScanLock (with_StartKey req key) loc])
    by (repeat constructor).
  unfold GetRegionError.
  destruct (Resp resp) as [body|] eqn:Hresp.
  2:{ rewrite <- (app_nil_r ul) at 2.
      apply (CheckData_post_error (sl_Limit req) (sl_MaxVersion req) ul s _ [EvScanLock (with_StartKey req key) loc]);
        try reflexivity; try assumption; repeat constructor. }
  destruct (sl_RegionError body) as [re|].
  { run_call as w3 [e3|] Hback.
    - rewrite <- (app_nil_r ul) at 2.
      apply (CheckData_post_error (sl_Limit req) (sl_MaxVersion req) ul s _ [EvScanLock (with_StartKey req key) loc]);
        try reflexivity; try assumption; repeat constructor.
    - eapply (CheckData_post_step (sl_Limit req) (sl_MaxVersion req) ul ul s _ [EvScanLock (with_StartKey req key) loc]);
        [apply (IH (with_StartKey req key)) | reflexivity | reflexivity | assumption | repeat constructor
        | now rewrite app_nil_r]. }
  destruct (sl_Error body) as [se|].
  { rewrite <- (app_nil_r ul) at 2.
    apply (CheckData_post_error (sl_Limit req) (sl_MaxVersion req) ul s _ [EvScanLock (with_StartKey req key) loc]);
      try reflexivity; try assumption; repeat constructor. }
  run_head. cbn [client world log].
  rewrite CheckData_classify_split. cbn [app]. run_head. cbn [client world log].
  set (page := sl_Locks body).
  set (ts := safeLockTs (client s)).
  set (new := [EvBatchResolve loc page (map NewLock (filter (is_safe ts) page));
               EvScanLock (with_StartKey req key) loc]).
  assert (Hnew : Forall (CheckData_event (sl_Limit req) (sl_MaxVersion req) ts) new) by (repeat constructor).
  assert (Hmv : Forall moves_on new) by (repeat constructor).
  assert (Hul : ul ++ map NewLock (filter (fun i => negb (is_safe ts i)) page)
                = ul ++ flat_map (unsafe_of ts) (rev new)).
  { cbn. now rewrite app_nil_r. }
  run_call as w3 [ok [e3|]] Hres.
  { rewrite Hul. now apply (CheckData_post_error (sl_Limit req) (sl_MaxVersion req) ul s _ new). }
  destruct ok; cbn [negb].
  - run_head. cbn [client world log].
    destruct (len (CheckData_next_key loc page) =? 0) eqn:Hkey.
    + exists (EvCursor loc page (CheckData_next_key loc page) :: new).
      cbn [res_state ret log client]. split; [reflexivity|]. split; [reflexivity|].
      split; [constructor; [reflexivity | exact Hnew]|].
      split.
      * rewrite Hul. cbn. now rewrite !app_nil_r.
      * apply len_nil_iff in Hkey. rewrite Hkey. eauto.
    + eapply (CheckData_post_step (sl_Limit req) (sl_MaxVersion req) ul _ s _
                (EvCursor loc page (CheckData_next_key loc page) :: new));
        [apply (IH (with_StartKey req key)) | reflexivity | reflexivity | constructor; [reflexivity | exact Hnew]
        | constructor; [|exact Hmv] | ].
      * cbn. intros Hk. apply len_nil_iff in Hk. congruence.
      * rewrite Hul. cbn. now rewrite !app_nil_r.
  - run_call as w4 [e4|] Hback.
    + rewrite Hul. now apply (CheckData_post_error (sl_Limit req) (sl_MaxVersion req) ul s _ new).
    + eapply (CheckData_post_step (sl_Limit req) (sl_MaxVersion req) ul _ s _ new);
        [apply (IH (with_StartKey req key)) | reflexivity | reflexivity | exact Hnew | exact Hmv | exact Hul].
Qed.

Lemma CheckData_run (fuel : nat) (s : State W) :
  CheckData_post 10 (safePoint (client s)) [] s (CheckData E fuel s).
Proof.
  unfold CheckData. rewrite bind_getc.
  apply (CheckData_loop_post fuel (mkScanLock 10 (safePoint (client s)) [])).
Qed.

Lemma nth_pred_length {A} (l : list A) (d : A) :
  nth (List.length l - 1) l d = last l d.
Proof.
  induction l as [|x l IH]; [reflexivity|].
  destruct l as [|y l]; [reflexivity|].
  cbn [List.length last] in *. rewrite <- IH.
  replace (S (S (List.length l)) - 1)%nat with (S (S (List.length l) - 1)) by lia.
  reflexivity.
Qed.

Lemma last_lock_key_last (page : list LockInfo) :
  last_lock_key page = li_Key (last page no_lock).
Proof.
  unfold last_lock_key, len.
  replace (Z.to_nat (Z.of_nat (List.length page) - 1)) with (List.length page - 1)%nat by lia.
  now rewrite nth_pred_length.
Qed.

(** The cursor rule in words: the end key of the region after a page of fewer
    than 100 locks, the key of the last lock of the page otherwise. *)
Lemma CheckData_next_key_cases (loc : KeyLocation) (page : list LockInfo) :
  (len page < 100 -> CheckData_next_key loc page = EndKey loc) /\
  (100 <= len page -> CheckData_next_key loc page = li_Key (last page no_lock)).
Proof.
  unfold CheckData_next_key, scanLockLimit. rewrite last_lock_key_last.
  destruct (Z.ltb_spec (len page) 100); split; intros; try reflexivity; lia.
Qed.

(** *** The scan requests and the short-page test *)

(** C10: every scan-lock request of [CheckData] asks for at most 10 locks (up
    to the safe point), while the cursor is computed by comparing the size of
    the page with 100: after a page of at most 10 locks, and after any page of
    fewer than 100, the cursor is the end key of the region; the key of the
    last lock is taken only for a page of 100 locks or more. *)
Theorem CheckData_limit_mismatch (fuel : nat) (s : State W) :
  logs (scan_limits (safePoint (client s))) s (res_state (CheckData E fuel s)).
Proof.
  destruct (CheckData_run fuel s) as (added & Hlog & _ & Hev & _).
  exists added. split; [exact Hlog|].
  eapply Forall_impl; [|exact Hev].
  intros [] He; cbn in *; try exact I; try exact He.
  destruct (CheckData_next_key_cases loc locksInfo) as [Hshort Hfull].
  subst key. repeat split; intros; [apply Hshort; lia | now apply Hshort | now apply Hfull].
Qed.

(** *** The cursor *)

(** C3: one turn of the scan loop in which the page [page] of the region
    [loc] was received and resolved.  The cursor becomes the end key of the
    region if the page has fewer than [scanLockLimit] locks and the key of its
    last lock otherwise; the loop returns (with a nil error) if this key is
    empty and goes on from it if not.  With locks that have a key, the key is
    empty exactly after a short page of a region that has no end key.  Over a
    whole run, the cursor is empty exactly once, as the last step of a run that
    returns a nil error. *)
Theorem CheckData_cursor (fuel : nat) (req : ScanLockRequest) (key : Key)
  (ul : list Lock) (s : State W) (w1 w2 w3 : W) (loc : KeyLocation)
  (page : list LockInfo) :
  LocateKey E key (world s) = (w1, inl loc) ->
  SendReq_ScanLock E (with_StartKey req key) (Region loc) w1 =
    (w2, inl (mkResponse (Some (mkScanLockResp None None page)))) ->
  BatchResolveLocks E (map NewLock (filter (is_safe (safeLockTs (client s))) page))
    (Region loc) w2 = (w3, (true, None)) ->
  let next := if len page <? scanLockLimit then EndKey loc
              else li_Key (last page no_lock) in
  let ul' := ul ++ map NewLock (filter (fun i => negb (is_safe (safeLockTs (client s)) i)) page) in
  let s' := mkState (client s) w3
              (EvCursor loc page next
               :: EvBatchResolve loc page
                    (map NewLock (filter (is_safe (safeLockTs (client s))) page))
               :: EvScanLock (with_StartKey req key) loc :: log s) in
  (next = [] -> CheckData_loop E (S fuel) req key ul s = Ok (ul', None) s') /\
  (next <> [] ->
   CheckData_loop E (S fuel) req key ul s =
   CheckData_loop E fuel (with_StartKey req key) next ul' s') /\
  (Forall (fun l => li_Key l <> []) page ->
   (next = [] <-> len page < scanLockLimit /\ EndKey loc = [])) /\
  (forall fuel0 s0,
      match CheckData E fuel0 s0 with
      | Ok (_, None) s1 =>
          exists loc0 page0 rest,
            log s1 = EvCursor loc0 page0 [] :: rest ++ log s0 /\ Forall moves_on rest
      | r => exists added, log (res_state r) = added ++ log s0 /\ Forall moves_on added
      end).
Proof.
  intros Hloc Hsend Hres next ul' s'.
  assert (Hnext : CheckData_next_key loc page = next).
  { unfold CheckData_next_key, next. now rewrite last_lock_key_last. }
  assert (Hrun : CheckData_loop E (S fuel) req key ul s =
                 if len next =? 0 then Ok (ul', None) s'
                 else CheckData_loop E fuel (with_StartKey req key) next ul' s').
  { cbn [CheckData_loop].
    run_call_with Hloc. run_call_with Hsend.
    cbn [GetRegionError Resp sl_RegionError sl_Error sl_Locks].
    run_head. cbn [client world log].
    rewrite CheckData_classify_split. cbn [app]. run_head. cbn [client world log].
    run_call_with Hres. cbn [negb]. run_head. cbn [client world log].
    rewrite Hnext. destruct (len next =? 0); reflexivity. }
  split; [|split; [|split]].
  - intros H0. rewrite Hrun, H0. reflexivity.
  - intros Hne. rewrite Hrun.
    destruct (len next =? 0) eqn:H0; [|reflexivity].
    apply len_nil_iff in H0. contradiction.
  - intros Hkeys. unfold next.
    destruct (Z.ltb_spec (len page) scanLockLimit) as [Hlt|Hge].
    + split; [now split | now intros [_ ->]].
    + split; [|lia]. intros H0. exfalso.
      assert (Hin : In (last page no_lock) page).
      { destruct page as [|l page']; [cbn in Hge; unfold scanLockLimit in Hge; lia|].
        destruct (@exists_last _ (l :: page') ltac:(discriminate)) as (front & x & ->).
        rewrite last_last.
        apply in_or_app. right. now left. }
      rewrite Forall_forall in Hkeys. exact (Hkeys _ Hin H0).
  - intros fuel0 s0.
    destruct (CheckData_run fuel0 s0) as (added & Hlog & _ & _ & Hr).
    destruct (CheckData E fuel0 s0) as [[ul0 [e|]] s1| |]; cbn [res_state] in *.
    + destruct Hr as [_ Hr]. eauto.
    + destruct Hr as [_ (loc0 & page0 & rest & -> & Hrest)].
      exists loc0, page0, rest. split; [exact Hlog | exact Hrest].
    + eauto.
    + eauto.
Qed.

End Checker.

(** ** On a cluster that answers

    PD, the region cache and the store are up: the hypotheses hold in every
    state of the world. *)

Section Healthy.
Context {W : Type} (E : Env W).

Lemma same_but_mock_refl c : same_but_mock c c.
Proof. unfold same_but_mock. now destruct c. Qed.

Lemma same_but_mock_trans a b c :
  same_but_mock a b -> same_but_mock b c -> same_but_mock a c.
Proof. unfold same_but_mock. intros -> ->. reflexivity. Qed.

Variable low : Z.
Hypothesis low_pos : 0 < low.
Hypothesis Hpd : pd_up E low.
Hypothesis Hloc : regions_up E.
Hypothesis Hpw : prewrite_answered E.

Lemma getTs_up (fuel : nat) (ctx : Context) (s : State W) :
  exists ts w,
    getTs E (S fuel) ctx s = Ok (ts, None) (mkState (client s) w (log s)) /\ low <= ts.
Proof.
  cbn [getTs]. destruct (Hpd ctx (world s)) as (w & p & l & Hts & Hlow).
  run_call_with Hts. cbn [option_map]. eauto.
Qed.

Lemma getLockTs_up (fuel : nat) (ctx : Context) (s : State W) :
  exists ts s',
    getLockTs E (S fuel) ctx s = Ok (ts, None) s' /\
    same_but_mock (client s) (client s') /\
    (forall k, 0 <= k -> ts_left (k + 1) (client s) -> ts <> 0 /\ ts_left k (client s')).
Proof.
  unfold getLockTs. rewrite bind_getc.
  destruct (Z.eqb_spec (mockLockTs (client s)) 0) as [H0|Hn].
  - destruct (getTs_up fuel ctx s) as (ts & w & Hts & Hlow).
    exists ts, (mkState (client s) w (log s)). split; [exact Hts|].
    split; [apply same_but_mock_refl|]. intros k _ _. split; [lia | now left].
  - run_head. unfold ret. eexists _, _. split; [reflexivity|].
    cbn [client]. split; [reflexivity|].
    intros k Hk [H0|Hm]; [contradiction|].
    rewrite atomic_decrement by lia.
    split; [lia|]. right. cbn [set_mockLockTs mockLockTs]. lia.
Qed.

Lemma lockBatch_mutations_all (loc : KeyLocation) (keys : list Key) :
  forall b,
    Forall (fun k => Contains E loc k = true) keys ->
    b + batch_bytes (map put keys) < maxBatchSize ->
    lockBatch_mutations E loc keys b = map put keys.
Proof.
  induction keys as [|key keys IH]; intros b Hin Hb; [reflexivity|].
  cbn [lockBatch_mutations map]. inversion Hin as [|? ? Hk Hks]; subst.
  rewrite Hk. cbn [negb]. cbn [map] in Hb. rewrite batch_bytes_cons in Hb.
  cbn [put mut_Key mut_Value] in Hb.
  assert (Hnn : 0 <= batch_bytes (map put keys)).
  { clear. induction keys as [|k ks IHk]; [cbn; lia|].
    cbn [map]. rewrite batch_bytes_cons. unfold len in *. lia. }
  destruct (Z.geb_spec (b + len key + len [x76]) maxBatchSize) as [Hge|Hlt]; [lia|].
  fold (put key). f_equal. apply IH; [exact Hks | lia].
Qed.

Lemma batch_bytes_row_keys (tableID : Z) (hs : list Z) :
  short_row_keys E -> batch_bytes (map put (row_keys E tableID hs)) <= 1025 * len hs.
Proof.
  intros Hshort. induction hs as [|h hs IH]; [cbn; lia|].
  cbn [row_keys map]. rewrite batch_bytes_cons. cbn [put mut_Key mut_Value].
  specialize (Hshort tableID h). unfold row_keys in IH. unfold len in *.
  cbn [List.length] in *. lia.
Qed.

(** [lockBatch] on a cluster that answers: it returns, with no error; and if
    the store accepts, for up to [txnSize] keys of one table and a timestamp
    source good for one more timestamp, it has locked all the keys. *)
Lemma lockBatch_up (fuel : nat) (ctx : Context) (keys : list Key) (s : State W) :
  exists n s',
    lockBatch E (S fuel) ctx keys s = Ok (n, None) s' /\
    same_but_mock (client s) (client s') /\
    (accepting E ->
     forall tableID hs k,
       keys = row_keys E tableID hs -> len hs <= txnSize -> 0 <= k ->
       ts_left (k + 1) (client s) ->
       n = len keys /\ ts_left k (client s')).
Proof.
  unfold lockBatch. destruct (Z.eqb_spec (len keys) 0) as [H0|Hne].
  { exists 0, s. split; [reflexivity|]. split; [apply same_but_mock_refl|].
    intros _ tableID hs k _ _ Hk Hts. split; [lia|].
    destruct Hts as [Hz|Hm]; [now left | right; lia]. }
  cbn [lockBatch_loop].
  destruct (Hloc (hd [] keys) (world s)) as (w1 & loc & Hlocate).
  run_call_with Hlocate.
  destruct (getLockTs_up fuel ctx (mkState (client s) w1 (log s)))
    as (ts & s2 & Hts & Hsame & Hleft).
  rewrite (bind_eq _ _ _ _ _ Hts). cbv beta match. cbn [client] in *.
  destruct (Z.eqb_spec ts 0) as [Hts0|Htsn].
  { eexists _, _. split; [reflexivity|]. split; [exact Hsame|].
    intros _ tableID hs k _ _ Hk Hl. destruct (Hleft k Hk Hl) as [Hn _]. contradiction. }
  destruct (Z.eqb_spec (len (lockBatch_mutations E loc keys 0)) 0) as [Hm0|Hmn].
  { eexists _, _. split; [reflexivity|]. split; [exact Hsame|].
    intros (_ & Hrows & Hshort) tableID hs k -> Hlen Hk Hl. exfalso.
    rewrite lockBatch_mutations_all in Hm0.
    - unfold len in *. rewrite length_map in Hm0. lia.
    - destruct hs as [|h hs]; [now contradiction Hne|].
      apply Forall_forall. intros key Hkey. apply in_map_iff in Hkey.
      destruct Hkey as (h' & <- & _). eapply Hrows. exact Hlocate.
    - pose proof (batch_bytes_row_keys tableID hs Hshort).
      unfold maxBatchSize, txnSize in *. lia. }
  run_head. cbn [client world log].
  match goal with
  | |- context [call (SendReq_Prewrite E ?req ?r)] =>
      destruct (Hpw req r (world s2)) as (w3 & body & Hsend & Hre)
  end.
  run_call_with Hsend. cbn [GetRegionError Resp]. rewrite Hre.
  eexists _, _. split; [reflexivity|]. cbn [client]. split; [exact Hsame|].
  intros (Hacc & Hrows & Hshort) tableID hs k -> Hlen Hk Hl.
  destruct (Hleft k Hk Hl) as [_ Hl']. split; [|exact Hl'].
  rewrite (Hacc _ _ _ _ _ Hsend). cbn [negb len List.length Z.of_nat Z.eqb].
  rewrite lockBatch_mutations_all.
  - unfold len. now rewrite length_map.
  - destruct hs as [|h hs]; [now contradiction Hne|].
    apply Forall_forall. intros key Hkey. apply in_map_iff in Hkey.
    destruct Hkey as (h' & <- & _). eapply Hrows. exact Hlocate.
  - pose proof (batch_bytes_row_keys tableID hs Hshort).
    unfold maxBatchSize, txnSize in *. lia.
Qed.

Lemma ts_left_mono (a b : Z) (c : resolveLockClient) :
  b <= a -> ts_left a c -> ts_left b c.
Proof. intros Hab [H0|Hm]; [now left | right; lia]. Qed.

Lemma row_keys_snoc (tableID : Z) (hs : list Z) (h : Z) :
  row_keys E tableID hs ++ [EncodeRowKeyWithHandle E tableID h] = row_keys E tableID (hs ++ [h]).
Proof. unfold row_keys. now rewrite map_app. Qed.

Lemma len_app {A} (l l' : list A) : len (l ++ l') = len l + len l'.
Proof. unfold len. rewrite length_app. lia. Qed.

Lemma len_row_keys (tableID : Z) (hs : list Z) : len (row_keys E tableID hs) = len hs.
Proof. unfold len, row_keys. now rewrite length_map. Qed.

(** The loop of [lock] with [n] turns to go and the keys of [hs] waiting. *)
Lemma lock_loop_up (fuel : nat) (ctx : Context) (tableID handleID limit : Z) (n : nat) :
  forall (i : Z) (hs : list Z) (locked : Z) (s : State W),
  exists m s',
    lock_loop E (S fuel) ctx tableID handleID limit n i (row_keys E tableID hs) locked s
    = Ok (m, None) s' /\
    same_but_mock (client s) (client s') /\
    (accepting E ->
     len hs < txnSize -> i + Z.of_nat n = limit -> (n = 0%nat -> hs = []) ->
     forall k, 0 <= k -> ts_left (k + Z.of_nat n) (client s) ->
     m = locked + len hs + Z.of_nat n /\ ts_left k (client s')).
Proof.
  induction n as [|n IH]; intros i hs locked s.
  - exists locked, s. split; [reflexivity|]. split; [apply same_but_mock_refl|].
    intros _ _ _ Hhs k Hk Hl. rewrite (Hhs eq_refl). cbn.
    split; [lia | eapply ts_left_mono; [|exact Hl]; lia].
  - cbn [lock_loop]. rewrite row_keys_snoc.
    destruct ((len (row_keys E tableID (hs ++ [handleID + i])) >=? txnSize)
              || (i =? limit - 1)) eqn:Hflush.
    + destruct (lockBatch_up fuel ctx (row_keys E tableID (hs ++ [handleID + i])) s)
        as (n1 & s1 & Hbatch & Hsame1 & Hacc1).
      rewrite (bind_eq _ _ _ _ _ Hbatch). cbv beta match.
      destruct (IH (i + 1) [] (locked + n1) s1) as (m & s' & Hrun & Hsame & Hacc).
      change (row_keys E tableID []) with (@nil Key) in Hrun.
      exists m, s'. split; [exact Hrun|].
      split; [eapply same_but_mock_trans; eassumption|].
      intros Hok Hlen Hi _ k Hk Hl.
      destruct (Hacc1 Hok tableID (hs ++ [handleID + i]) (k + Z.of_nat n)) as [Hn1 Hl1];
        [reflexivity | rewrite len_app; unfold txnSize, len in *; cbn; cbn in Hlen; lia
        | lia | eapply ts_left_mono; [|exact Hl]; lia |].
      destruct (Hacc Hok) with (k := k) as [Hm Hl'];
        [unfold txnSize; cbn; lia | lia | reflexivity | exact Hk | exact Hl1 |].
      split; [|exact Hl'].
      rewrite Hm, Hn1, len_row_keys, len_app. cbn. lia.
    + apply orb_false_iff in Hflush. destruct Hflush as [Hsize Hlast].
      destruct (IH (i + 1) (hs ++ [handleID + i]) locked s) as (m & s' & Hrun & Hsame & Hacc).
      exists m, s'. split; [exact Hrun|]. split; [exact Hsame|].
      intros Hok Hlen Hi _ k Hk Hl.
      rewrite len_row_keys, Z.geb_leb in Hsize. apply Z.leb_gt in Hsize.
      apply Z.eqb_neq in Hlast.
      destruct (Hacc Hok) with (k := k + 1) as [Hm Hl'];
        [exact Hsize | lia | intros ->; cbn in Hi; lia | lia
        | eapply ts_left_mono; [|exact Hl]; lia |].
      split; [|eapply ts_left_mono; [|exact Hl']; lia].
      rewrite Hm, len_app. cbn. lia.
Qed.

Lemma lock_up (fuel : nat) (ctx : Context) (tableID handleID limit : Z) (s : State W) :
  exists m s',
    lock E (S fuel) ctx tableID handleID limit s = Ok (m, None) s' /\
    same_but_mock (client s) (client s') /\
    (accepting E -> 0 <= limit ->
     forall k, 0 <= k -> ts_left (k + limit) (client s) ->
     m = limit /\ ts_left k (client s')).
Proof.
  unfold lock.
  destruct (lock_loop_up fuel ctx tableID handleID limit (Z.to_nat limit) 0 [] 0 s)
    as (m & s' & Hrun & Hsame & Hacc).
  exists m, s'. split; [exact Hrun|]. split; [exact Hsame|].
  intros Hok Hlimit k Hk Hl.
  destruct (Hacc Hok) with (k := k) as [Hm Hl'];
    [unfold txnSize; cbn; lia | lia | reflexivity | exact Hk
    | rewrite Z2Nat.id by lia; exact Hl |].
  split; [|exact Hl']. rewrite Hm. cbn. lia.
Qed.

Lemma total_add_nth (running : list Z) :
  forall i d, (i < List.length running)%nat -> total (add_nth i d running) = total running + d.
Proof.
  induction running as [|x running IH]; intros i d Hi; [cbn in Hi; lia|].
  destruct i as [|i]; cbn [add_nth total fold_right].
  - lia.
  - fold (total (add_nth i d running)). fold (total running).
    rewrite IH by (cbn in Hi; lia). lia.
Qed.

Lemma length_add_nth (running : list Z) :
  forall i d, List.length (add_nth i d running) = List.length running.
Proof.
  induction running as [|x running IH]; intros i d; [reflexivity|].
  destruct i; cbn [add_nth List.length]; [reflexivity | now rewrite IH].
Qed.

(** The workers on a cluster that answers: no worker leaves with an error. *)
Lemma generateLocks_workers_up (fuel : nat) (ctx : Context) (tasks : list task) :
  forall (running : list Z) (first : option error) (s : State W),
  exists running' s',
    generateLocks_workers E (S fuel) ctx tasks running first s = Ok (running', first) s' /\
    same_but_mock (client s) (client s') /\
    (accepting E ->
     forall limit, 0 <= limit -> Forall (fun t => t_limit t = limit) tasks ->
     running <> [] ->
     forall k, 0 <= k -> ts_left (k + len tasks * limit) (client s) ->
     total running' = total running + len tasks * limit /\ ts_left k (client s')).
Proof.
  induction tasks as [|t tasks IH]; intros running first s.
  - exists running, s. split; [reflexivity|]. split; [apply same_but_mock_refl|].
    intros _ limit _ _ _ k _ Hl. cbn in *. split; [lia|].
    eapply ts_left_mono; [|exact Hl]. lia.
  - cbn [generateLocks_workers]. destruct running as [|r0 running].
    + exists [], s. split; [reflexivity|]. split; [apply same_but_mock_refl|].
      intros _ limit _ _ Hne. contradiction.
    + run_call as w1 i Hrecv.
      destruct (lock_up fuel ctx (t_tableID t) (t_handleID t) (t_limit t)
                  (mkState (client s) w1 (log s))) as (cnt & s1 & Hlock & Hsame1 & Hacc1).
      rewrite (bind_eq _ _ _ _ _ Hlock). cbv beta match. cbn [client] in *.
      destruct (IH (add_nth (Nat.modulo i (List.length (r0 :: running))) cnt (r0 :: running))
                  first s1) as (running' & s' & Hrun & Hsame & Hacc).
      exists running', s'. split; [exact Hrun|].
      split; [eapply same_but_mock_trans; eassumption|].
      intros Hok limit Hlimit Htasks _ k Hk Hl.
      inversion Htasks as [|? ? Ht Hts]; subst.
      assert (Hlen : len (t :: tasks) = len tasks + 1) by (unfold len; cbn [List.length]; lia).
      rewrite Hlen in *.
      assert (0 <= len tasks) by (unfold len; lia).
      destruct (Hacc1 Hok Hlimit (k + len tasks * t_limit t)) as [Hcnt Hl1];
        [nia | eapply ts_left_mono; [|exact Hl]; nia |].
      destruct (Hacc Hok (t_limit t) Hlimit Hts) with (k := k) as [Htot Hl'];
        [ intros Hnil; apply (f_equal (@List.length Z)) in Hnil;
          rewrite length_add_nth in Hnil; discriminate
        | exact Hk | exact Hl1 |].
      split; [|exact Hl'].
      rewrite Htot, total_add_nth, Hcnt by (apply Nat.mod_upper_bound; discriminate).
      nia.
Qed.

Lemma generateLocks_dispatch_up (ctx : Context) (tableIDs : list Z) :
  forall s : State W,
  exists tasks s',
    generateLocks_dispatch E ctx tableIDs s = Ok tasks s' /\
    client s' = client s /\
    Forall (fun t => t_limit t = LockPerRegion (cfg (client s))) tasks /\
    (no_cancel E ctx -> len tasks = len tableIDs).
Proof.
  induction tableIDs as [|tableID rest IH]; intros s.
  - exists [], s. repeat split; constructor.
  - cbn [generateLocks_dispatch].
    assert (Hstep : forall (done : bool) w,
      exists tasks s',
        (if done
         then emit EvCtxDone ;; generateLocks_dispatch E ctx rest
         else c <- getc ;;
              emit (EvEnqueue (mkTask tableID (handleID c) (LockPerRegion (cfg c)))) ;;
              queued <- generateLocks_dispatch E ctx rest ;;
              ret (mkTask tableID (handleID c) (LockPerRegion (cfg c)) :: queued))
          (mkState (client s) w (log s)) = Ok tasks s' /\
        client s' = client s /\
        Forall (fun t => t_limit t = LockPerRegion (cfg (client s))) tasks /\
        (done = false -> no_cancel E ctx -> len tasks = len (tableID :: rest))).
    { intros [|] w; run_head; cbn [client world log].
      - match goal with
        | |- context [generateLocks_dispatch E ctx rest ?s1] =>
            destruct (IH s1) as (tasks & s' & Hrun & Hc & Hall & _)
        end.
        exists tasks, s'. split; [exact Hrun|]. split; [exact Hc|]. split; [exact Hall|].
        discriminate.
      - match goal with
        | |- context [bind (generateLocks_dispatch E ctx rest) _ ?s1] =>
            destruct (IH s1) as (tasks & s' & Hrun & Hc & Hall & Hlen)
        end.
        rewrite (bind_eq _ _ _ _ _ Hrun). unfold ret.
        eexists _, _. split; [reflexivity|]. split; [exact Hc|].
        split; [constructor; [reflexivity | exact Hall]|].
        intros _ Hno. specialize (Hlen Hno). unfold len in *. cbn [List.length]. lia. }
    destruct ctx.
    + run_call as w1 done Hsel. destruct (Hstep done w1) as (tasks & s' & Hrun & Hrest).
      exists tasks, s'. split; [exact Hrun|].
      destruct Hrest as (Hc & Hall & Hlen). split; [exact Hc|]. split; [exact Hall|].
      intros Hno. apply Hlen; [|exact Hno].
      destruct Hno as [Hbg|Hsel']; [discriminate|].
      specialize (Hsel' (world s)). now rewrite Hsel in Hsel'.
    + rewrite bind_ret. destruct (Hstep false (world s)) as (tasks & s' & Hrun & Hrest).
      exists tasks, s'. destruct s as [c w l]. cbn [client world log] in *.
      split; [exact Hrun|].
      destruct Hrest as (Hc & Hall & Hlen). split; [exact Hc|]. split; [exact Hall|].
      intros Hno. now apply Hlen.
    + run_call as w1 done Hsel. destruct (Hstep done w1) as (tasks & s' & Hrun & Hrest).
      exists tasks, s'. split; [exact Hrun|].
      destruct Hrest as (Hc & Hall & Hlen). split; [exact Hc|]. split; [exact Hall|].
      intros Hno. apply Hlen; [|exact Hno].
      destruct Hno as [Hbg|Hsel']; [discriminate|].
      specialize (Hsel' (world s)). now rewrite Hsel in Hsel'.
Qed.

Lemma total_repeat_0 (n : nat) : total (repeat 0 n) = 0.
Proof. induction n as [|n IH]; [reflexivity|]. cbn [repeat total fold_right]. exact IH. Qed.

(** [generateLocks] on a cluster that answers returns a count and no error;
    if the store accepts, the dispatch is not cancelled and there is a worker,
    the count is the number of tables times the locks per table. *)
Lemma generateLocks_up (fuel : nat) (ctx : Context) (s : State W) :
  0 <= Worker (cfg (client s)) ->
  exists n s',
    generateLocks E (S fuel) ctx s = Ok (n, None) s' /\
    same_but_mock (client s) (client s') /\
    (accepting E -> no_cancel E ctx ->
     1 <= Worker (cfg (client s)) -> 0 <= LockPerRegion (cfg (client s)) ->
     forall k, 0 <= k ->
       ts_left (k + len (tableIDs (client s)) * LockPerRegion (cfg (client s))) (client s) ->
       n = len (tableIDs (client s)) * LockPerRegion (cfg (client s)) /\
       ts_left k (client s')).
Proof.
  intros Hw. unfold generateLocks. rewrite bind_getc.
  destruct (Z.ltb_spec (Worker (cfg (client s))) 0) as [Hneg|_]; [lia|].
  destruct (generateLocks_dispatch_up ctx (tableIDs (client s)) s)
    as (tasks & s1 & Hdisp & Hc1 & Hall & Hlen).
  rewrite (bind_eq _ _ _ _ _ Hdisp).
  destruct (generateLocks_workers_up fuel ctx tasks
              (repeat 0 (Z.to_nat (Worker (cfg (client s))))) None s1)
    as (running & s' & Hrun & Hsame & Hacc).
  rewrite (bind_eq _ _ _ _ _ Hrun). cbv beta match.
  eexists _, _. split; [reflexivity|].
  rewrite Hc1 in *. split; [exact Hsame|].
  intros Hok Hno Hw1 Hlpr k Hk Hl.
  specialize (Hlen Hno).
  destruct (Hacc Hok _ Hlpr Hall) with (k := k) as [Htot Hl'].
  - destruct (Z.to_nat (Worker (cfg (client s)))) eqn:Hn; [lia | discriminate].
  - exact Hk.
  - now rewrite Hlen.
  - split; [|exact Hl'].
    fold (total running). now rewrite Htot, total_repeat_0, Hlen.
Qed.

End Healthy.

(** ** Rounds in which nothing goes wrong *)

Section QuietRounds.
Context {W : Type} (E : Env W).

Variable low : Z.
Hypothesis low_pos : 0 < low.
Hypothesis Hpd : pd_up E low.
Hypothesis Hloc : regions_up E.
Hypothesis Hpw : prewrite_answered E.
Hypothesis Hctx : never_cancelled E.
Hypothesis Hgc : gc_never_physical E.
Hypothesis Hone : one_region E.
Hypothesis Hscan : scan_finds_old_locks E low.
Hypothesis Hres : resolver_up E.

Lemma filter_none {A} (f : A -> bool) (l : list A) :
  Forall (fun x => f x = false) l -> filter f l = [].
Proof.
  induction 1 as [|x l Hx _ IH]; [reflexivity|]. cbn [filter]. now rewrite Hx.
Qed.

Lemma CheckData_clean (fuel : nat) (s : State W) :
  low <= safeLockTs (client s) ->
  exists s', CheckData E (S fuel) s = Ok ([], None) s' /\ client s' = client s.
Proof.
  intros Hlow. unfold CheckData. rewrite bind_getc. cbn [CheckData_loop].
  destruct (Hloc [] (world s)) as (w1 & loc & Hlocate).
  run_call_with Hlocate.
  match goal with
  | |- context [call (SendReq_ScanLock E ?req ?r)] =>
      destruct (Hscan req r w1) as (w2 & page & Hsend & Hshort & Hold)
  end.
  run_call_with Hsend. cbn [GetRegionError Resp sl_RegionError sl_Error sl_Locks].
  run_head. cbn [client world log].
  rewrite CheckData_classify_split. cbn [app]. run_head. cbn [client world log].
  match goal with
  | |- context [call (BatchResolveLocks E ?ls ?r)] =>
      pose proof (Hres ls r w2) as Hok;
      destruct (BatchResolveLocks E ls r w2) as [w3 ans] eqn:Hbatch
  end.
  cbn [snd] in Hok. subst ans. run_call_with Hbatch. cbn [negb]. run_head.
  cbn [client world log].
  unfold CheckData_next_key. apply Z.ltb_lt in Hshort. rewrite Hshort.
  rewrite (Hone _ _ _ _ Hlocate). cbn [len List.length Z.of_nat Z.eqb].
  rewrite filter_none.
  - eexists. split; reflexivity.
  - eapply Forall_impl; [|exact Hold]. intros l Hl. cbv beta in Hl. unfold is_safe.
    apply negb_false_iff, Z.ltb_lt. lia.
Qed.

Lemma same_but_mock_cfg (c c' : resolveLockClient) :
  same_but_mock c c' ->
  cfg c' = cfg c /\ tableIDs c' = tableIDs c /\ handleID c' = handleID c /\
  safePoint c' = safePoint c /\ safeLockTs c' = safeLockTs c.
Proof. unfold same_but_mock. intros ->. now cbn. Qed.

(** A round up to the check: it ends with the error of green GC when more
    than 50 rounds have passed since [lastGreenGC], and goes on to the check
    otherwise. *)
Lemma Start_before_check_up (fuel : nat) (loopNum lastGreenGC : Z) (s : State W) :
  EnableGreenGC (cfg (client s)) = true ->
  0 <= Worker (cfg (client s)) ->
  exists s',
    Start_before_check E (S fuel) loopNum lastGreenGC s
    = Ok (if loopNum - lastGreenGC >? 50 then inl (Some err_green_gc) else inr lastGreenGC) s' /\
    cfg (client s') = cfg (client s) /\ tableIDs (client s') = tableIDs (client s) /\
    low <= safeLockTs (client s').
Proof.
  intros Hgreen Hworker. unfold Start_before_check.
  pose proof (Hctx (world s)) as Hdone.
  destruct (Start_ctx_Done E (world s)) as [w0 done] eqn:Hsel. cbn [snd] in Hdone. subst done.
  run_call_with Hsel.
  destruct (getTs_up E low Hpd fuel ctx_Background (mkState (client s) w0 (log s)))
    as (ts & w1 & Hts & Hlow).
  rewrite (bind_eq _ _ _ _ _ Hts). cbv beta match. cbn [client world log].
  destruct (Z.eqb_spec ts 0) as [H0|_]; [lia|].
  destruct (generateLocks_up E low low_pos Hpd Hloc Hpw fuel ctx_Background
              (mkState (client s) w1 (log s)) Hworker) as (n & s1 & Hgen & Hsame1 & _).
  rewrite (bind_eq _ _ _ _ _ Hgen). cbv beta match. cbn [client] in Hsame1.
  apply same_but_mock_cfg in Hsame1. destruct Hsame1 as (Hcfg1 & Htab1 & _).
  unfold asyncGenerateLocksDuringGC. run_head. cbn [client world log].
  match goal with
  | |- context [bind (getTs E (S fuel) ctx_Background) _ ?s2] =>
      destruct (getTs_up E low Hpd fuel ctx_Background s2) as (sp & w2 & Hsp & _)
  end.
  rewrite (bind_eq _ _ _ _ _ Hsp). cbv beta match. run_head. cbn [client world log].
  destruct (Z.eqb_spec ts 0) as [H0|_]; [lia|].
  cbn [Start_gc_loop]. unfold resolveLocks. run_head. cbn [client world log].
  match goal with
  | |- context [call (http_resolvelock E ?p ?g)] =>
      pose proof (Hgc p g w2) as Hans;
      destruct (http_resolvelock E p g w2) as [w3 ans] eqn:Hhttp
  end.
  cbn [snd] in Hans. subst ans. run_call_with Hhttp. cbn [client world log].
  cbn [cfg set_safePoint set_mockLockTs set_safeLockTs set_handleID].
  rewrite Hcfg1, Hgreen. cbn [andb].
  destruct (loopNum - lastGreenGC >? 50).
  - eexists. split; [reflexivity|].
    cbn [client cfg tableIDs safeLockTs set_safePoint set_mockLockTs set_safeLockTs
         set_handleID].
    rewrite Hcfg1, Htab1. auto.
  - unfold asyncGenerateLocksDuringGC_go. rewrite bind_assoc.
    match goal with
    | |- context [bind (generateLocks E (S fuel) ctx_Race) _ ?s3] =>
        destruct (generateLocks_up E low low_pos Hpd Hloc Hpw fuel ctx_Race s3)
          as (n' & s4 & Hrace & Hsame4 & _);
        [cbn [client cfg set_safePoint set_mockLockTs set_safeLockTs set_handleID];
         rewrite Hcfg1; exact Hworker|]
    end.
    rewrite (bind_eq _ _ _ _ _ Hrace). run_head.
    cbn [client] in Hsame4. apply same_but_mock_cfg in Hsame4.
    destruct Hsame4 as (Hcfg4 & Htab4 & _ & _ & Hsafe4). cbn in Hcfg4, Htab4, Hsafe4.
    eexists. split; [reflexivity|].
    rewrite Hcfg4, Htab4, Hsafe4, Hcfg1, Htab1. auto.
Qed.

Lemma Start_round_up (fuel : nat) (loopNum lastGreenGC : Z) (s : State W) :
  EnableGreenGC (cfg (client s)) = true ->
  0 <= Worker (cfg (client s)) ->
  exists s',
    Start_round E (S fuel) loopNum lastGreenGC s
    = Ok (if loopNum - lastGreenGC >? 50 then Return (Some err_green_gc)
          else NextRound lastGreenGC) s' /\
    cfg (client s') = cfg (client s).
Proof.
  intros Hgreen Hworker. unfold Start_round.
  destruct (Start_before_check_up fuel loopNum lastGreenGC s Hgreen Hworker)
    as (s1 & Hpre & Hcfg & _ & Hlow).
  rewrite (bind_eq _ _ _ _ _ Hpre).
  destruct (loopNum - lastGreenGC >? 50).
  - exists s1. split; [reflexivity | exact Hcfg].
  - destruct (CheckData_clean fuel s1 Hlow) as (s2 & Hcheck & Hc2).
    rewrite (bind_eq _ _ _ _ _ Hcheck). unfold Start_after_check, reset.
    cbn [len List.length Z.of_nat Z.eqb negb]. run_head. unfold ret.
    eexists. split; [reflexivity|]. cbn. now rewrite Hc2.
Qed.

(** With [d] rounds to go before the count passes 50, the loop returns after
    exactly those, with the error of green GC. *)
Lemma Start_loop_green (fuel : nat) (d : nat) :
  forall (n : nat) (loopNum lastGreenGC : Z) (s : State W),
    EnableGreenGC (cfg (client s)) = true ->
    0 <= Worker (cfg (client s)) ->
    loopNum + Z.of_nat d = lastGreenGC + 51 ->
    (d < n)%nat ->
    exists s',
      Start_loop E (S fuel) n loopNum lastGreenGC s
      = Ok (lastGreenGC + 51, Some err_green_gc) s'.
Proof.
  induction d as [|d IH]; intros n loopNum lastGreenGC s Hgreen Hworker Hd Hn;
    (destruct n as [|n]; [lia|]); cbn [Start_loop];
    destruct (Start_round_up fuel loopNum lastGreenGC s Hgreen Hworker) as (s1 & Hround & Hcfg);
    rewrite (bind_eq _ _ _ _ _ Hround).
  - destruct (Z.gtb_spec (loopNum - lastGreenGC) 50) as [_|Hle]; [|lia].
    exists s1. unfold ret. f_equal. f_equal. lia.
  - destruct (Z.gtb_spec (loopNum - lastGreenGC) 50) as [Hgt|_]; [lia|].
    apply IH; [now rewrite Hcfg | now rewrite Hcfg | lia | lia].
Qed.

End QuietRounds.

(** With [d] rounds to go, a loop bounded to [d] rounds or fewer does not
    return: all of them go on to the next. *)
Lemma Start_loop_goes_on {W : Type} (E : Env W) (low : Z) (fuel : nat)
  (Hlow : 0 < low) (Hpd : pd_up E low) (Hloc : regions_up E) (Hpw : prewrite_answered E)
  (Hctx : never_cancelled E) (Hgc : gc_never_physical E) (Hone : one_region E)
  (Hscan : scan_finds_old_locks E low) (Hres : resolver_up E) (n : nat) :
  forall (loopNum lastGreenGC : Z) (s : State W),
    EnableGreenGC (cfg (client s)) = true ->
    0 <= Worker (cfg (client s)) ->
    loopNum + Z.of_nat n <= lastGreenGC + 51 ->
    exists s', Start_loop E (S fuel) n loopNum lastGreenGC s = OutOfFuel s'.
Proof.
  induction n as [|n IH]; intros loopNum lastGreenGC s Hgreen Hworker Hd.
  - exists s. reflexivity.
  - cbn [Start_loop].
    destruct (Start_round_up E low Hlow Hpd Hloc Hpw Hctx Hgc Hone Hscan Hres
                fuel loopNum lastGreenGC s Hgreen Hworker) as (s1 & Hround & Hcfg).
    rewrite (bind_eq _ _ _ _ _ Hround).
    destruct (Z.gtb_spec (loopNum - lastGreenGC) 50) as [Hgt|_]; [lia|].
    apply IH; [now rewrite Hcfg | now rewrite Hcfg | lia].
Qed.


(** C9, with the rows of a table in one region: 5 tables, 3 locks for each,
    2 workers; PD, the region cache and the store answer; the store accepts
    every write, which is: no reply carries key errors, the region located for
    a row holds all the rows of its table, and row keys are short; the
    dispatch loop sees no cancellation, and the mock counter, if it is in use,
    is not about to run out.  Then [generateLocks] returns 15 and a nil
    error.  Without the rows of a table in one region the count can be
    less. *)
Theorem generateLocks_5_3_2 {W : Type} (E : Env W) (fuel : nat) (ctx : Context)
  (s : State W) :
  pd_up E 1 -> regions_up E -> prewrite_answered E -> accepting E ->
  no_cancel E ctx ->
  List.length (tableIDs (client s)) = 5%nat ->
  LockPerRegion (cfg (client s)) = 3 ->
  Worker (cfg (client s)) = 2 ->
  ts_left 15 (client s) ->
  exists s', generateLocks E (S fuel) ctx s = Ok (15, None) s'.
Proof.
  intros Hpd Hloc Hpw Hacc Hno Htables Hlpr Hworkers Hts.
  destruct (generateLocks_up E 1 ltac:(lia) Hpd Hloc Hpw fuel ctx s ltac:(lia))
    as (n & s' & Hrun & _ & Hcount).
  destruct (Hcount Hacc Hno ltac:(lia) ltac:(lia) 0 ltac:(lia)) as [Hn _].
  { unfold len. rewrite Htables, Hlpr. exact Hts. }
  exists s'. rewrite Hrun. unfold len in Hn. rewrite Htables, Hlpr in Hn.
  now rewrite Hn.
Qed.

(** ** Round controller *)

Section Controller.
Context {W : Type} (E : Env W).

Lemma unsafe_of_In (ts : Z) (added : list Event) (k : Lock) :
  In k (flat_map (unsafe_of ts) (rev added)) <->
  exists l, scanned_in added l /\ ts <= li_LockVersion l /\ k = NewLock l.
Proof.
  rewrite in_flat_map. split.
  - intros (e & He & Hk). apply in_rev in He.
    destruct e; cbn in Hk; try contradiction.
    apply in_map_iff in Hk. destruct Hk as (l & <- & Hl).
    apply filter_In in Hl. destruct Hl as [Hl Hts]. unfold is_safe in Hts.
    apply negb_true_iff, Z.ltb_ge in Hts.
    exists l. split; [|split; [exact Hts | reflexivity]].
    now exists loc, locksInfo, safeLocks.
  - intros (l & (loc & page & safe & He & Hl) & Hts & ->).
    exists (EvBatchResolve loc page safe). split; [now apply in_rev in He|].
    cbn. apply in_map, filter_In. split; [exact Hl|].
    unfold is_safe. now apply negb_true_iff, Z.ltb_ge.
Qed.

Lemma Start_round_check_failed (fuel : nat) (loopNum lastGreenGC last' : Z)
  (s0 s s' : State W) (ul : list Lock) (err : option error) :
  Start_before_check E fuel loopNum lastGreenGC s0 = Ok (inr last') s ->
  CheckData E fuel s = Ok (ul, err) s' ->
  ul <> [] ->
  Start_round E fuel loopNum lastGreenGC s0 = Ok (Return (Some err_check_data)) s'.
Proof.
  intros Hpre Hcheck Hne. unfold Start_round.
  rewrite (bind_eq _ _ _ _ _ Hpre). cbv beta match.
  rewrite (bind_eq _ _ _ _ _ Hcheck). unfold Start_after_check.
  destruct ul as [|k ul]; [contradiction|]. reflexivity.
Qed.

(** C1: take the piece [added] that a run of [CheckData] adds to the log,
    whether the run returns or not, and let [ts] be [safeLockTs].  No lock
    given to [BatchResolveLocks] has a timestamp at or above [ts]; every lock
    of a page with a timestamp below [ts] is given to it, in the call made for
    that page; if the run returns, the list it returns holds every lock of
    every page with a timestamp at or above [ts], and nothing else.  And if in
    a round [CheckData] returns a list that is not empty, the loop of [Start]
    returns in that round with the error of a failed check. *)
Theorem CheckData_unsafe_locks (fuel : nat) (s : State W) :
  exists added,
    log (res_state (CheckData E fuel s)) = added ++ log s /\
    (forall k, resolved_in added k -> TxnID k < safeLockTs (client s)) /\
    (forall loc page safe l,
        In (EvBatchResolve loc page safe) added -> In l page ->
        li_LockVersion l < safeLockTs (client s) -> In (NewLock l) safe) /\
    (forall ul err s',
        CheckData E fuel s = Ok (ul, err) s' ->
        (forall l, scanned_in added l -> safeLockTs (client s) <= li_LockVersion l ->
                   In (NewLock l) ul) /\
        (forall k, In k ul -> safeLockTs (client s) <= TxnID k)) /\
    (forall n loopNum lastGreenGC last' s0 ul err s',
        Start_before_check E fuel loopNum lastGreenGC s0 = Ok (inr last') s ->
        CheckData E fuel s = Ok (ul, err) s' ->
        ul <> [] ->
        Start_loop E fuel (S n) loopNum lastGreenGC s0
        = Ok (loopNum, Some err_check_data) s').
Proof.
  destruct (CheckData_run E fuel s) as (added & Hlog & _ & Hev & Hr).
  exists added. split; [exact Hlog|].
  rewrite Forall_forall in Hev.
  split; [|split; [|split]].
  - intros k (loc & page & safe & He & Hk). specialize (Hev _ He). cbn in Hev. subst safe.
    apply in_map_iff in Hk. destruct Hk as (l & <- & Hl).
    apply filter_In in Hl. destruct Hl as [_ Hl]. unfold is_safe in Hl.
    cbn. now apply Z.ltb_lt.
  - intros loc page safe l He Hl Hts. specialize (Hev _ He). cbn in Hev. subst safe.
    apply in_map, filter_In. split; [exact Hl|]. unfold is_safe. now apply Z.ltb_lt.
  - intros ul err s' Hrun. rewrite Hrun in Hr. destruct Hr as [-> _]. cbn [app]. split.
    + intros l Hl Hts. apply unsafe_of_In. eauto.
    + intros k Hk. apply unsafe_of_In in Hk. destruct Hk as (l & _ & Hts & ->). exact Hts.
  - intros n loopNum lastGreenGC last' s0 ul err s' Hpre Hcheck Hne.
    cbn [Start_loop].
    now rewrite (bind_eq _ _ _ _ _ (Start_round_check_failed _ _ _ _ _ _ _ _ _ Hpre Hcheck Hne)).
Qed.

(** The first timestamp of a round: when [getTs] gives zero and no error, the
    round returns nil. *)
Lemma Start_round_first_ts_zero (fuel : nat) (loopNum lastGreenGC : Z)
  (s s1 : State W) (w : W) :
  Start_ctx_Done E (world s) = (w, false) ->
  getTs E fuel ctx_Background (mkState (client s) w (log s)) = Ok (0, None) s1 ->
  Start_round E fuel loopNum lastGreenGC s = Ok (Return None) s1.
Proof.
  intros Hdone Hts. unfold Start_round, Start_before_check.
  run_head. run_call_with Hdone.
  rewrite (bind_eq _ _ _ _ _ Hts). reflexivity.
Qed.

End Controller.

(** * Runs on the two clusters *)

(** ** The stub answers *)

Lemma Stub_pd_up : pd_up Stub.env 1.
Proof. intros ctx w. exists w, 1, 0. split; [reflexivity | now vm_compute]. Qed.

Lemma Stub_regions_up : regions_up Stub.env.
Proof. intros key w. now exists w, (mkLoc 1 [] []). Qed.

Lemma Stub_prewrite_answered : prewrite_answered Stub.env.
Proof. intros req region w. now exists w, (mkPrewriteResp None []). Qed.

Lemma Stub_accepting : accepting Stub.env.
Proof.
  split; [|split].
  - intros req region w w' body H. now injection H as _ <-.
  - intros tableID h w w' loc H h'. injection H as _ <-. reflexivity.
  - intros tableID h. reflexivity.
Qed.

Lemma Stub_never_cancelled : never_cancelled Stub.env.
Proof. intros w. reflexivity. Qed.

Lemma Stub_gc_never_physical : gc_never_physical Stub.env.
Proof. intros safepoint physical w. reflexivity. Qed.

Lemma Stub_one_region : one_region Stub.env.
Proof. intros key w w' loc H. now injection H as _ <-. Qed.

Lemma Stub_scan_finds_old_locks : scan_finds_old_locks Stub.env 1.
Proof.
  intros req region w. exists w, []. split; [reflexivity|].
  split; [reflexivity | constructor].
Qed.

Lemma Stub_resolver_up : resolver_up Stub.env.
Proof. intros ls region w. reflexivity. Qed.

(** ** Runs that meet the hypotheses *)

(** Three batches of the race window on the small cluster. *)
Example getLockTs_calls_sim :
  (asyncGenerateLocksDuringGC 7 ;; getLockTs_calls Sim.env 1 ctx_Race 3)
    (Sim.state0 (Sim.client0 true [1] 3 2) Sim.world0)
  = Ok [(7, 6); (6, 5); (5, 4)]
       (mkState (mkClient (mkConfig true 1 3 2 true) [1] 3 0 7 4) Sim.world0
                [EvMockTs 4; EvMockTs 5; EvMockTs 6]).
Proof. reflexivity. Qed.

Lemma getLockTs_race_window_witness :
  0 < 7 < uint64_modulus /\
  Forall (fun p => fst p <> 0 -> snd p < 7) [(7, 6); (6, 5); (5, 4)] /\
  ForallOrdPairs in_window_decreasing [(7, 6); (6, 5); (5, 4)].
Proof.
  assert (H : 0 < 7 < uint64_modulus) by (unfold uint64_modulus; lia).
  split; [exact H|].
  exact (proj1 (getLockTs_race_window Sim.env 1 ctx_Race 7
                  (Sim.state0 (Sim.client0 true [1] 3 2) Sim.world0) H)
               3%nat _ _ getLockTs_calls_sim).
Defined.

Example CheckData_two_locks :
  exists w,
    CheckData Sim.env 1 state_two_locks
    = Ok ([NewLock (mkLockInfo key_b 15 key_b 30000)], None)
         (mkState (client state_two_locks) w
            [EvCursor (mkLoc 1 [] [])
               [mkLockInfo key_a 5 key_a 30000; mkLockInfo key_b 15 key_b 30000] [];
             EvBatchResolve (mkLoc 1 [] [])
               [mkLockInfo key_a 5 key_a 30000; mkLockInfo key_b 15 key_b 30000]
               [NewLock (mkLockInfo key_a 5 key_a 30000)];
             EvScanLock (mkScanLock 10 20 []) (mkLoc 1 [] [])]).
Proof. eexists. vm_compute. reflexivity. Qed.

Lemma CheckData_unsafe_locks_witness :
  exists s', Start_loop Sim.env 1 1 0 (-1) state_gc_off = Ok (0, Some err_check_data) s'.
Proof.
  pose (s := res_state (Start_before_check Sim.env 1 0 (-1) state_gc_off)).
  pose (r := CheckData Sim.env 1 s).
  destruct (CheckData_unsafe_locks Sim.env 1 s) as (added & _ & _ & _ & _ & Hstart).
  exists (res_state r).
  apply (Hstart 0%nat 0 (-1) 0 state_gc_off
           (match r with Ok (ul, _) _ => ul | _ => [] end)
           (match r with Ok (_, err) _ => err | _ => None end)
           (res_state r)).
  - vm_compute. reflexivity.
  - vm_compute. reflexivity.
  - vm_compute. discriminate.
Defined.

Lemma CheckData_cursor_witness :
  exists s',
    CheckData_loop Sim.env 1 (mkScanLock 10 20 []) [] [] state_two_locks
    = Ok ([NewLock (mkLockInfo key_b 15 key_b 30000)], None) s'.
Proof.
  eexists.
  refine (proj1 (CheckData_cursor Sim.env 0 (mkScanLock 10 20 []) [] [] state_two_locks
                   world_two_locks world_two_locks
                   (Sim.set_locks [mkLockInfo key_b 15 key_b 30000] world_two_locks)
                   (mkLoc 1 [] [])
                   [mkLockInfo key_a 5 key_a 30000; mkLockInfo key_b 15 key_b 30000]
                   _ _ _) _).
  - reflexivity.
  - vm_compute. reflexivity.
  - vm_compute. reflexivity.
  - reflexivity.
Defined.

Lemma lockBatch_key_errors_witness :
  run_conflict
  = Ok (0, None)
       (mkState (client state_conflict)
          (Sim.mkWorld 101 [] 0 [mkLoc 1 [] []] [] [] [] true true [] 1)
          [EvPrewriteReply (mkResponse (Some (mkPrewriteResp None ["WriteConflict"])));
           EvPrewrite
             (mkPrewrite (lockBatch_mutations Sim.env (mkLoc 1 [] []) [key_a; key_b] 0)
                key_a (Sim.compose_ts 101 0) 30000)
             (mkLoc 1 [] [])]).
Proof.
  refine (proj1 (lockBatch_key_errors Sim.env 0 ctx_Background [key_a; key_b]
                   state_conflict
                   (mkState (client state_conflict)
                      (Sim.mkWorld 101 [] 0 [mkLoc 1 [] []] []
                         [inl (mkResponse (Some (mkPrewriteResp None ["WriteConflict"])))]
                         [] true true [] 1) [])
                   world_conflict
                   (Sim.mkWorld 101 [] 0 [mkLoc 1 [] []] [] [] [] true true [] 1)
                   (mkLoc 1 [] []) (Sim.compose_ts 101 0)
                   (mkResponse (Some (mkPrewriteResp None ["WriteConflict"])))
                   (mkPrewriteResp None ["WriteConflict"])
                   _ _ _ _ _ _ _ _ _)).
  - discriminate.
  - reflexivity.
  - vm_compute. reflexivity.
  - vm_compute. reflexivity.
  - vm_compute. discriminate.
  - reflexivity.
  - reflexivity.
  - reflexivity.
  - discriminate.
Defined.

Lemma generateLocks_5_3_2_witness :
  exists s', generateLocks Stub.env 1 ctx_Background (Stub.state0 client_5_3_2)
             = Ok (15, None) s'.
Proof.
  apply (generateLocks_5_3_2 Stub.env 0 ctx_Background (Stub.state0 client_5_3_2)
           Stub_pd_up Stub_regions_up Stub_prewrite_answered Stub_accepting).
  - left. reflexivity.
  - reflexivity.
  - reflexivity.
  - reflexivity.
  - left. reflexivity.
Defined.

(** The same count on the small cluster, with its store and its clock. *)
Example generateLocks_sim_15 :
  exists s',
    generateLocks Sim.env 1 ctx_Background (Sim.state0 client_5_3_2 Sim.world0)
    = Ok (15, None) s' /\
    List.length (Sim.locks (world s')) = 15%nat.
Proof. eexists. vm_compute. split; reflexivity. Qed.


(** ** Where the code goes another way *)

(** C4, second acquisition.  PD answers the first two requests and is gone at
    the third, the one for the safe point; the backoff gives up, so [getTs]
    returns zero and a nil error.  The test after it looks at [ts], not at the
    safe point: the round goes on, asks for GC at safe point 0, and [Start]
    returns the error of the GC endpoint. *)
Theorem Start_safe_point_zero_goes_on :
  getTs Sim.env 1 ctx_Background
    (Sim.state0 (Sim.client0 true [1] 1 1)
       (Sim.mkWorld 100 [(0, 0, Some io_EOF)] 0 [mkLoc 1 [] []] [] []
          [inr (errors_New "pd is unavailable")] true true [] 0))
  = Ok (0, None)
       (Sim.state0 (Sim.client0 true [1] 1 1)
          (Sim.mkWorld 100 [] 0 [mkLoc 1 [] []] [] []
             [inr (errors_New "pd is unavailable")] true true [] 0)) /\
  exists s',
    Start Sim.env 1 (Sim.state0 (Sim.client0 true [1] 1 1) world_pd_lost)
    = Ok (Some (errors_New "pd is unavailable")) s' /\
    safePoint (client s') = 0 /\
    In (EvGC 0 true) (log s').
Proof.
  split; [reflexivity|]. eexists. split; [vm_compute; reflexivity|].
  split; [reflexivity|]. cbn. auto.
Qed.

(** C6.  The context is seen done at the first table; at the second table the
    ticker is ready as well and the select takes it: a task is queued after the
    cancellation was seen, and a worker runs it. *)
Theorem generateLocks_enqueues_after_done :
  exists s',
    generateLocks Sim.env 1 ctx_Race
      (Sim.state0 (mkClient (mkConfig true 2 1 1 true) [1; 2] 1 0 9 9) world_done_then_tick)
    = Ok (1, None) s' /\
    enqueued_after_done (rev (log s')) /\
    List.length (Sim.locks (world s')) = 1%nat.
Proof.
  eexists. split; [vm_compute; reflexivity|]. split; [|reflexivity].
  exists [], (mkTask 2 1 1). eexists. split; [reflexivity|]. cbn. auto.
Qed.

Lemma big_key_sent :
  existsb over_budget
    (log (res_state (lockBatch Sim.env 1 ctx_Background [big_key]
                       (Sim.state0 (Sim.client0 true [1] 1 1) Sim.world0)))) = true.
Proof. vm_compute. reflexivity. Qed.

(** C8 with the whole batch under the budget fails: one key of 1 MiB is sent,
    and the batch has a byte more than the budget. *)
Lemma lockBatch_over_budget :
  ~ stable (logs (prewrite_under_budget Sim.env [big_key]))
      (lockBatch Sim.env 1 ctx_Background [big_key]).
Proof.
  intros H. specialize (H (Sim.state0 (Sim.client0 true [1] 1 1) Sim.world0)).
  destruct H as (added & Hlog & Hall).
  change (log (Sim.state0 (Sim.client0 true [1] 1 1) Sim.world0)) with (@nil Event) in Hlog.
  rewrite app_nil_r in Hlog.
  pose proof big_key_sent as Hsent. rewrite Hlog in Hsent.
  apply existsb_exists in Hsent. destruct Hsent as (e & He & Hover).
  rewrite Forall_forall in Hall. specialize (Hall e He).
  destruct e; try discriminate Hover.
  unfold prewrite_under_budget in Hall. unfold over_budget in Hover.
  destruct Hall as (n & _ & _ & _ & _ & Hunder).
  apply Z.leb_le in Hover. lia.
Qed.

Example split_table_run_13 :
  exists s',
    generateLocks env_split_table 1 ctx_Background (Stub.state0 client_5_3_2)
    = Ok (13, None) s' /\
    log s'
    = rev (map EvEnqueue
             [mkTask 41 0 3; mkTask 42 0 3; mkTask 43 0 3; mkTask 44 0 3; mkTask 45 0 3]
           ++ flat_map
                (fun b : list Key * KeyLocation =>
                   [EvPrewrite (mkPrewrite (map put (fst b)) (hd [] (fst b))
                                  (Sim.compose_ts 1 0) 30000) (snd b);
                    EvPrewriteReply (mkResponse (Some (mkPrewriteResp None [])))])
                [([Sim.encode_row_key 41 0], mkLoc 1 [] split_key);
                 (map (Sim.encode_row_key 42) [0; 1; 2], mkLoc 2 split_key []);
                 (map (Sim.encode_row_key 43) [0; 1; 2], mkLoc 2 split_key []);
                 (map (Sim.encode_row_key 44) [0; 1; 2], mkLoc 2 split_key []);
                 (map (Sim.encode_row_key 45) [0; 1; 2], mkLoc 2 split_key [])]).
Proof. eexists. split; vm_compute; reflexivity. Qed.

(** C9 without the rows of a table in one region fails.  On a cluster where
    PD, the region cache and the store answer, every prewrite is accepted
    without a region error or a key error and nothing is cancelled, but the
    rows of table 41 lie across two regions, [generateLocks] with 5 tables, 3
    locks for each and 2 workers returns 13: the batch of table 41 is cut at
    the end of the region of its first key, and [lock] drops the keys that
    were left out. *)
Lemma generateLocks_split_table :
  ~ (forall (W : Type) (E : Env W) (fuel : nat) (ctx : Context) (s : State W),
        pd_up E 1 -> regions_up E -> prewrite_answered E ->
        prewrite_accepted E -> short_row_keys E ->
        no_cancel E ctx ->
        List.length (tableIDs (client s)) = 5%nat ->
        LockPerRegion (cfg (client s)) = 3 ->
        Worker (cfg (client s)) = 2 ->
        ts_left 15 (client s) ->
        exists s', generateLocks E (S fuel) ctx s = Ok (15, None) s').
Proof.
  intros H.
  destruct (H unit env_split_table 0%nat ctx_Background (Stub.state0 client_5_3_2))
    as (s' & Hrun).
  - intros ctx w. exists w, 1, 0. split; [reflexivity | now vm_compute].
  - intros key w. eexists w, _. reflexivity.
  - intros req region w. now exists w, (mkPrewriteResp None []).
  - intros req region w w' body Hsend. now injection Hsend as _ <-.
  - intros tableID h. reflexivity.
  - left. reflexivity.
  - reflexivity.
  - reflexivity.
  - reflexivity.
  - left. reflexivity.
  - destruct split_table_run_13 as (s13 & Hrun13 & _).
    rewrite Hrun13 in Hrun. discriminate Hrun.
Qed.

(** * Further properties *)

(** A returned pair, taken apart. *)
Ltac inv_ret2 H :=
  cbv beta match in H; apply ret_Ok in H;
  let Hp := fresh "Hp" in
  destruct H as [Hp ?]; injection Hp as ? ?; subst.

(** ** Configuration *)

(** [Normalize] puts the default in place of a zero and of nothing else: the
    three counts of the result are not zero, a count that was not zero and the
    two flags are kept, and normalizing again changes nothing. *)
Theorem Normalize_defaults (c : Config) :
  RegionCount (Normalize c) = (if RegionCount c =? 0 then 200 else RegionCount c) /\
  LockPerRegion (Normalize c) = (if LockPerRegion c =? 0 then 10 else LockPerRegion c) /\
  Worker (Normalize c) = (if Worker c =? 0 then 10 else Worker c) /\
  EnableGreenGC (Normalize c) = EnableGreenGC c /\
  LocalMode (Normalize c) = LocalMode c /\
  RegionCount (Normalize c) <> 0 /\
  LockPerRegion (Normalize c) <> 0 /\
  Worker (Normalize c) <> 0 /\
  Normalize (Normalize c) = Normalize c.
Proof.
  destruct c as [green regions perRegion workers localMode]. unfold Normalize. cbn.
  destruct (Z.eqb_spec regions 0), (Z.eqb_spec perRegion 0), (Z.eqb_spec workers 0);
    subst; cbn;
    repeat match goal with
           | |- context [?x =? 0] => destruct (Z.eqb_spec x 0); [contradiction|]
           end;
    repeat split; (discriminate || assumption || reflexivity).
Qed.

(** ** Timestamp source *)

Section TimestampResults.
Context {W : Type} (E : Env W).

(** What [getTs] returns: with an error the timestamp is zero and the cause of
    the error is neither [io.EOF] nor [context.Canceled] (those are retried or
    turned into a zero timestamp with a nil error); without an error the
    timestamp is zero or composed from an answer of PD.  The client and the
    log are not touched. *)
Theorem getTs_result (fuel : nat) (ctx : Context) :
  forall (s s' : State W) (ts : Z) (err : option error),
    getTs E fuel ctx s = Ok (ts, err) s' ->
    client s' = client s /\ log s' = log s /\
    match err with
    | Some e =>
        ts = 0 /\ errors_Cause e <> io_EOF /\ errors_Cause e <> context_Canceled
    | None =>
        ts = 0 \/
        exists w w' physical logical,
          pd_GetTS E ctx w = (w', (physical, logical, None)) /\
          ts = ComposeTS E physical logical
    end.
Proof.
  induction fuel as [|fuel IH]; intros s s' ts err H; [discriminate|].
  destruct (getTs_client E _ _ _ _ _ H) as [Hc Hl].
  split; [exact Hc|]. split; [exact Hl|]. clear Hc Hl.
  cbn [getTs] in H. inv_call H as w1 ans Hts. destruct ans as [[physical logical] oe].
  destruct oe as [e|]; cbn [option_map] in H.
  - assert (Hretry :
      (cancelled <- match ctx with
                    | ctx_Background => ret false
                    | _ => ask (ctx_Err E ctx)
                    end ;;
       if (cancelled : bool) then ret (0, None)
       else
         berr <- call (Backoff E BoPDRPC e) ;;
         match berr with
         | Some _ => ret (0, None)
         | None => getTs E fuel ctx
         end) (mkState (client s) w1 (log s)) = Ok (ts, err) s' ->
      match err with
      | Some e0 =>
          ts = 0 /\ errors_Cause e0 <> io_EOF /\ errors_Cause e0 <> context_Canceled
      | None =>
          ts = 0 \/
          exists w w' physical0 logical0,
            pd_GetTS E ctx w = (w', (physical0, logical0, None)) /\
            ts = ComposeTS E physical0 logical0
      end).
    { intros Hr. inv_bind Hr as cancelled s1 Hcan.
      assert (Hs1 : s1 = mkState (client s) w1 (log s)).
      { clear -Hcan. destruct ctx;
          [apply ask_Ok in Hcan | apply ret_Ok in Hcan | apply ask_Ok in Hcan];
          exact (proj2 Hcan). }
      subst s1. destruct cancelled.
      - inv_ret2 Hr. now left.
      - inv_call Hr as w2 berr Hback. destruct berr as [be|].
        + inv_ret2 Hr. now left.
        + apply IH in Hr. exact (proj2 (proj2 Hr)). }
    destruct (errors_Cause e) eqn:Hcause; try (exact (Hretry H));
      inv_ret2 H; (split; [reflexivity|]); rewrite Hcause; split; discriminate.
  - inv_ret2 H. right. exists (world s), w1, physical, logical. now split.
Qed.

End TimestampResults.

(** ** Counts *)

Section Counts.
Context {W : Type} (E : Env W).

Lemma len_lockBatch_mutations (loc : KeyLocation) (keys : list Key) (b : Z) :
  0 <= len (lockBatch_mutations E loc keys b) <= len keys.
Proof.
  destruct (lockBatch_mutations_prefix E loc keys b) as (n & Hn & -> & _).
  unfold len. rewrite length_map, length_firstn. lia.
Qed.

Lemma lockBatch_loop_count (fuel : nat) (ctx : Context) (keys : list Key) :
  forall (s s' : State W) (n : Z) (err : option error),
    lockBatch_loop E fuel ctx keys s = Ok (n, err) s' ->
    0 <= n <= len keys /\ (err <> None -> n = 0) /\
    same_but_mock (client s) (client s').
Proof.
  assert (Hlen : 0 <= len keys) by (unfold len; lia).
  induction fuel as [|fuel IH]; intros s s' n err H; cbn [lockBatch_loop] in H;
    [discriminate|].
  inv_call H as w1 r1 Hloc. destruct r1 as [loc|e0].
  2:{ inv_ret2 H. split; [lia|]. split; [reflexivity | apply same_but_mock_refl]. }
  inv_bind H as r2 s2 Hts. destruct r2 as [startTs oe].
  apply getLockTs_log in Hts. cbn [client] in Hts. destruct Hts as [Hsame _].
  fold (same_but_mock (client s) (client s2)) in Hsame.
  destruct oe as [e1|]; [inv_ret2 H; split; [lia|]; now split|].
  destruct (startTs =? 0); [inv_ret2 H; split; [lia|]; now split|].
  destruct (len (lockBatch_mutations E loc keys 0) =? 0);
    [inv_ret2 H; split; [lia|]; now split|].
  inv_run H. inv_call H as w3 r3 Hsend. destruct r3 as [resp|e2].
  2:{ inv_ret2 H. split; [lia|]. now split. }
  inv_run H. unfold GetRegionError in H.
  destruct (Resp resp) as [body|].
  - destruct (pw_RegionError body) as [re|].
    + inv_call H as w4 berr Hback. destruct berr as [e3|].
      * inv_ret2 H. split; [lia|]. now split.
      * apply IH in H. cbn [client] in H. destruct H as (Hn & Herr & Hsame').
        split; [exact Hn|]. split; [exact Herr|].
        eapply same_but_mock_trans; eassumption.
    + inv_ret2 H. pose proof (len_lockBatch_mutations loc keys 0).
      split; [destruct (negb (len (pw_Errors body) =? 0)); lia|].
      split; [intros Hne; now contradiction Hne | exact Hsame].
  - inv_ret2 H. split; [lia|]. now split.
Qed.

(** [lockBatch] never counts more keys than it was given, and counts none
    when it returns an error; of the fields of the client only [mockLockTs]
    can have moved. *)
Theorem lockBatch_count (fuel : nat) (ctx : Context) (keys : list Key)
  (s s' : State W) (n : Z) (err : option error) :
  lockBatch E fuel ctx keys s = Ok (n, err) s' ->
  0 <= n <= len keys /\ (err <> None -> n = 0) /\
  same_but_mock (client s) (client s').
Proof.
  unfold lockBatch. destruct (len keys =? 0) eqn:H0.
  - intros H. inv_ret2 H. apply Z.eqb_eq in H0.
    split; [lia|]. split; [reflexivity | apply same_but_mock_refl].
  - apply lockBatch_loop_count.
Qed.

Lemma lock_loop_count (fuel : nat) (ctx : Context) (tableID handleID limit : Z) (n : nat) :
  forall (i : Z) (keys : list Key) (locked : Z) (s s' : State W) (m : Z)
         (err : option error),
    lock_loop E fuel ctx tableID handleID limit n i keys locked s = Ok (m, err) s' ->
    (err <> None -> m = 0) /\
    (err = None -> locked <= m <= locked + len keys + Z.of_nat n) /\
    same_but_mock (client s) (client s').
Proof.
  induction n as [|n IH]; intros i keys locked s s' m err H; cbn [lock_loop] in H.
  - inv_ret2 H. split; [intros Hne; now contradiction Hne|].
    split; [unfold len; lia | apply same_but_mock_refl].
  - destruct ((len (keys ++ [EncodeRowKeyWithHandle E tableID (handleID + i)]) >=? txnSize)
              || (i =? limit - 1)).
    + inv_bind H as r1 s1 Hbatch. destruct r1 as [cnt oe].
      apply lockBatch_count in Hbatch. destruct Hbatch as (Hcnt & _ & Hsame1).
      destruct oe as [e|].
      * inv_ret2 H. split; [reflexivity|]. split; [discriminate | exact Hsame1].
      * apply IH in H. destruct H as (Herr & Hm & Hsame).
        split; [exact Herr|]. split; [|eapply same_but_mock_trans; eassumption].
        intros Hnone. specialize (Hm Hnone). rewrite len_app in Hcnt.
        unfold len in *. cbn [List.length] in *. lia.
    + apply IH in H. destruct H as (Herr & Hm & Hsame).
      split; [exact Herr|]. split; [|exact Hsame].
      intros Hnone. specialize (Hm Hnone). rewrite len_app in Hm.
      unfold len in *. cbn [List.length] in *. lia.
Qed.

(** [lock] never counts more than [limit] keys (none for a negative limit),
    and counts none when it returns an error. *)
Theorem lock_count (fuel : nat) (ctx : Context) (tableID handleID limit : Z)
  (s s' : State W) (m : Z) (err : option error) :
  lock E fuel ctx tableID handleID limit s = Ok (m, err) s' ->
  0 <= m <= Z.max limit 0 /\ (err <> None -> m = 0) /\
  same_but_mock (client s) (client s').
Proof.
  unfold lock. intros H. apply lock_loop_count in H. destruct H as (Herr & Hm & Hsame).
  split; [|split; [exact Herr | exact Hsame]].
  destruct err as [e|].
  - rewrite Herr by discriminate. lia.
  - specialize (Hm eq_refl). unfold len in Hm. cbn [List.length] in Hm. lia.
Qed.

(** The dispatch loop visits every table once and in order, whether the
    context is done or not: at each table it either sees the context done or
    queues the task of that table, and nothing else; under
    [context.Background()] it queues them all.  It always returns, and leaves
    the client as it was. *)
Theorem generateLocks_dispatch_visits (ctx : Context) (tableIDs : list Z) :
  forall s : State W,
  exists (taken : list bool) (w' : W),
    List.length taken = List.length tableIDs /\
    generateLocks_dispatch E ctx tableIDs s
    = Ok (dispatch_queue (client s) taken tableIDs)
         (mkState (client s) w'
            (rev (dispatch_trace (client s) taken tableIDs) ++ log s)) /\
    (ctx = ctx_Background -> taken = repeat false (List.length tableIDs)).
Proof.
  induction tableIDs as [|tableID rest IH]; intros s.
  - exists [], (world s). destruct s. repeat split; reflexivity.
  - cbn [generateLocks_dispatch].
    assert (Hstep : forall (done : bool) w,
      exists taken w',
        List.length taken = List.length rest /\
        (if done
         then emit EvCtxDone ;; generateLocks_dispatch E ctx rest
         else c <- getc ;;
              emit (EvEnqueue (mkTask tableID (handleID c) (LockPerRegion (cfg c)))) ;;
              queued <- generateLocks_dispatch E ctx rest ;;
              ret (mkTask tableID (handleID c) (LockPerRegion (cfg c)) :: queued))
          (mkState (client s) w (log s))
        = Ok (dispatch_queue (client s) (done :: taken) (tableID :: rest))
             (mkState (client s) w'
                (rev (dispatch_trace (client s) (done :: taken) (tableID :: rest)) ++ log s)) /\
        (ctx = ctx_Background -> taken = repeat false (List.length rest))).
    { intros [|] w; run_head; cbn [client world log];
        match goal with
        | |- context [generateLocks_dispatch E ctx rest ?s1] =>
            destruct (IH s1) as (taken & w' & Hlen & Hrun & Hbg)
        | |- context [bind (generateLocks_dispatch E ctx rest) _ ?s1] =>
            destruct (IH s1) as (taken & w' & Hlen & Hrun & Hbg)
        end;
        cbn [client world log] in Hrun;
        exists taken, w'; (split; [exact Hlen|]); (split; [|exact Hbg]).
      - rewrite Hrun. unfold dispatch_queue, dispatch_trace.
        cbn [combine map flat_map fst snd app rev]. now rewrite <- app_assoc.
      - rewrite (bind_eq _ _ _ _ _ Hrun). unfold ret, dispatch_queue, dispatch_trace.
        cbn [combine map flat_map fst snd app rev]. now rewrite <- app_assoc. }
    destruct ctx.
    + run_call as w1 done Hsel. destruct (Hstep done w1) as (taken & w' & Hlen & Hrun & _).
      exists (done :: taken), w'. cbn [List.length]. split; [lia|].
      split; [exact Hrun | discriminate].
    + rewrite bind_ret. destruct (Hstep false (world s)) as (taken & w' & Hlen & Hrun & Hbg).
      exists (false :: taken), w'. cbn [List.length]. split; [lia|].
      split; [destruct s; exact Hrun|].
      intros _. cbn [repeat]. now rewrite (Hbg eq_refl).
    + run_call as w1 done Hsel. destruct (Hstep done w1) as (taken & w' & Hlen & Hrun & _).
      exists (done :: taken), w'. cbn [List.length]. split; [lia|].
      split; [exact Hrun | discriminate].
Qed.

Lemma dispatch_queue_limit (c : resolveLockClient) (tableIDs : list Z) :
  forall taken,
    tasks_limit (dispatch_queue c taken tableIDs)
    <= len tableIDs * Z.max (LockPerRegion (cfg c)) 0.
Proof.
  induction tableIDs as [|t rest IH]; intros taken.
  - destruct taken; cbn; lia.
  - assert (0 <= len (t :: rest)) by (unfold len; lia).
    destruct taken as [|d taken];
      [unfold dispatch_queue; cbn [combine flat_map tasks_limit fold_right]; nia|].
    unfold dispatch_queue. cbn [combine flat_map fst snd].
    fold (dispatch_queue c taken rest). specialize (IH taken).
    assert (Hl : len (t :: rest) = len rest + 1) by (unfold len; cbn [List.length]; lia).
    rewrite Hl. destruct d; cbn [app tasks_limit fold_right task_of t_limit];
      fold (tasks_limit (dispatch_queue c taken rest)); nia.
Qed.

Lemma total_nonneg (running : list Z) : Forall (fun x => 0 <= x) running -> 0 <= total running.
Proof.
  induction 1 as [|x l Hx _ IH]; [cbn; lia|]. cbn [total fold_right]. fold (total l). lia.
Qed.

Lemma remove_nth_nonneg (running : list Z) :
  forall i, Forall (fun x => 0 <= x) running ->
            Forall (fun x => 0 <= x) (remove_nth i running) /\
            total (remove_nth i running) <= total running.
Proof.
  induction running as [|x l IH]; intros i H; [split; [constructor | cbn; lia]|].
  inversion H as [|? ? Hx Hl]; subst. destruct i as [|i]; cbn [remove_nth].
  - split; [exact Hl|]. cbn [total fold_right]. fold (total l). lia.
  - destruct (IH i Hl) as [Hf Ht]. split; [now constructor|].
    cbn [total fold_right]. fold (total l). fold (total (remove_nth i l)). lia.
Qed.

Lemma add_nth_nonneg (running : list Z) :
  forall i d, 0 <= d -> Forall (fun x => 0 <= x) running ->
              Forall (fun x => 0 <= x) (add_nth i d running) /\
              total (add_nth i d running) <= total running + d.
Proof.
  induction running as [|x l IH]; intros i d Hd H; [split; [constructor | cbn; lia]|].
  inversion H as [|? ? Hx Hl]; subst. destruct i as [|i]; cbn [add_nth].
  - split; [constructor; [lia | exact Hl]|]. cbn [total fold_right]. fold (total l). lia.
  - destruct (IH i d Hd Hl) as [Hf Ht]. split; [now constructor|].
    cbn [total fold_right]. fold (total l). fold (total (add_nth i d l)). lia.
Qed.

Lemma generateLocks_workers_count (fuel : nat) (ctx : Context) (tasks : list task) :
  forall (running : list Z) (first : option error) (s s' : State W)
         (running' : list Z) (err : option error),
    generateLocks_workers E fuel ctx tasks running first s = Ok (running', err) s' ->
    Forall (fun x => 0 <= x) running ->
    Forall (fun x => 0 <= x) running' /\
    total running' <= total running + tasks_limit tasks /\
    same_but_mock (client s) (client s').
Proof.
  induction tasks as [|t tasks IH]; intros running first s s' running' err H Hpos;
    cbn [generateLocks_workers] in H.
  - inv_ret2 H. split; [exact Hpos|]. split; [cbn; lia | apply same_but_mock_refl].
  - assert (Hlim : 0 <= tasks_limit tasks).
    { clear. induction tasks as [|t0 ts IHt]; [cbn; lia|].
      cbn [tasks_limit fold_right]. fold (tasks_limit ts). lia. }
    destruct running as [|r0 running].
    + inv_ret2 H. split; [constructor|]. split; [|apply same_but_mock_refl].
      cbn [tasks_limit fold_right total]. fold (tasks_limit tasks). lia.
    + inv_call H as w1 i Hrecv. inv_bind H as r1 s1 Hlock. destruct r1 as [cnt oe].
      apply lock_count in Hlock. cbn [client] in Hlock. destruct Hlock as (Hcnt & _ & Hsame1).
      cbn [tasks_limit fold_right]. fold (tasks_limit tasks).
      destruct oe as [e|].
      * destruct (remove_nth_nonneg (r0 :: running)
                    (Nat.modulo i (List.length (r0 :: running))) Hpos) as [Hf Ht].
        apply IH in H; [|exact Hf]. destruct H as (Hf' & Ht' & Hsame).
        split; [exact Hf'|]. split; [lia | eapply same_but_mock_trans; eassumption].
      * destruct (add_nth_nonneg (r0 :: running)
                    (Nat.modulo i (List.length (r0 :: running))) cnt (proj1 Hcnt) Hpos)
          as [Hf Ht].
        apply IH in H; [|exact Hf]. destruct H as (Hf' & Ht' & Hsame).
        split; [exact Hf'|]. split; [lia | eapply same_but_mock_trans; eassumption].
Qed.

(** The count that [generateLocks] returns is never negative and never above
    the number of tables times the locks per table; without workers it is zero
    and there is no error.  Only [mockLockTs] can have moved. *)
Theorem generateLocks_count (fuel : nat) (ctx : Context) (s s' : State W)
  (n : Z) (err : option error) :
  generateLocks E fuel ctx s = Ok (n, err) s' ->
  0 <= n <= len (tableIDs (client s)) * Z.max (LockPerRegion (cfg (client s))) 0 /\
  (Worker (cfg (client s)) = 0 -> n = 0 /\ err = None) /\
  same_but_mock (client s) (client s').
Proof.
  unfold generateLocks. intros H. inv_run H.
  destruct (Worker (cfg (client s)) <? 0) eqn:Hw; [discriminate|].
  destruct (generateLocks_dispatch_visits ctx (tableIDs (client s)) s)
    as (taken & w1 & _ & Hdisp & _).
  rewrite (bind_eq _ _ _ _ _ Hdisp) in H.
  inv_bind H as r s2 Hwork. destruct r as [running oe]. inv_ret2 H.
  split; [|split].
  - apply generateLocks_workers_count in Hwork.
    + destruct Hwork as (Hpos & Htot & _). fold (total running).
      pose proof (total_nonneg running Hpos).
      pose proof (dispatch_queue_limit (client s) (tableIDs (client s)) taken).
      rewrite total_repeat_0 in Htot. lia.
    + clear. induction (Z.to_nat (Worker (cfg (client s)))); cbn [repeat]; constructor;
        [lia | assumption].
  - intros H0. rewrite H0 in Hwork. cbn [Z.to_nat repeat] in Hwork.
    destruct (dispatch_queue (client s) taken (tableIDs (client s)));
      cbn [generateLocks_workers] in Hwork; inv_ret2 Hwork; now split.
  - apply generateLocks_workers_count in Hwork.
    + exact (proj2 (proj2 Hwork)).
    + clear. induction (Z.to_nat (Worker (cfg (client s)))); cbn [repeat]; constructor;
        [lia | assumption].
Qed.

End Counts.

(** ** What the lock generator sends *)

Section Sends.
Context {W : Type} (E : Env W).

Lemma stable_logs_weaken (P Q : Event -> Prop) {A} (m : M W A) :
  (forall e, P e -> Q e) -> stable (logs P) m -> stable (logs Q) m.
Proof. intros HPQ H s. eapply logs_weaken; [exact HPQ | apply H]. Qed.

Lemma lockBatch_loop_sends (fuel : nat) (ctx : Context) (keys : list Key) :
  stable (logs (lockBatch_event E keys)) (lockBatch_loop E fuel ctx keys).
Proof.
  induction fuel as [|fuel IH]; cbn [lockBatch_loop];
    stable_split (@logs_refl W (lockBatch_event E keys))
                 (@logs_trans W (lockBatch_event E keys));
    try apply logs_call; try exact IH;
    try (apply logs_emit; exact I).
  - apply getLockTs_logs. intros ts. exact I.
  - apply logs_emit. cbn [lockBatch_event StartVersion LockTtl].
    split; [|split; [|reflexivity]].
    + cbn [prewrite_covers Mutations PrimaryLock].
      match goal with
      | H : (len (lockBatch_mutations E ?loc keys 0) =? 0) = false |- _ =>
          destruct (lockBatch_mutations_prefix E loc keys 0) as (n & Hn & Hm & Hin & Hb);
          apply Z.eqb_neq in H; rewrite Hm in H
      end.
      exists n. split; [|split; [exact Hm|split; [reflexivity|split; [exact Hin|]]]].
      * destruct n; [cbn in *; unfold len in *; cbn in *; lia | lia].
      * specialize (Hb ltac:(unfold maxBatchSize; lia)). lia.
    + match goal with
      | H : (?ts =? 0) = false |- ?ts <> 0 => now apply Z.eqb_neq in H
      end.
Qed.

Lemma lockBatch_sends (fuel : nat) (ctx : Context) (keys : list Key) :
  stable (logs (lockBatch_event E keys)) (lockBatch E fuel ctx keys).
Proof.
  unfold lockBatch. destruct (len keys =? 0).
  - apply stable_ret, logs_refl.
  - apply lockBatch_loop_sends.
Qed.

Lemma lockBatch_event_lock (tableID handleID limit : Z) (hs : list Z) (e : Event) :
  Forall (fun h => handleID <= h < handleID + limit) hs ->
  len hs <= txnSize ->
  lockBatch_event E (row_keys E tableID hs) e ->
  lock_event E tableID handleID limit e.
Proof.
  intros Hrange Hlen He. destruct e; cbn in He |- *; try exact He.
  destruct He as ((n & Hn & Hm & Hprim & Hin & _) & Hts & Httl).
  split; [exact Hts|]. split; [exact Httl|].
  assert (Hfirst : firstn n (row_keys E tableID hs) = row_keys E tableID (firstn n hs)).
  { unfold row_keys. now rewrite firstn_map. }
  rewrite Hfirst in Hm, Hin. unfold row_keys in Hn. rewrite length_map in Hn.
  split; [|split].
  - rewrite Hm. unfold len, row_keys in *. rewrite !length_map, length_firstn. lia.
  - rewrite Hm, Hprim. destruct hs as [|h hs]; [cbn in Hn; lia|].
    destruct n as [|n]; [lia|]. reflexivity.
  - rewrite Hm. apply Forall_forall. intros m Hmem.
    apply in_map_iff in Hmem. destruct Hmem as (key & <- & Hkey).
    rewrite Forall_forall in Hin. split; [reflexivity|]. split; [now apply Hin|].
    apply in_map_iff in Hkey. destruct Hkey as (h & <- & Hh). exists h.
    split; [|reflexivity]. rewrite Forall_forall in Hrange.
    apply Hrange. rewrite <- (firstn_skipn n hs). apply in_or_app. now left.
Qed.

Lemma lock_loop_sends (fuel : nat) (ctx : Context) (tableID handleID limit : Z) (n : nat) :
  forall (i : Z) (hs : list Z) (locked : Z),
    0 <= i ->
    Forall (fun h => handleID <= h < handleID + i) hs ->
    len hs < txnSize ->
    (n = 0%nat \/ i + Z.of_nat n = limit) ->
    stable (logs (lock_event E tableID handleID limit))
      (lock_loop E fuel ctx tableID handleID limit n i (row_keys E tableID hs) locked).
Proof.
  induction n as [|n IH]; intros i hs locked Hi Hrange Hlen Hend; cbn [lock_loop].
  - apply stable_ret, logs_refl.
  - destruct Hend as [Hend|Hend]; [discriminate|].
    rewrite row_keys_snoc.
    assert (Hrange' : Forall (fun h => handleID <= h < handleID + (i + 1))
                        (hs ++ [handleID + i])).
    { apply Forall_app. split.
      - eapply Forall_impl; [|exact Hrange]. cbv beta. intros h Hh. lia.
      - constructor; [lia | constructor]. }
    assert (Hnext : n = 0%nat \/ i + 1 + Z.of_nat n = limit) by (right; lia).
    stable_split (@logs_refl W (lock_event E tableID handleID limit))
                 (@logs_trans W (lock_event E tableID handleID limit)).
    + eapply stable_logs_weaken; [|apply lockBatch_sends].
      intros e. apply lockBatch_event_lock.
      * eapply Forall_impl; [|exact Hrange']. cbv beta. intros h Hh. lia.
      * rewrite len_app. unfold len, txnSize in *. cbn [List.length] in *. lia.
    + apply (IH (i + 1) [] (locked + _)); [lia | constructor | unfold txnSize; cbn; lia
                                          | exact Hnext].
    + apply IH; [lia | exact Hrange' | | exact Hnext].
      match goal with
      | H : (_ || _) = false |- _ => apply orb_false_iff in H; destruct H as [H _];
          rewrite len_row_keys, Z.geb_leb in H; apply Z.leb_gt in H; exact H
      end.
Qed.

Lemma lock_sends (fuel : nat) (ctx : Context) (tableID handleID limit : Z) :
  stable (logs (lock_event E tableID handleID limit))
    (lock E fuel ctx tableID handleID limit).
Proof.
  unfold lock. apply (lock_loop_sends fuel ctx tableID handleID limit (Z.to_nat limit) 0 []).
  - lia.
  - constructor.
  - unfold txnSize. cbn. lia.
  - destruct (Z.to_nat limit) eqn:Hn; [now left | right; lia].
Qed.

Lemma lock_event_generateLocks (c : resolveLockClient) (tableID : Z) (e : Event) :
  In tableID (tableIDs c) ->
  lock_event E tableID (handleID c) (LockPerRegion (cfg c)) e ->
  generateLocks_event E c e.
Proof.
  intros Hin He. destruct e; cbn in He |- *; try contradiction; eauto.
Qed.

Lemma generateLocks_workers_sends (fuel : nat) (ctx : Context) (c : resolveLockClient)
  (tasks : list task) :
  Forall (fun t => exists tableID, In tableID (tableIDs c) /\ t = task_of c tableID) tasks ->
  forall running first,
    stable (logs (generateLocks_event E c))
      (generateLocks_workers E fuel ctx tasks running first).
Proof.
  induction 1 as [|t tasks (tableID & Hin & ->) _ IH]; intros running first;
    cbn [generateLocks_workers];
    stable_split (@logs_refl W (generateLocks_event E c))
                 (@logs_trans W (generateLocks_event E c));
    try apply logs_call; try apply IH.
  eapply stable_logs_weaken; [|apply lock_sends].
  intros e. cbn [task_of t_tableID t_handleID t_limit]. now apply lock_event_generateLocks.
Qed.

Lemma dispatch_trace_events (c : resolveLockClient) (tableIDs0 : list Z) :
  forall taken,
    incl tableIDs0 (tableIDs c) ->
    Forall (generateLocks_event E c) (rev (dispatch_trace c taken tableIDs0)) /\
    Forall (fun t => exists tableID, In tableID (tableIDs c) /\ t = task_of c tableID)
      (dispatch_queue c taken tableIDs0).
Proof.
  induction tableIDs0 as [|t rest IH]; intros taken Hincl.
  - destruct taken; split; constructor.
  - destruct taken as [|d taken]; [split; constructor|].
    destruct (IH taken) as [Htr Hq].
    { intros x Hx. apply Hincl. now right. }
    assert (Ht : In t (tableIDs c)) by (apply Hincl; now left).
    unfold dispatch_trace, dispatch_queue in *. cbn [combine map flat_map fst snd rev].
    split.
    + apply Forall_app. split; [exact Htr|]. constructor; [|constructor].
      destruct d; cbn; eauto.
    + destruct d; cbn [app]; [exact Hq|]. constructor; [eauto | exact Hq].
Qed.

(** Everything [generateLocks] does, whether it returns or not: it queues
    tasks of the tables of the client, and sends prewrites that carry from one
    to five puts of the value v for rows of one of these tables, with handles
    from [handleID] up to [handleID + LockPerRegion], all in the region
    located for the first of them, which is the primary; the start version is
    not zero and the TTL is 30000.  It never scans, resolves or triggers GC. *)
Theorem generateLocks_sends (fuel : nat) (ctx : Context) (s : State W) :
  logs (generateLocks_event E (client s)) s (res_state (generateLocks E fuel ctx s)).
Proof.
  unfold generateLocks. rewrite bind_getc.
  destruct (Worker (cfg (client s)) <? 0); [apply logs_refl|].
  destruct (generateLocks_dispatch_visits E ctx (tableIDs (client s)) s)
    as (taken & w1 & _ & Hdisp & _).
  rewrite (bind_eq _ _ _ _ _ Hdisp).
  destruct (dispatch_trace_events (client s) (tableIDs (client s)) taken (incl_refl _))
    as [Htrace Htasks].
  apply (logs_trans _ s
           (mkState (client s) w1
              (rev (dispatch_trace (client s) taken (tableIDs (client s))) ++ log s))).
  - exists (rev (dispatch_trace (client s) taken (tableIDs (client s)))).
    split; [reflexivity | exact Htrace].
  - match goal with
    | |- logs _ ?s1 (res_state (bind ?m ?k ?s1)) =>
        apply (stable_bind _ (@logs_trans W (generateLocks_event E (client s))) m k)
    end.
    + now apply generateLocks_workers_sends.
    + intros [running err]. apply stable_ret, logs_refl.
Qed.

End Sends.

(** ** The race window *)

Section Window.
Context {W : Type} (E : Env W).
Variable bound : Z.
Hypothesis bound_64 : bound < uint64_modulus.

Lemma window_refl (s : State W) : window bound s s.
Proof. intros Hm. split; [lia|]. exists []. split; [reflexivity | constructor]. Qed.

Lemma window_trans (a b c : State W) :
  window bound a b -> window bound b c -> window bound a c.
Proof.
  intros Hab Hbc Hm. destruct (Hab Hm) as (Hb & l1 & Hl1 & F1).
  destruct (Hbc ltac:(lia)) as (Hc & l2 & Hl2 & F2).
  split; [lia|]. exists (l2 ++ l1). split; [now rewrite Hl2, Hl1, app_assoc|].
  intros Hpos. apply Forall_app. split; [now apply F2 | apply F1; lia].
Qed.

Lemma window_call {A} (f : W -> W * A) : stable (window bound) (call f).
Proof. intros s. unfold call. destruct (f (world s)). apply (window_refl s). Qed.

Lemma window_emit (e : Event) :
  in_window bound e -> stable (window bound) (emit e : M W unit).
Proof.
  intros He s Hm. unfold emit, window_post. cbn.
  split; [lia|]. exists [e].
  split; [reflexivity|]. intros _. now constructor.
Qed.

Lemma zero_stays_refl (s : State W) : zero_stays s s.
Proof. split; [now exists [] | auto]. Qed.

Lemma zero_stays_trans (a b c : State W) :
  zero_stays a b -> zero_stays b c -> zero_stays a c.
Proof.
  intros [(l1 & H1) Z1] [(l2 & H2) Z2]. split; [|auto].
  exists (l2 ++ l1). now rewrite H2, H1, app_assoc.
Qed.

Lemma zero_stays_call {A} (f : W -> W * A) : stable zero_stays (call f).
Proof. intros s. unfold call. destruct (f (world s)). split; [now exists [] | auto]. Qed.

Lemma zero_stays_emit (e : Event) : stable zero_stays (emit e : M W unit).
Proof. intros s. split; [now exists [e] | auto]. Qed.

Lemma zero_stays_getLockTs (fuel : nat) (ctx : Context) :
  stable zero_stays (getLockTs E fuel ctx).
Proof.
  intros s. unfold getLockTs. rewrite bind_getc.
  destruct (Z.eqb_spec (mockLockTs (client s)) 0) as [H0|Hn].
  - destruct (getTs_quiet E fuel ctx s) as [Hc Hl]. split.
    + exists []. exact Hl.
    + intros _. now rewrite Hc.
  - run_head. split; [now eexists [_] | contradiction].
Qed.

Lemma zero_stays_lockBatch_loop (fuel : nat) (ctx : Context) (keys : list Key) :
  stable zero_stays (lockBatch_loop E fuel ctx keys).
Proof.
  induction fuel as [|fuel IH]; cbn [lockBatch_loop];
    stable_split (@zero_stays_refl) (@zero_stays_trans);
    try apply zero_stays_call; try apply zero_stays_emit;
    try apply zero_stays_getLockTs; exact IH.
Qed.

Lemma window_post_step (s s1 st : State W) (new : list Event) :
  window_post bound s1 st ->
  0 <= mockLockTs (client s1) <= mockLockTs (client s) ->
  log s1 = new ++ log s ->
  (0 < mockLockTs (client s1) -> Forall (in_window bound) new) ->
  window_post bound s st.
Proof.
  intros (Hst & added & Hl & F) Hs1 Hlog Hnew.
  split; [lia|]. exists (added ++ new). split; [now rewrite Hl, Hlog, app_assoc|].
  intros Hpos. apply Forall_app. split; [now apply F | apply Hnew; lia].
Qed.

Lemma window_post_here (s s1 : State W) (new : list Event) :
  0 <= mockLockTs (client s1) <= mockLockTs (client s) ->
  log s1 = new ++ log s ->
  (0 < mockLockTs (client s1) -> Forall (in_window bound) new) ->
  window_post bound s s1.
Proof.
  intros Hs1 Hlog Hnew. apply (window_post_step s s1 s1 new); try assumption.
  split; [lia|]. exists []. split; [reflexivity | constructor].
Qed.

Lemma window_lockBatch_loop (fuel : nat) (ctx : Context) (keys : list Key) :
  stable (window bound) (lockBatch_loop E fuel ctx keys).
Proof.
  induction fuel as [|fuel IH]; intros s Hm; [apply (window_refl s Hm)|].
  destruct (Z.eq_dec (mockLockTs (client s)) 0) as [H0|Hn].
  { destruct (zero_stays_lockBatch_loop (S fuel) ctx keys s) as [(added & Hl) Hz].
    specialize (Hz H0). split; [lia|]. exists added. split; [exact Hl | lia]. }
  cbn [lockBatch_loop].
  run_call as w1 [loc|e0] Hloc; [|apply (window_refl (mkState (client s) w1 (log s)) Hm)].
  unfold bind at 1. rewrite getLockTs_mock by (cbn [client]; lia).
  cbn [client world log]. cbv beta match.
  set (ts := mockLockTs (client s) - 1).
  set (c1 := set_mockLockTs ts (client s)).
  assert (Hc1 : mockLockTs c1 = ts) by reflexivity.
  assert (Hts : 0 <= ts <= mockLockTs (client s)) by lia.
  assert (Hlt : ts < bound) by lia.
  clearbody c1 ts.
  destruct (Z.eqb_spec ts 0) as [Hts0|Htsn].
  { apply (window_post_here s _ [EvMockTs ts]); unfold ret; cbn [res_state client log];
      [lia | reflexivity | intros _; repeat constructor]. }
  destruct (len (lockBatch_mutations E loc keys 0) =? 0).
  { apply (window_post_here s _ [EvMockTs ts]); unfold ret; cbn [res_state client log];
      [lia | reflexivity | intros _; repeat constructor]. }
  run_head. cbn [client world log].
  set (req := mkPrewrite (lockBatch_mutations E loc keys 0) (hd [] keys) ts 30000).
  assert (Hreq : Forall (in_window bound) [EvPrewrite req loc; EvMockTs ts]).
  { constructor; [cbn [in_window req StartVersion]; lia | repeat constructor]. }
  run_call as w3 [resp|e2] Hsend.
  2:{ apply (window_post_here s _ [EvPrewrite req loc; EvMockTs ts]);
        unfold ret; cbn [res_state client log];
        [lia | reflexivity | intros _; exact Hreq]. }
  assert (Hrep : Forall (in_window bound)
                   [EvPrewriteReply resp; EvPrewrite req loc; EvMockTs ts]).
  { constructor; [exact I | exact Hreq]. }
  unfold GetRegionError. destruct (Resp resp) as [body|].
  2:{ apply (window_post_here s _ [EvPrewriteReply resp; EvPrewrite req loc; EvMockTs ts]);
        unfold ret; cbn [res_state client log];
        [lia | reflexivity | intros _; exact Hrep]. }
  destruct (pw_RegionError body) as [re|].
  2:{ apply (window_post_here s _ [EvPrewriteReply resp; EvPrewrite req loc; EvMockTs ts]);
        unfold ret; cbn [res_state client log];
        [lia | reflexivity | intros _; exact Hrep]. }
  run_call as w4 [e3|] Hback.
  - apply (window_post_here s _ [EvPrewriteReply resp; EvPrewrite req loc; EvMockTs ts]);
      unfold ret; cbn [res_state client log];
      [lia | reflexivity | intros _; exact Hrep].
  - match goal with
    | |- window_post _ _ (res_state (lockBatch_loop E fuel ctx keys ?s4)) =>
        apply (window_post_step s s4 _
                 [EvPrewriteReply resp; EvPrewrite req loc; EvMockTs ts]);
        [apply (IH s4); cbn [client]; lia | cbn [client]; lia | reflexivity
        | intros _; exact Hrep]
    end.
Qed.

Lemma window_lock_loop (fuel : nat) (ctx : Context) (tableID handleID limit : Z) (n : nat) :
  forall i keys locked,
    stable (window bound) (lock_loop E fuel ctx tableID handleID limit n i keys locked).
Proof.
  induction n as [|n IH]; intros i keys locked; cbn [lock_loop].
  - apply stable_ret, window_refl.
  - stable_split window_refl window_trans; try apply IH.
    unfold lockBatch. destruct (len _ =? 0);
      [apply stable_ret, window_refl | apply window_lockBatch_loop].
Qed.

Lemma window_workers (fuel : nat) (ctx : Context) (tasks : list task) :
  forall running first,
    stable (window bound) (generateLocks_workers E fuel ctx tasks running first).
Proof.
  induction tasks as [|t tasks IH]; intros running first; cbn [generateLocks_workers];
    stable_split window_refl window_trans;
    try apply window_call; try apply IH.
  apply window_lock_loop.
Qed.

Lemma window_dispatch (ctx : Context) (tableIDs : list Z) :
  stable (window bound) (generateLocks_dispatch E ctx tableIDs).
Proof.
  induction tableIDs as [|t rest IH]; cbn [generateLocks_dispatch];
    stable_split window_refl window_trans;
    try apply window_call; try exact IH;
    apply window_emit; exact I.
Qed.

Lemma window_generateLocks (fuel : nat) (ctx : Context) :
  stable (window bound) (generateLocks E fuel ctx).
Proof.
  unfold generateLocks. stable_split window_refl window_trans.
  - apply window_dispatch.
  - apply window_workers.
Qed.

End Window.

(** The locks of the race window.  After [asyncGenerateLocksDuringGC] has set
    [safeLockTs] and the mock counter to [ts], run [generateLocks]; however it
    stops, the counter has not grown, and if it has not run out, every
    prewrite that was sent carries a start version below [ts] and above
    zero. *)
Theorem generateLocks_race_window {W : Type} (E : Env W) (fuel : nat) (ctx : Context)
  (ts : Z) (s : State W) :
  0 < ts < uint64_modulus ->
  window_post ts
    (mkState (set_mockLockTs ts
                (set_safeLockTs ts
                   (set_handleID (LockPerRegion (cfg (client s))) (client s))))
             (world s) (log s))
    (res_state ((asyncGenerateLocksDuringGC ts ;; generateLocks E fuel ctx) s)).
Proof.
  intros Hts. unfold asyncGenerateLocksDuringGC. run_head.
  apply (window_generateLocks E ts (proj2 Hts) fuel ctx). cbn [client set_mockLockTs mockLockTs].
  lia.
Qed.

(** ** The GC calls of a round *)

Section GCTries.
Context {W : Type} (E : Env W).

Lemma Start_gc_loop_run (n : nat) (g : bool) (err : option error) (s : State W) :
  exists r w k,
    (k <= n)%nat /\ (0 < n -> 0 < k)%nat /\
    Start_gc_loop E n g err s
    = Ok r (mkState (client s) w
              (repeat (EvGC (safePoint (client s)) (EnableGreenGC (cfg (client s)))) k
               ++ log s)) /\
    match r with
    | inl (g', None) =>
        (n = 0%nat /\ g' = g /\ err = None) \/
        exists w0 w1,
          http_resolvelock E (safePoint (client s)) (EnableGreenGC (cfg (client s))) w0
          = (w1, inl (g', None))
    | inl (_, Some e) =>
        k = n /\ ((n = 0%nat /\ err = Some e) \/ gc_error_is_fatal e = false)
    | inr e => exists e0, e = errors_Trace e0 /\ gc_error_is_fatal e0 = true
    end.
Proof.
  revert g err s. induction n as [|n IH]; intros g err s.
  - exists (inl (g, err)), (world s), 0%nat. cbn [Start_gc_loop repeat app].
    split; [lia|]. split; [lia|]. split; [now destruct s|].
    destruct err as [e|]; [split; [reflexivity | now left] | now left].
  - cbn [Start_gc_loop]. unfold resolveLocks. run_head.
    run_call as w1 [[g1 [e1|]]|e1] Hgc.
    + destruct (gc_error_is_fatal (errors_Trace e1)) eqn:Hf.
      * exists (inr (errors_Trace (errors_Trace e1))), w1, 1%nat.
        split; [lia|]. split; [lia|]. split; [reflexivity|]. now exists (errors_Trace e1).
      * destruct (IH false (Some (errors_Trace e1))
                    (mkState (client s) w1
                       (EvGC (safePoint (client s)) (EnableGreenGC (cfg (client s))) :: log s)))
          as (r & w & k & Hk & Hpos & Hrun & Hr).
        cbn [client log] in Hrun, Hr.
        exists r, w, (S k). split; [lia|]. split; [lia|]. split.
        { rewrite Hrun. f_equal. f_equal.
          change (?x :: log s) with ([x] ++ log s). rewrite app_assoc. f_equal.
          now rewrite <- repeat_cons. }
        destruct r as [[g' [e|]]|e].
        -- destruct Hr as [-> Hr]. split; [reflexivity|]. right.
           destruct Hr as [[-> He]|Hr]; [|exact Hr]. now injection He as <-.
        -- right. destruct Hr as [(_ & _ & Habs)|Hr]; [discriminate | exact Hr].
        -- exact Hr.
    + exists (inl (g1, None)), w1, 1%nat.
      split; [lia|]. split; [lia|]. split; [reflexivity|]. right. now exists (world s), w1.
    + destruct (gc_error_is_fatal (errors_Trace e1)) eqn:Hf.
      * exists (inr (errors_Trace (errors_Trace e1))), w1, 1%nat.
        split; [lia|]. split; [lia|]. split; [reflexivity|]. now exists (errors_Trace e1).
      * destruct (IH false (Some (errors_Trace e1))
                    (mkState (client s) w1
                       (EvGC (safePoint (client s)) (EnableGreenGC (cfg (client s))) :: log s)))
          as (r & w & k & Hk & Hpos & Hrun & Hr).
        cbn [client log] in Hrun, Hr.
        exists r, w, (S k). split; [lia|]. split; [lia|]. split.
        { rewrite Hrun. f_equal. f_equal.
          change (?x :: log s) with ([x] ++ log s). rewrite app_assoc. f_equal.
          now rewrite <- repeat_cons. }
        destruct r as [[g' [e|]]|e].
        -- destruct Hr as [-> Hr]. split; [reflexivity|]. right.
           destruct Hr as [[-> He]|Hr]; [|exact Hr]. now injection He as <-.
        -- right. destruct Hr as [(_ & _ & Habs)|Hr]; [discriminate | exact Hr].
        -- exact Hr.
Qed.


End GCTries.

(** ** What a round leaves behind *)

Section Rounds.
Context {W : Type} (E : Env W).

Lemma same_setup_refl (s : State W) : same_setup s s.
Proof. now split. Qed.

Lemma same_setup_trans (a b c : State W) :
  same_setup a b -> same_setup b c -> same_setup a c.
Proof. unfold same_setup. intros [-> ->] [-> ->]. now split. Qed.

Lemma same_setup_call {A} (f : W -> W * A) : stable same_setup (call f).
Proof. intros s. unfold call. destruct (f (world s)). now split. Qed.

Lemma same_setup_emit (e : Event) : stable same_setup (emit e : M W unit).
Proof. intros s. now split. Qed.

Lemma same_setup_modc (f : resolveLockClient -> resolveLockClient) :
  (forall c, cfg (f c) = cfg c /\ tableIDs (f c) = tableIDs c) ->
  stable same_setup (modc f : M W unit).
Proof. intros Hf s. exact (Hf (client s)). Qed.

Lemma same_setup_quiet {A} (m : M W A) : stable quiet m -> stable same_setup m.
Proof. intros H s. destruct (H s) as [Hc _]. unfold same_setup. now rewrite Hc. Qed.

Ltac setup_split :=
  stable_split same_setup_refl same_setup_trans;
  try apply same_setup_call; try apply same_setup_emit;
  try (apply same_setup_modc; intros; split; reflexivity).

Lemma same_setup_getTs (fuel : nat) (ctx : Context) :
  stable same_setup (getTs E fuel ctx).
Proof. apply same_setup_quiet, getTs_quiet. Qed.

Lemma same_setup_lockBatch_loop (fuel : nat) (ctx : Context) (keys : list Key) :
  stable same_setup (lockBatch_loop E fuel ctx keys).
Proof.
  induction fuel as [|fuel IH]; cbn [lockBatch_loop]; unfold getLockTs;
    setup_split; try apply same_setup_getTs; exact IH.
Qed.

Lemma same_setup_lock_loop (fuel : nat) (ctx : Context) (tableID handleID limit : Z)
  (n : nat) :
  forall i keys locked,
    stable same_setup (lock_loop E fuel ctx tableID handleID limit n i keys locked).
Proof.
  induction n as [|n IH]; intros i keys locked; cbn [lock_loop]; unfold lockBatch;
    setup_split; try apply IH; apply same_setup_lockBatch_loop.
Qed.

Lemma same_setup_workers (fuel : nat) (ctx : Context) (tasks : list task) :
  forall running first,
    stable same_setup (generateLocks_workers E fuel ctx tasks running first).
Proof.
  induction tasks as [|t tasks IH]; intros running first; cbn [generateLocks_workers];
    setup_split; try apply IH; apply same_setup_lock_loop.
Qed.

Lemma same_setup_dispatch (ctx : Context) (tableIDs : list Z) :
  stable same_setup (generateLocks_dispatch E ctx tableIDs).
Proof.
  induction tableIDs as [|t rest IH]; cbn [generateLocks_dispatch];
    setup_split; exact IH.
Qed.

Lemma same_setup_generateLocks (fuel : nat) (ctx : Context) :
  stable same_setup (generateLocks E fuel ctx).
Proof.
  unfold generateLocks. setup_split;
    [apply same_setup_dispatch | apply same_setup_workers].
Qed.

Lemma same_setup_CheckData (fuel : nat) : stable same_setup (CheckData E fuel).
Proof.
  intros s. destruct (CheckData_run E fuel s) as (added & _ & Hc & _).
  unfold same_setup. now rewrite Hc.
Qed.

Lemma same_setup_gc_loop (n : nat) :
  forall g err, stable same_setup (Start_gc_loop E n g err).
Proof.
  induction n as [|n IH]; intros g err; cbn [Start_gc_loop]; unfold resolveLocks;
    setup_split; apply IH.
Qed.

Lemma same_setup_before_check (fuel : nat) (loopNum lastGreenGC : Z) :
  stable same_setup (Start_before_check E fuel loopNum lastGreenGC).
Proof.
  unfold Start_before_check, asyncGenerateLocksDuringGC, asyncGenerateLocksDuringGC_go.
  setup_split;
    try apply same_setup_getTs; try apply same_setup_generateLocks;
    apply same_setup_gc_loop.
Qed.

Lemma same_setup_round (fuel : nat) (loopNum lastGreenGC : Z) :
  stable same_setup (Start_round E fuel loopNum lastGreenGC).
Proof.
  unfold Start_round, Start_after_check, reset.
  setup_split; try apply same_setup_before_check; apply same_setup_CheckData.
Qed.

Lemma same_setup_loop (fuel n : nat) :
  forall loopNum lastGreenGC,
    stable same_setup (Start_loop E fuel n loopNum lastGreenGC).
Proof.
  induction n as [|n IH]; intros loopNum lastGreenGC; cbn [Start_loop];
    setup_split; try apply IH; apply same_setup_round.
Qed.

(** [Start] never touches the configuration or the list of tables: however it
    stops, with a result, in a panic or still running, the client has the
    [Config] and the [tableIDs] it was started with. *)
Theorem Start_keeps_setup (fuel : nat) (s : State W) :
  same_setup s (res_state (Start E fuel s)).
Proof.
  revert s. change (stable same_setup (Start E fuel)). unfold Start.
  setup_split. apply same_setup_loop.
Qed.

(** A round that returns nil did so at its top. *)
Lemma Start_round_nil_inv (fuel : nat) (loopNum lastGreenGC : Z) (s s' : State W) :
  Start_round E fuel loopNum lastGreenGC s = Ok (Return None) s' ->
  exists w,
    (Start_ctx_Done E (world s) = (w, true) /\ s' = mkState (client s) w (log s)) \/
    (Start_ctx_Done E (world s) = (w, false) /\
     getTs E fuel ctx_Background (mkState (client s) w (log s)) = Ok (0, None) s').
Proof.
  intros H. unfold Start_round in H.
  inv_bind H as r s1 Hpre.
  destruct r as [e|g].
  - inv_run H. injection H as <-. unfold Start_before_check in Hpre.
    inv_call Hpre as w done Hdone. exists w.
    destruct done.
    { inv_run Hpre. now left. }
    right. split; [exact Hdone|].
    inv_bind Hpre as r1 s2 Hts. destruct r1 as [ts [e|]]; [inv_run Hpre; discriminate|].
    destruct (Z.eqb_spec ts 0) as [->|Hne].
    { inv_run Hpre. exact Hts. }
    exfalso.
    inv_bind Hpre as r2 s3 Hgen. destruct r2 as [n [e|]]; [inv_run Hpre; discriminate|].
    unfold asyncGenerateLocksDuringGC in Hpre. inv_run Hpre.
    inv_bind Hpre as r3 s4 Hsp. destruct r3 as [sp [e|]]; [inv_run Hpre; discriminate|].
    inv_run Hpre.
    inv_bind Hpre as r4 s5 Hgc. destruct r4 as [[g [e|]]|e]; try (inv_run Hpre; discriminate).
    inv_run Hpre.
    destruct (EnableGreenGC (cfg (client s5)) && _); [inv_run Hpre; discriminate|].
    unfold asyncGenerateLocksDuringGC_go in Hpre.
    inv_bind Hpre as r5 s6 Hgo. discriminate.
  - exfalso. inv_bind H as r s2 Hcheck. unfold Start_after_check, reset in H.
    destruct r as [ul [e|]]; destruct (negb (len ul =? 0));
      inv_run H; discriminate.
Qed.

(** A round returns nil only at its top.  When a turn of the loop of [Start]
    returns a nil error, either the context was done at the select, or the
    first [getTs] of the round gave zero; nothing was sent in that round, and
    the client is as it was when the round began.  The second test of [ts]
    against zero, after the safe point is read, never returns. *)
Theorem Start_round_nil_at_top (fuel : nat) (loopNum lastGreenGC : Z) (s s' : State W) :
  Start_round E fuel loopNum lastGreenGC s = Ok (Return None) s' ->
  client s' = client s /\ log s' = log s /\
  exists w,
    (Start_ctx_Done E (world s) = (w, true) /\ world s' = w) \/
    (Start_ctx_Done E (world s) = (w, false) /\
     getTs E fuel ctx_Background (mkState (client s) w (log s)) = Ok (0, None) s').
Proof.
  intros H. destruct (Start_round_nil_inv _ _ _ _ _ H) as (w & [[Hd ->]|[Hd Hts]]).
  - split; [reflexivity|]. split; [reflexivity|]. exists w. now left.
  - destruct (stable_Ok _ _ _ _ _ (getTs_quiet E fuel ctx_Background) Hts) as [Hc Hl].
    split; [exact Hc|]. split; [exact Hl|]. exists w. now right.
Qed.

Lemma Start_round_next_inv (fuel : nat) (loopNum lastGreenGC g : Z) (s s' : State W) :
  Start_round E fuel loopNum lastGreenGC s = Ok (NextRound g) s' ->
  client s' = mkClient (cfg (client s)) (tableIDs (client s)) 0 0 0 0 /\
  (g = loopNum \/ g = lastGreenGC) /\
  (EnableGreenGC (cfg (client s)) = true -> loopNum - g <= 50).
Proof.
  intros H. unfold Start_round in H.
  inv_bind H as r s1 Hpre.
  destruct r as [e|g1]; [inv_run H; discriminate|].
  inv_bind H as r s2 Hcheck.
  pose proof (stable_Ok _ _ _ _ _ (same_setup_before_check fuel loopNum lastGreenGC) Hpre)
    as [Hcfg1 Htab1].
  pose proof (stable_Ok _ _ _ _ _ (same_setup_CheckData fuel) Hcheck) as [Hcfg2 Htab2].
  unfold Start_after_check in H.
  destruct r as [ul [e|]]; destruct (negb (len ul =? 0));
    inv_run H; try discriminate.
  unfold reset in H. inv_run H. injection H as <-.
  split.
  { unfold set_mockLockTs, set_safeLockTs, set_safePoint, set_handleID. cbn.
    now rewrite Hcfg2, Htab2, Hcfg1, Htab1. }
  clear Hcheck Hcfg2 Htab2 s2 ul.
  unfold Start_before_check in Hpre.
  inv_call Hpre as w done Hdone.
  destruct done; [inv_run Hpre; discriminate|].
  inv_bind Hpre as r1 s2 Hts. destruct r1 as [ts [e|]]; [inv_run Hpre; discriminate|].
  destruct (ts =? 0); [inv_run Hpre; discriminate|].
  inv_bind Hpre as r2 s3 Hgen. destruct r2 as [n [e|]]; [inv_run Hpre; discriminate|].
  unfold asyncGenerateLocksDuringGC in Hpre. inv_run Hpre.
  inv_bind Hpre as r3 s4 Hsp. destruct r3 as [sp [e|]]; [inv_run Hpre; discriminate|].
  inv_run Hpre.
  inv_bind Hpre as r4 s5 Hgc. destruct r4 as [[gu [e|]]|e]; try (inv_run Hpre; discriminate).
  inv_run Hpre.
  pose proof (stable_Ok _ _ _ _ _ (same_setup_gc_loop 5 false None) Hgc) as [Hcfg5 _].
  pose proof (stable_Ok _ _ _ _ _ (same_setup_getTs fuel ctx_Background) Hsp) as [Hcfg4 _].
  pose proof (stable_Ok _ _ _ _ _ (same_setup_generateLocks fuel ctx_Background) Hgen)
    as [Hcfg3 _].
  pose proof (stable_Ok _ _ _ _ _ (same_setup_getTs fuel ctx_Background) Hts) as [Hcfg2 _].
  cbn [client cfg set_safePoint set_mockLockTs set_safeLockTs set_handleID] in Hcfg5, Hcfg4, Hcfg2.
  destruct (EnableGreenGC (cfg (client s5)) && _) eqn:Htest; [inv_run Hpre; discriminate|].
  unfold asyncGenerateLocksDuringGC_go in Hpre.
  inv_bind Hpre as r5 s6 Hgo.
  match goal with Hi : inr _ = inr _ |- _ => injection Hi as -> end.
  split; [destruct gu; auto|].
  intros Hgreen.
  assert (Hc5 : cfg (client s5) = cfg (client s)) by congruence.
  rewrite Hc5, Hgreen in Htest. cbn [andb] in Htest.
  rewrite Z.gtb_ltb in Htest. apply Z.ltb_ge in Htest. exact Htest.
Qed.

(** A round that goes on to the next one leaves the client as new: the handle,
    the safe point, the safe lock timestamp and the mock counter are zero, the
    configuration and the tables are those of before.  The round number it
    hands on as that of the last green GC is its own or the one it was given,
    and with green GC enabled it is at most 50 rounds back. *)
Theorem Start_round_next_reset (fuel : nat) (loopNum lastGreenGC g : Z) (s s' : State W) :
  Start_round E fuel loopNum lastGreenGC s = Ok (NextRound g) s' ->
  client s' = mkClient (cfg (client s)) (tableIDs (client s)) 0 0 0 0 /\
  (g = loopNum \/ g = lastGreenGC) /\
  (EnableGreenGC (cfg (client s)) = true -> loopNum - g <= 50).
Proof. apply Start_round_next_inv. Qed.

Lemma Start_loop_nil_inv (fuel n : nat) :
  forall loopNum lastGreenGC l (s s' : State W),
    Start_loop E fuel n loopNum lastGreenGC s = Ok (l, None) s' ->
    (l = loopNum /\ client s' = client s) \/
    (loopNum < l /\ client s' = mkClient (cfg (client s)) (tableIDs (client s)) 0 0 0 0).
Proof.
  induction n as [|n IH]; intros loopNum lastGreenGC l s s' H; cbn [Start_loop] in H;
    [discriminate H|].
  inv_bind H as r s1 Hround. destruct r as [e|g].
  - apply ret_Ok in H. destruct H as [Hp ->]. injection Hp as -> <-.
    destruct (Start_round_nil_inv _ _ _ _ _ Hround) as (w & [[Hd ->]|[Hd Hts]]).
    + now left.
    + left. split; [reflexivity|].
      exact (proj1 (stable_Ok _ _ _ _ _ (getTs_quiet E fuel ctx_Background) Hts)).
  - destruct (Start_round_next_inv _ _ _ _ _ _ Hround) as (Hc & _).
    right. destruct (IH _ _ _ _ _ H) as [[-> Hs]|[Hl Hs]].
    + split; [lia|]. now rewrite Hs.
    + split; [lia|]. rewrite Hs, Hc. reflexivity.
Qed.

(** When [Start] returns nil the client is clean: either no round was
    finished and the client is as it was given, or the counters of the last
    finished round have been reset to zero.  No state of a half-done round is
    left in a client that ended without an error. *)
Theorem Start_nil_clean (fuel : nat) (s s' : State W) :
  Start E fuel s = Ok None s' ->
  client s' = client s \/
  client s' = mkClient (cfg (client s)) (tableIDs (client s)) 0 0 0 0.
Proof.
  intros H. unfold Start in H. inv_bind H as r s1 Hloop.
  destruct r as [l e]. cbn [snd] in H. subst e.
  destruct (Start_loop_nil_inv _ _ _ _ _ _ _ Hloop) as [[_ Hc]|[_ Hc]]; auto.
Qed.

End Rounds.

(** ** Set-up and tear-down *)

Section SetUpRuns.
Context {X : Type} (D : SetupEnv X).

Lemma bind_outcall {A B} (c : Call) (f : X -> X * A) (k : A -> M (Rig X) B)
  (s : State (Rig X)) :
  bind (outcall c f) k s =
  k (snd (f (outside (world s))))
    (mkState (client s)
       (mkRig (conn (world s)) (fst (f (outside (world s)))) (c :: calls (world s)))
       (log s)).
Proof. unfold outcall. rewrite bind_call. now destruct (f (outside (world s))). Qed.

Lemma outcall_eq {A} (c : Call) (f : X -> X * A) (s : State (Rig X)) :
  outcall c f s =
  Ok (snd (f (outside (world s))))
     (mkState (client s)
        (mkRig (conn (world s)) (fst (f (outside (world s)))) (c :: calls (world s)))
        (log s)).
Proof. unfold outcall, call. now destruct (f (outside (world s))). Qed.

Lemma bind_mod_conn {B} (f : Conn -> Conn) (k : unit -> M (Rig X) B) (s : State (Rig X)) :
  bind (mod_conn f) k s =
  k tt (mkState (client s)
          (mkRig (f (conn (world s))) (outside (world s)) (calls (world s))) (log s)).
Proof. reflexivity. Qed.

Lemma bind_get_conn {B} (k : Conn -> M (Rig X) B) (s : State (Rig X)) :
  bind get_conn k s = k (conn (world s)) s.
Proof. reflexivity. Qed.

End SetUpRuns.

(** Runs the steps of a set-up at the head of the run in [H], naming the
    answer of the call that comes first. *)
Ltac rig_head H :=
  repeat first
    [ rewrite bind_assoc in H | rewrite bind_ret in H | rewrite bind_getc in H
    | rewrite bind_modc in H | rewrite bind_mod_conn in H | rewrite bind_get_conn in H ];
  cbv beta match in H; cbn [client world log conn outside calls] in H.

Tactic Notation "rig_call" hyp(H) "as" ident(x) simple_intropattern(a) ident(Hc) :=
  rewrite bind_outcall in H; cbn [client world log conn outside calls] in H;
  match type of H with
  | context [fst ?t] => destruct t as [x a] eqn:Hc
  end;
  cbn [fst snd] in H; rig_head H.

Section SetUpProperties.
Context {X : Type} (D : SetupEnv X).

Lemma CreateTable_Ok (ctx : Context) (i id : Z) (err : option error)
  (s s' : State (Rig X)) :
  CreateTable D ctx i s = Ok (id, err) s' ->
  client s' = client s /\ log s' = log s /\ conn (world s') = conn (world s) /\
  exists d,
    db (conn (world s)) = Some d /\
    match err with
    | None =>
        decoded D id /\
        calls (world s') =
        CallGet (schema_url (conn (world s)) (table_name i))
        :: CallExec d (create_table (table_name i)) :: calls (world s)
    | Some _ => id = 0
    end.
Proof.
  intros H. unfold CreateTable in H. rig_head H.
  destruct (db (conn (world s))) as [d|] eqn:Hdb; [|discriminate H].
  rig_call H as x1 [e|] Hexec.
  { inv_ret2 H. repeat split; try reflexivity. now exists d. }
  rig_call H as x2 [resp|e] Hget.
  2:{ inv_ret2 H. repeat split; try reflexivity. now exists d. }
  destruct (json_Unmarshal_id D resp) as [id' [e|]] eqn:Hjson.
  { inv_ret2 H. repeat split; try reflexivity. now exists d. }
  inv_ret2 H. repeat split; try reflexivity. exists d. split; [reflexivity|].
  split; [now exists resp | reflexivity].
Qed.

Lemma SetUp_tables_Ok (ctx : Context) (n : nat) :
  forall (i : Z) (s s' : State (Rig X)) (err : option error),
    SetUp_tables D ctx n i s = Ok err s' ->
    exists ids,
      client s' = set_tableIDs (tableIDs (client s) ++ ids) (client s) /\
      log s' = log s /\ conn (world s') = conn (world s) /\
      Forall (decoded D) ids /\
      match err with
      | None =>
          List.length ids = n /\
          forall d, db (conn (world s)) = Some d ->
                    calls (world s') =
                    rev (tables_calls (conn (world s)) d n i) ++ calls (world s)
      | Some _ => (List.length ids < n)%nat
      end.
Proof.
  induction n as [|n IH]; intros i s s' err H; cbn [SetUp_tables] in H.
  - apply ret_Ok in H. destruct H as [-> ->]. exists [].
    rewrite app_nil_r. split; [now destruct (client s)|].
    repeat split; try reflexivity. constructor.
  - inv_bind H as r s1 Hct. destruct r as [id [e|]].
    + apply ret_Ok in H. destruct H as [-> ->].
      destruct (CreateTable_Ok _ _ _ _ _ _ Hct) as (Hc & Hl & Hk & _).
      exists []. rewrite app_nil_r, Hc. split; [now destruct (client s)|].
      split; [exact Hl|]. split; [exact Hk|]. split; [constructor|]. cbn. lia.
    + rig_head H.
      destruct (CreateTable_Ok _ _ _ _ _ _ Hct) as (Hc & Hl & Hk & d & Hdb & Hdec & Hcalls).
      destruct (IH _ _ _ _ H) as (ids & Hc' & Hl' & Hk' & Hdec' & Herr).
      cbn [client world log] in Hc', Hl', Hk', Herr.
      exists (id :: ids).
      split.
      { rewrite Hc', Hc. unfold set_tableIDs. cbn [tableIDs cfg handleID safePoint
          safeLockTs mockLockTs]. now rewrite <- app_assoc. }
      split; [congruence|]. split; [congruence|]. split; [now constructor|].
      destruct err as [e|].
      * cbn [List.length]. lia.
      * destruct Herr as [Hlen Hcs]. split; [cbn [List.length]; lia|].
        intros d' Hd'. rewrite Hdb in Hd'. injection Hd' as <-.
        rewrite (Hcs d) by (rewrite Hk; exact Hdb).
        rewrite Hk, Hcalls. cbn [tables_calls rev]. now rewrite <- !app_assoc.
Qed.

Lemma openDB_Ok (ctx : Context) (ip : string) (port : Z) (err : option error)
  (s s' : State (Rig X)) :
  openDB D ctx ip port s = Ok err s' ->
  client s' = client s /\ log s' = log s /\
  match err with
  | None =>
      exists d0 d1,
        conn (world s') = set_db (Some d1) (conn (world s)) /\
        calls (world s') =
        rev [CallOpenDB (Sprintf ["root@tcp("; ip; ":"; Itoa port; ")/"]) 1;
             CallExec d0 (drop_database (dbName (conn (world s))));
             CallExec d0 (create_database (dbName (conn (world s))));
             CallClose d0;
             CallOpenDB (String.append (Sprintf ["root@tcp("; ip; ":"; Itoa port; ")/"])
                           (dbName (conn (world s)))) 100]
        ++ calls (world s)
  | Some _ =>
      conn (world s') = conn (world s) \/ conn (world s') = set_db None (conn (world s))
  end.
Proof.
  intros H. unfold openDB in H.
  rig_call H as x1 [d0|e] Hopen.
  2:{ inv_run H. cbn. auto. }
  rig_call H as x2 [e|] Hdrop.
  { inv_run H. cbn. auto. }
  rig_call H as x3 [e|] Hcreate.
  { inv_run H. cbn. auto. }
  rig_call H as x4 ec Hclose.
  rig_call H as x5 [d1|e] Hopen2.
  - inv_run H. cbn [client world log conn calls]. split; [reflexivity|].
    split; [reflexivity|]. exists d0, d1. split; reflexivity.
  - inv_run H. cbn. auto.
Qed.

Lemma SetUp_Ok (ctx : Context) (nodes : list Node) (clientNodes : list ClientNode)
  (err : option error) (s s' : State (Rig X)) :
  SetUp D ctx nodes clientNodes 0 s = Ok err s' ->
  exists ids,
    client s' = set_tableIDs (tableIDs (client s) ++ ids) (client s) /\
    log s' = log s /\
    Forall (decoded D) ids /\
    match err with
    | None =>
        List.length ids = Z.to_nat (RegionCount (cfg (client s))) /\
        (LocalMode (cfg (client s)) = false -> nodes <> [] /\ clientNodes <> []) /\
        exists pdClient store d0 d1,
          conn (world s') =
          mkConn (dbName (conn (world s)))
                 (SetUp_statusAddr (LocalMode (cfg (client s))) clientNodes)
                 (Some d1) (Some pdClient) (Some store) /\
          calls (world s') =
          rev (SetUp_calls (conn (world s'))
                 (SetUp_pdAddr (LocalMode (cfg (client s))) nodes)
                 (SetUp_dsn (LocalMode (cfg (client s))) clientNodes)
                 d0 d1 (Z.to_nat (RegionCount (cfg (client s)))))
          ++ calls (world s)
    | Some _ =>
        (List.length ids < Nat.max 1 (Z.to_nat (RegionCount (cfg (client s)))))%nat
    end.
Proof.
  intros H. unfold SetUp in H. cbn [Z.eqb negb] in H. rig_head H.
  assert (Hnone : forall e : error,
            exists ids,
              client s = set_tableIDs (tableIDs (client s) ++ ids) (client s) /\
              log s = log s /\ Forall (decoded D) ids /\
              (List.length ids < Nat.max 1 (Z.to_nat (RegionCount (cfg (client s)))))%nat).
  { intros _. exists []. rewrite app_nil_r. split; [now destruct (client s)|].
    split; [reflexivity|]. split; [constructor|]. cbn [List.length]. lia. }
  set (local := LocalMode (cfg (client s))) in *.
  assert (Hpd : exists pdAddr,
            (local = false -> nodes <> []) /\ pdAddr = SetUp_pdAddr local nodes /\
            (r <- outcall (CallNewClient [pdAddr]) (pd_NewClient D [pdAddr]) ;;
             match r with
             | inr err => ret (Some (errors_Trace err))
             | inl pdClient =>
                 mod_conn (set_pd (Some pdClient)) ;;
                 let path := Sprintf ["tikv://"; pdAddr; "?disableGC=true"] in
                 r <- outcall (CallDriverOpen path) (driver_Open D path) ;;
                 match r with
                 | inr err => ret (Some (errors_Trace err))
                 | inl store =>
                     mod_conn (set_kv (Some store)) ;;
                     dbNode <- (if local then
                                  let dbNode :=
                                    mkClientNode EmptyString EmptyString "127.0.0.1" 4000 in
                                  mod_conn (set_dbStatusAddr
                                              (Sprintf ["http://"; cn_IP dbNode; ":10080"])) ;;
                                  ret dbNode
                                else match nth_error clientNodes (Z.to_nat 0) with
                                     | None => panic
                                     | Some dbNode =>
                                         mod_conn (set_dbStatusAddr
                                                     (Sprintf ["http://"; cn_ClusterName dbNode;
                                                               "-tidb."; cn_Namespace dbNode;
                                                               ".svc:10080"])) ;;
                                         ret dbNode
                                     end) ;;
                     err <- openDB D ctx (cn_IP dbNode) (cn_Port dbNode) ;;
                     match err with
                     | Some e => ret (Some (errors_Trace e))
                     | None =>
                         k <- get_conn ;;
                         match db k with
                         | None => panic
                         | Some d =>
                             err <- outcall (CallExec d disable_gc)
                                            (db_ExecContext D d ctx disable_gc) ;;
                             match err with
                             | Some e => ret (Some (errors_Trace e))
                             | None =>
                                 SetUp_tables D ctx
                                   (Z.to_nat (RegionCount (cfg (client s)))) 0
                             end
                         end
                     end
                 end
             end) s = Ok err s').
  { destruct local.
    - exists "127.0.0.1:2379". split; [discriminate|]. split; [reflexivity|].
      rewrite bind_ret in H. exact H.
    - destruct nodes as [|pdNode nodes']; [discriminate H|]. rewrite bind_ret in H.
      eexists. split; [discriminate|]. split; [reflexivity|]. exact H. }
  clear H. destruct Hpd as (pdAddr & Hnodes & HpdAddr & H).
  rig_call H as x1 [pdClient|e] Hnew.
  2:{ inv_run H. destruct (Hnone e) as (ids & ? & ? & ? & ?). exists ids.
      cbn [client log]. auto. }
  rig_call H as x2 [store|e] Hdrv.
  2:{ inv_run H. destruct (Hnone e) as (ids & ? & ? & ? & ?). exists ids.
      cbn [client log]. auto. }
  assert (Hnode : exists dbNode,
            (local = false -> clientNodes <> []) /\
            dbNode = SetUp_dbNode local clientNodes /\
            (err <- openDB D ctx (cn_IP dbNode) (cn_Port dbNode) ;;
             match err with
             | Some e => ret (Some (errors_Trace e))
             | None =>
                 k <- get_conn ;;
                 match db k with
                 | None => panic
                 | Some d =>
                     err <- outcall (CallExec d disable_gc)
                                    (db_ExecContext D d ctx disable_gc) ;;
                     match err with
                     | Some e => ret (Some (errors_Trace e))
                     | None =>
                         SetUp_tables D ctx (Z.to_nat (RegionCount (cfg (client s)))) 0
                     end
                 end
             end)
              (mkState (client s)
                 (mkRig (set_dbStatusAddr (SetUp_statusAddr local clientNodes)
                           (set_kv (Some store) (set_pd (Some pdClient) (conn (world s)))))
                    x2
                    (CallDriverOpen (Sprintf ["tikv://"; pdAddr; "?disableGC=true"])
                     :: CallNewClient [pdAddr] :: calls (world s)))
                 (log s))
            = Ok err s').
  { destruct local.
    - eexists. split; [discriminate|]. split; [reflexivity|]. rig_head H. exact H.
    - cbn [Z.to_nat nth_error] in H.
      destruct clientNodes as [|dbNode rest]; [discriminate H|]. rig_head H.
      exists dbNode. split; [discriminate|]. split; [reflexivity|]. exact H. }
  clear H. destruct Hnode as (dbNode & Hcn & HdbNode & H).
  inv_bind H as oerr s1 Hopen.
  apply openDB_Ok in Hopen. cbn [client world log conn calls] in Hopen.
  destruct Hopen as (Hc1 & Hl1 & Hopen).
  destruct oerr as [e|].
  { inv_run H. destruct (Hnone e) as (ids & ? & ? & ? & ?). exists ids.
    rewrite Hc1, Hl1. auto. }
  destruct Hopen as (d0 & d1 & Hk1 & Hcalls1).
  rig_head H. rewrite Hk1 in H. cbn [db set_db] in H.
  rig_call H as x3 [e|] Hgc.
  { inv_run H. destruct (Hnone e) as (ids & ? & ? & ? & ?). exists ids.
    cbn [client log]. rewrite Hc1, Hl1. auto. }
  apply SetUp_tables_Ok in H. cbn [client world log conn calls] in H.
  destruct H as (ids & Hc2 & Hl2 & Hk2 & Hdec & Herr).
  exists ids. rewrite Hc2, Hl2, Hc1, Hl1.
  split; [reflexivity|]. split; [reflexivity|]. split; [exact Hdec|].
  destruct err as [e|]; [lia|].
  destruct Herr as [Hlen Hcs]. split; [exact Hlen|]. split; [auto|].
  exists pdClient, store, d0, d1. rewrite Hk2, Hk1. split; [reflexivity|].
  rewrite (Hcs d1) by (rewrite Hk1; reflexivity).
  rewrite Hk1, Hcalls1. unfold SetUp_calls. rewrite rev_app_distr, <- app_assoc.
  f_equal. subst pdAddr dbNode. reflexivity.
Qed.



Lemma SetUp_local (ctx : Context) (nodes : list Node) (clientNodes : list ClientNode)
  (idx : Z) (s : State (Rig X)) :
  LocalMode (cfg (client s)) = true ->
  SetUp D ctx nodes clientNodes idx s = SetUp D ctx [] [] idx s.
Proof.
  intros Hlocal. unfold SetUp. destruct (negb (idx =? 0)); [reflexivity|].
  rewrite !bind_getc, Hlocal. reflexivity.
Qed.

(** The nodes of a set-up.  In local mode [SetUp] does not look at the nodes
    it is given: the run is the same with empty lists.  In cluster mode with
    index 0 an empty list of nodes makes it panic before any call; an empty
    list of client nodes makes it panic once the PD client and the store are
    open, with their handles in the client and no database. *)
Theorem SetUp_nodes (ctx : Context) (nodes : list Node) (clientNodes : list ClientNode)
  (s : State (Rig X)) :
  (LocalMode (cfg (client s)) = true ->
   forall idx, SetUp D ctx nodes clientNodes idx s = SetUp D ctx [] [] idx s) /\
  (LocalMode (cfg (client s)) = false ->
   SetUp D ctx [] clientNodes 0 s = Panic s /\
   forall x1 x2 pdClient store,
     pd_NewClient D [SetUp_pdAddr false nodes] (outside (world s)) = (x1, inl pdClient) ->
     driver_Open D (Sprintf ["tikv://"; SetUp_pdAddr false nodes; "?disableGC=true"]) x1
     = (x2, inl store) ->
     nodes <> [] ->
     SetUp D ctx nodes [] 0 s =
     Panic (mkState (client s)
              (mkRig (set_kv (Some store) (set_pd (Some pdClient) (conn (world s)))) x2
                 (CallDriverOpen (Sprintf ["tikv://"; SetUp_pdAddr false nodes;
                                           "?disableGC=true"])
                  :: CallNewClient [SetUp_pdAddr false nodes] :: calls (world s)))
              (log s))).
Proof.
  split.
  - intros Hlocal idx. now apply SetUp_local.
  - intros Hcluster. split.
    + unfold SetUp. cbn [Z.eqb negb]. rewrite bind_getc, Hcluster. reflexivity.
    + intros x1 x2 pdClient store Hnew Hdrv Hne.
      destruct nodes as [|pdNode rest]; [contradiction|].
      unfold SetUp. cbn [Z.eqb negb]. rewrite bind_getc, Hcluster, bind_ret.
      cbn [SetUp_pdAddr] in Hnew, Hdrv |- *.
      rewrite bind_outcall, Hnew. cbn [fst snd]. rewrite bind_mod_conn.
      cbn [client world log conn outside calls].
      rewrite bind_outcall. cbn [client world log conn outside calls].
      rewrite Hdrv. cbn [fst snd]. rewrite bind_mod_conn.
      cbn [client world log conn outside calls]. reflexivity.
Qed.

Lemma TearDown_open (ctx : Context) (d : sql_DB) (s : State (Rig X)) :
  db (conn (world s)) = Some d ->
  exists x1 e1 x2 e2,
    db_ExecContext D d ctx (drop_database (dbName (conn (world s)))) (outside (world s))
    = (x1, e1) /\
    db_Close D d x1 = (x2, e2) /\
    TearDown D ctx s =
    Ok e2 (mkState (client s)
             (mkRig (conn (world s)) x2
                (CallClose d
                 :: CallExec d (drop_database (dbName (conn (world s))))
                 :: calls (world s)))
             (log s)).
Proof.
  intros Hdb. unfold TearDown. rewrite bind_get_conn, Hdb, bind_outcall.
  cbn [client world log conn outside calls].
  destruct (db_ExecContext D d ctx _ (outside (world s))) as [x1 e1] eqn:Hexec.
  cbn [fst snd]. rewrite outcall_eq. cbn [client world log conn outside calls].
  destruct (db_Close D d x1) as [x2 e2] eqn:Hclose. cbn [fst snd].
  now exists x1, e1, x2, e2.
Qed.

(** Tear-down after set-up.  After a [SetUp] with index 0 that returned nil,
    [TearDown] drops the database through the connection that the client
    kept, closes it, and returns what [Close] returned, whatever the answer
    to the [DROP] was.  After a [SetUp] with another index, which opens
    nothing, [TearDown] of a client that had no connection panics: it calls
    a method through the nil [c.db]. *)
Theorem TearDown_after_SetUp (ctx ctx' : Context) (nodes : list Node)
  (clientNodes : list ClientNode) (idx : Z) (s s1 : State (Rig X)) :
  SetUp D ctx nodes clientNodes idx s = Ok None s1 ->
  if idx =? 0 then
    exists d x1 e1 x2 e2,
      db (conn (world s1)) = Some d /\
      db_ExecContext D d ctx' (drop_database (dbName (conn (world s)))) (outside (world s1))
      = (x1, e1) /\
      db_Close D d x1 = (x2, e2) /\
      TearDown D ctx' s1 =
      Ok e2 (mkState (client s1)
               (mkRig (conn (world s1)) x2
                  (CallClose d
                   :: CallExec d (drop_database (dbName (conn (world s))))
                   :: calls (world s1)))
               (log s1))
  else
    db (conn (world s)) = None -> TearDown D ctx' s1 = Panic s1.
Proof.
  intros H. destruct (Z.eqb_spec idx 0) as [->|Hidx].
  - destruct (SetUp_Ok _ _ _ _ _ _ H)
      as (ids & _ & _ & _ & _ & _ & pdClient & store & d0 & d1 & Hk & _).
    assert (Hdb : db (conn (world s1)) = Some d1) by now rewrite Hk.
    assert (Hname : dbName (conn (world s1)) = dbName (conn (world s))) by now rewrite Hk.
    destruct (TearDown_open ctx' d1 s1 Hdb) as (x1 & e1 & x2 & e2 & Hexec & Hclose & Hrun).
    rewrite Hname in Hexec, Hrun.
    exists d1, x1, e1, x2, e2. auto.
  - unfold SetUp in H. destruct (Z.eqb_spec idx 0) as [H0|_]; [contradiction|].
    cbn [negb] in H. apply ret_Ok in H. destruct H as [_ ->].
    intros Hdb. unfold TearDown. now rewrite bind_get_conn, Hdb.
Qed.

(** From [Create] to the tables.  A client made by [Create] and set up with
    index 0 has the normalized configuration, the database [resolve_lock], and
    as many tables as the configuration asked for: 200 when [RegionCount] was
    left at zero, none when it was negative. *)
Theorem Create_SetUp_tables (Cfg : Config) (ctx : Context) (nodes : list Node)
  (clientNodes : list ClientNode) (x : X) (s' : State (Rig X)) :
  SetUp D ctx nodes clientNodes 0
    (mkState (fst (Create Cfg)) (mkRig (snd (Create Cfg)) x []) []) = Ok None s' ->
  cfg (client s') = Normalize Cfg /\
  len (tableIDs (client s')) =
  (if RegionCount Cfg =? 0 then 200 else Z.max (RegionCount Cfg) 0) /\
  handleID (client s') = 0 /\ mockLockTs (client s') = 0 /\
  dbName (conn (world s')) = "resolve_lock" /\
  exists d0, In (CallExec d0 "DROP DATABASE IF EXISTS `resolve_lock`") (calls (world s')).
Proof.
  intros H. destruct (SetUp_Ok _ _ _ _ _ _ H)
    as (ids & Hc & _ & _ & Hlen & _ & pdClient & store & d0 & d1 & Hk & Hcalls).
  cbn [client world conn calls Create fst snd tableIDs cfg app dbName] in Hc, Hlen, Hk, Hcalls.
  rewrite Hc. unfold set_tableIDs. cbn [cfg tableIDs handleID mockLockTs].
  split; [reflexivity|]. split.
  { unfold len. rewrite Hlen. unfold Normalize.
    destruct (Z.eqb_spec (RegionCount Cfg) 0) as [H0|Hn].
    - cbn [RegionCount LockPerRegion Worker EnableGreenGC LocalMode].
      destruct (_ =? 0); destruct (_ =? 0); reflexivity.
    - destruct (LockPerRegion Cfg =? 0);
        cbn [RegionCount LockPerRegion Worker EnableGreenGC LocalMode];
        destruct (_ =? 0); cbn [RegionCount]; lia. }
  split; [reflexivity|]. split; [reflexivity|]. rewrite Hk. split; [reflexivity|].
  exists d0. rewrite Hcalls, app_nil_r, <- in_rev. unfold SetUp_calls.
  apply in_or_app. left. rewrite Hk. cbn [dbName]. right. right. right. left. reflexivity.
Qed.

End SetUpProperties.

(** ** Every row of every table *)

(** [generateLocks] on a cluster that takes every write.  PD, the region cache
    and the store answer; no reply of the store carries key errors; the region
    located for a row holds all the rows of its table; row keys are shorter
    than 1024 bytes; the dispatch loop sees no cancellation; there is at least
    one worker and [LockPerRegion] is not negative; and the mock counter, if
    it is in use (not zero), is above the number of tables times the locks per
    table and below 2^64, so that it does not run out.  Then [generateLocks]
    returns a nil error and a count of exactly the number of tables times the
    locks per table, whatever the number of workers; of the client only
    [mockLockTs] can have moved. *)
Theorem generateLocks_every_row {W : Type} (E : Env W) (fuel : nat) (ctx : Context)
  (s : State W) :
  pd_up E 1 -> regions_up E -> prewrite_answered E ->
  prewrite_accepted E -> rows_in_one_region E -> short_row_keys E ->
  no_cancel E ctx ->
  1 <= Worker (cfg (client s)) ->
  0 <= LockPerRegion (cfg (client s)) ->
  (mockLockTs (client s) = 0 \/
   len (tableIDs (client s)) * LockPerRegion (cfg (client s)) < mockLockTs (client s)
   < uint64_modulus) ->
  exists s',
    generateLocks E (S fuel) ctx s
    = Ok (len (tableIDs (client s)) * LockPerRegion (cfg (client s)), None) s' /\
    same_but_mock (client s) (client s').
Proof.
  intros Hpd Hloc Hpw Hacc Hrows Hshort Hno Hworker Hlpr Hts.
  destruct (generateLocks_up E 1 ltac:(lia) Hpd Hloc Hpw fuel ctx s ltac:(lia))
    as (n & s' & Hrun & Hsame & Hcount).
  destruct (Hcount (conj Hacc (conj Hrows Hshort)) Hno Hworker Hlpr 0 ltac:(lia))
    as [Hn _].
  { exact Hts. }
  exists s'. split; [now rewrite Hrun, Hn | exact Hsame].
Qed.

(** ** Runs of the further properties *)

Lemma getTs_result_witness :
  getTs Stub.env 1 ctx_Background (Stub.state0 client_5_3_2)
  = Ok (262144, None) (Stub.state0 client_5_3_2) /\
  client (Stub.state0 client_5_3_2) = client (Stub.state0 client_5_3_2).
Proof.
  assert (H : getTs Stub.env 1 ctx_Background (Stub.state0 client_5_3_2)
              = Ok (262144, None) (Stub.state0 client_5_3_2)) by reflexivity.
  split; [exact H|].
  exact (proj1 (getTs_result Stub.env 1 ctx_Background _ _ _ _ H)).
Defined.

Lemma lockBatch_count_witness :
  lockBatch Stub.env 1 ctx_Background [key_a; key_b] (Stub.state0 client_5_3_2)
  = Ok (2, None) (res_state (lockBatch Stub.env 1 ctx_Background [key_a; key_b]
                               (Stub.state0 client_5_3_2))) /\
  0 <= 2 <= len [key_a; key_b].
Proof.
  assert (H : lockBatch Stub.env 1 ctx_Background [key_a; key_b] (Stub.state0 client_5_3_2)
              = Ok (2, None)
                   (res_state (lockBatch Stub.env 1 ctx_Background [key_a; key_b]
                                 (Stub.state0 client_5_3_2))))
    by (vm_compute; reflexivity).
  split; [exact H|].
  exact (proj1 (lockBatch_count Stub.env 1 ctx_Background [key_a; key_b] _ _ _ _ H)).
Defined.

Lemma lock_count_witness :
  lock Stub.env 1 ctx_Background 41 0 7 (Stub.state0 client_5_3_2)
  = Ok (7, None) (res_state (lock Stub.env 1 ctx_Background 41 0 7
                               (Stub.state0 client_5_3_2))) /\
  0 <= 7 <= Z.max 7 0.
Proof.
  assert (H : lock Stub.env 1 ctx_Background 41 0 7 (Stub.state0 client_5_3_2)
              = Ok (7, None) (res_state (lock Stub.env 1 ctx_Background 41 0 7
                                           (Stub.state0 client_5_3_2))))
    by (vm_compute; reflexivity).
  split; [exact H|].
  exact (proj1 (lock_count Stub.env 1 ctx_Background 41 0 7 _ _ _ _ H)).
Defined.

Lemma generateLocks_count_witness :
  generateLocks Sim.env 1 ctx_Background (Sim.state0 (Sim.client0 true [1; 2] 3 2) Sim.world0)
  = Ok (6, None)
       (res_state (generateLocks Sim.env 1 ctx_Background
                     (Sim.state0 (Sim.client0 true [1; 2] 3 2) Sim.world0))) /\
  0 <= 6 <= len [1; 2] * Z.max 3 0.
Proof.
  assert (H : generateLocks Sim.env 1 ctx_Background
                (Sim.state0 (Sim.client0 true [1; 2] 3 2) Sim.world0)
              = Ok (6, None)
                   (res_state (generateLocks Sim.env 1 ctx_Background
                                 (Sim.state0 (Sim.client0 true [1; 2] 3 2) Sim.world0))))
    by (vm_compute; reflexivity).
  split; [exact H|].
  exact (proj1 (generateLocks_count Sim.env 1 ctx_Background _ _ _ _ H)).
Defined.

Lemma generateLocks_race_window_witness :
  0 < 7 < uint64_modulus /\
  window_post 7
    (mkState (mkClient (mkConfig true 1 3 2 true) [1] 3 0 7 7) Sim.world0 [])
    (res_state ((asyncGenerateLocksDuringGC 7 ;; generateLocks Sim.env 1 ctx_Race)
                  (Sim.state0 (Sim.client0 true [1] 3 2) Sim.world0))).
Proof.
  assert (H : 0 < 7 < uint64_modulus) by (unfold uint64_modulus; lia).
  split; [exact H|].
  exact (generateLocks_race_window Sim.env 1 ctx_Race 7
           (Sim.state0 (Sim.client0 true [1] 3 2) Sim.world0) H).
Defined.

Lemma generateLocks_every_row_witness :
  exists s',
    generateLocks Stub.env 1 ctx_Background
      (Stub.state0 (mkClient (mkConfig false 2 7 3 false) [11; 12] 0 0 0 0))
    = Ok (14, None) s' /\
    same_but_mock (mkClient (mkConfig false 2 7 3 false) [11; 12] 0 0 0 0) (client s').
Proof.
  apply (generateLocks_every_row Stub.env 0 ctx_Background
           (Stub.state0 (mkClient (mkConfig false 2 7 3 false) [11; 12] 0 0 0 0))
           Stub_pd_up Stub_regions_up Stub_prewrite_answered
           (proj1 Stub_accepting) (proj1 (proj2 Stub_accepting))
           (proj2 (proj2 Stub_accepting))).
  - left. reflexivity.
  - cbn. lia.
  - cbn. lia.
  - left. reflexivity.
Defined.

(** A round on a cluster whose context is already done. *)
Lemma Start_round_nil_at_top_witness :
  Start_round Sim.env 1 0 (-1)
    (Sim.state0 (Sim.client0 true [1] 3 2)
       (Sim.mkWorld 100 [] 0 [mkLoc 1 [] []] [] [] [] true true [] 0))
  = Ok (Return None)
       (Sim.state0 (Sim.client0 true [1] 3 2)
          (Sim.mkWorld 100 [] 0 [mkLoc 1 [] []] [] [] [] true true [] 0)) /\
  log (Sim.state0 (Sim.client0 true [1] 3 2)
         (Sim.mkWorld 100 [] 0 [mkLoc 1 [] []] [] [] [] true true [] 0)) = [].
Proof.
  assert (H : Start_round Sim.env 1 0 (-1)
                (Sim.state0 (Sim.client0 true [1] 3 2)
                   (Sim.mkWorld 100 [] 0 [mkLoc 1 [] []] [] [] [] true true [] 0))
              = Ok (Return None)
                   (Sim.state0 (Sim.client0 true [1] 3 2)
                      (Sim.mkWorld 100 [] 0 [mkLoc 1 [] []] [] [] [] true true [] 0)))
    by reflexivity.
  split; [exact H|].
  exact (proj1 (proj2 (Start_round_nil_at_top Sim.env 1 0 (-1) _ _ H))).
Defined.

Lemma Start_round_next_reset_witness :
  Start_round Sim.env 1 0 (-1) (Sim.state0 (Sim.client0 true [1] 3 2) Sim.world0)
  = Ok (NextRound 0)
       (res_state (Start_round Sim.env 1 0 (-1)
                     (Sim.state0 (Sim.client0 true [1] 3 2) Sim.world0))) /\
  client (res_state (Start_round Sim.env 1 0 (-1)
                       (Sim.state0 (Sim.client0 true [1] 3 2) Sim.world0)))
  = mkClient (mkConfig true 1 3 2 true) [1] 0 0 0 0.
Proof.
  assert (H : Start_round Sim.env 1 0 (-1) (Sim.state0 (Sim.client0 true [1] 3 2) Sim.world0)
              = Ok (NextRound 0)
                   (res_state (Start_round Sim.env 1 0 (-1)
                                 (Sim.state0 (Sim.client0 true [1] 3 2) Sim.world0))))
    by (vm_compute; reflexivity).
  split; [exact H|].
  exact (proj1 (Start_round_next_reset Sim.env 1 0 (-1) 0 _ _ H)).
Defined.

(** One round, then the context is done. *)
Lemma Start_nil_clean_witness :
  Start Sim.env 2 (Sim.state0 (Sim.client0 true [1] 3 2) Sim.world0)
  = Ok None (res_state (Start Sim.env 2 (Sim.state0 (Sim.client0 true [1] 3 2) Sim.world0))) /\
  (client (res_state (Start Sim.env 2 (Sim.state0 (Sim.client0 true [1] 3 2) Sim.world0)))
   = Sim.client0 true [1] 3 2 \/
   client (res_state (Start Sim.env 2 (Sim.state0 (Sim.client0 true [1] 3 2) Sim.world0)))
   = mkClient (mkConfig true 1 3 2 true) [1] 0 0 0 0).
Proof.
  assert (H : Start Sim.env 2 (Sim.state0 (Sim.client0 true [1] 3 2) Sim.world0)
              = Ok None
                   (res_state (Start Sim.env 2
                                 (Sim.state0 (Sim.client0 true [1] 3 2) Sim.world0))))
    by (vm_compute; reflexivity).
  split; [exact H|].
  exact (Start_nil_clean Sim.env 2 _ _ H).
Defined.



(** A client with index 1 is torn down. *)
Lemma TearDown_after_SetUp_witness :
  SetUp Lab.env ctx_Start [] [] 1 (Lab.state0 (mkConfig true 3 0 0 true) 5)
  = Ok None (Lab.state0 (mkConfig true 3 0 0 true) 5) /\
  TearDown Lab.env ctx_Start (Lab.state0 (mkConfig true 3 0 0 true) 5)
  = Panic (Lab.state0 (mkConfig true 3 0 0 true) 5).
Proof.
  assert (H : SetUp Lab.env ctx_Start [] [] 1 (Lab.state0 (mkConfig true 3 0 0 true) 5)
              = Ok None (Lab.state0 (mkConfig true 3 0 0 true) 5)) by reflexivity.
  split; [exact H|].
  exact (TearDown_after_SetUp Lab.env ctx_Start ctx_Start [] [] 1 _ _ H eq_refl).
Defined.

(** The default configuration. *)
Lemma Create_SetUp_tables_witness :
  SetUp Lab.env ctx_Start [] [] 0
    (mkState (fst (Create (mkConfig true 0 0 0 true)))
       (mkRig (snd (Create (mkConfig true 0 0 0 true))) (Lab.mkWorld 1 200) []) [])
  = Ok None
       (res_state
          (SetUp Lab.env ctx_Start [] [] 0
             (mkState (fst (Create (mkConfig true 0 0 0 true)))
                (mkRig (snd (Create (mkConfig true 0 0 0 true))) (Lab.mkWorld 1 200) []) []))) /\
  len (tableIDs (client
         (res_state
            (SetUp Lab.env ctx_Start [] [] 0
               (mkState (fst (Create (mkConfig true 0 0 0 true)))
                  (mkRig (snd (Create (mkConfig true 0 0 0 true))) (Lab.mkWorld 1 200) [])
                  []))))) = 200.
Proof.
  assert (H : SetUp Lab.env ctx_Start [] [] 0
                (mkState (fst (Create (mkConfig true 0 0 0 true)))
                   (mkRig (snd (Create (mkConfig true 0 0 0 true))) (Lab.mkWorld 1 200) []) [])
              = Ok None
                   (res_state
                      (SetUp Lab.env ctx_Start [] [] 0
                         (mkState (fst (Create (mkConfig true 0 0 0 true)))
                            (mkRig (snd (Create (mkConfig true 0 0 0 true)))
                               (Lab.mkWorld 1 200) []) []))))
    by (vm_compute; reflexivity).
  split; [exact H|].
  exact (proj1 (proj2 (Create_SetUp_tables Lab.env (mkConfig true 0 0 0 true) ctx_Start
                         [] [] (Lab.mkWorld 1 200) _ H))).
Defined.

(** ** A page that is resolved twice *)

(** When the resolver reports that locks remain and the backoffer lets the
    scan go on, [CheckData] scans the same range again, and the locks of the
    page that are not safe are put on the list a second time: after a short
    page in the last region, resolved at the second try, the list returned
    holds each of them twice. *)
Theorem CheckData_counts_twice {W : Type} (E : Env W) (fuel : nat) (s : State W)
  (w1 w2 w3 w4 w5 w6 w7 : W) (loc : KeyLocation) (page : list LockInfo) :
  LocateKey E [] (world s) = (w1, inl loc) ->
  SendReq_ScanLock E (mkScanLock 10 (safePoint (client s)) []) (Region loc) w1
  = (w2, inl (mkResponse (Some (mkScanLockResp None None page)))) ->
  BatchResolveLocks E (map NewLock (filter (is_safe (safeLockTs (client s))) page))
    (Region loc) w2 = (w3, (false, None)) ->
  Backoff E BoTxnLock (errors_New "remain locks: %d") w3 = (w4, None) ->
  LocateKey E [] w4 = (w5, inl loc) ->
  SendReq_ScanLock E (mkScanLock 10 (safePoint (client s)) []) (Region loc) w5
  = (w6, inl (mkResponse (Some (mkScanLockResp None None page)))) ->
  BatchResolveLocks E (map NewLock (filter (is_safe (safeLockTs (client s))) page))
    (Region loc) w6 = (w7, (true, None)) ->
  len page < scanLockLimit ->
  EndKey loc = [] ->
  exists s',
    CheckData E (S (S fuel)) s
    = Ok (map NewLock (filter (fun i => negb (is_safe (safeLockTs (client s)) i)) page)
          ++ map NewLock (filter (fun i => negb (is_safe (safeLockTs (client s)) i)) page),
          None) s' /\
    client s' = client s.
Proof.
  intros Hloc1 Hscan1 Hres1 Hback Hloc2 Hscan2 Hres2 Hshort Hend.
  unfold CheckData. rewrite bind_getc. cbn [CheckData_loop].
  unfold with_StartKey. cbn [sl_Limit sl_MaxVersion].
  run_call_with Hloc1. run_call_with Hscan1.
  cbn [GetRegionError Resp sl_RegionError sl_Error sl_Locks].
  run_head. cbn [client world log].
  rewrite CheckData_classify_split. cbn [app]. run_head. cbn [client world log].
  run_call_with Hres1. cbn [negb]. run_call_with Hback.
  run_call_with Hloc2. run_call_with Hscan2.
  cbn [GetRegionError Resp sl_RegionError sl_Error sl_Locks].
  run_head. cbn [client world log].
  rewrite CheckData_classify_split. cbn [app]. run_head. cbn [client world log].
  run_call_with Hres2. cbn [negb]. run_head. cbn [client world log].
  unfold CheckData_next_key. apply Z.ltb_lt in Hshort. rewrite Hshort, Hend.
  cbn [len List.length Z.of_nat Z.eqb].
  eexists. split; reflexivity.
Qed.

Lemma CheckData_counts_twice_witness :
  exists s',
    CheckData env_slow_resolver 2 state_slow_resolver
    = Ok ([NewLock (mkLockInfo key_b 15 key_b 30000);
           NewLock (mkLockInfo key_b 15 key_b 30000)], None) s' /\
    client s' = client state_slow_resolver.
Proof.
  refine (CheckData_counts_twice env_slow_resolver 0 state_slow_resolver
            world_slow_resolver world_slow_resolver world_slow_resolver
            (Sim.mkWorld 100 [] 0 [mkLoc 1 [] []]
               [mkLockInfo key_a 5 key_a 30000; mkLockInfo key_b 15 key_b 30000]
               [] [] false true [] 1)
            _ _ _ (mkLoc 1 [] [])
            [mkLockInfo key_a 5 key_a 30000; mkLockInfo key_b 15 key_b 30000]
            _ _ _ _ _ _ _ _ _).
  - reflexivity.
  - vm_compute. reflexivity.
  - vm_compute. reflexivity.
  - vm_compute. reflexivity.
  - reflexivity.
  - vm_compute. reflexivity.
  - vm_compute. reflexivity.
  - vm_compute. reflexivity.
  - reflexivity.
Defined.

(** ** The connection and the tables, one at a time *)

Section SetUpParts.
Context {X : Type} (D : SetupEnv X).



End SetUpParts.


